(** * Matchmaking, call negotiation and login of the video-chat application

    A shallow embedding of three React components and of the tables and
    channels they talk to:

    - [Matchmaker]: the chat interface component ([findMatch],
      [stopSearching], [endChat]) over the [waiting_queue] and [chat_rooms]
      tables;
    - [VideoCall]: the call component ([initializeCall], the three broadcast
      handlers, [cleanup], [endCall]) over one peer connection and one
      signaling channel;
    - [Login]: [handleLogin] of the home page over the [users] table.

    Asynchronous code is cut at its [await]s.  In [Matchmaker] every awaited
    table request is a step of its own, so that requests of several clients
    interleave.  [VideoCall] has two granularities.  A [Session] stops each
    handler at every awaited browser promise and lets the promises settle
    in any order ([tick], [play]): this is how the component behaves.
    [step] and [run] give the runs in which each handler has finished
    before the next event; they are runs of the session (shown in
    [SessionRefinement]), so what holds of every [play] holds of them, and
    facts about [run] alone are facts about those runs only. *)

From Stdlib Require Import String List Bool Arith Lia Permutation.
Import ListNotations.
Open Scope string_scope.
Open Scope list_scope.

(** ** Small list facts shared by the components *)

Fixpoint update_nth {A : Type} (n : nat) (x : A) (l : list A) : list A :=
  match l, n with
  | [], _ => []
  | _ :: t, O => x :: t
  | h :: t, S m => h :: update_nth m x t
  end.

Fixpoint remove_nth {A : Type} (n : nat) (l : list A) : list A :=
  match l, n with
  | [], _ => []
  | _ :: t, O => t
  | h :: t, S m => h :: remove_nth m t
  end.

(** [.single()]: the row when the request yields exactly one, otherwise no
    data (and an error object, code PGRST116). *)
Definition single {A : Type} (rows : list A) : option A :=
  match rows with
  | [r] => Some r
  | _ => None
  end.

Module Matchmaker.

(** *** Rows and tables *)

Definition UserId := string.

Record User := { id : UserId; username : string }.

(** A row of [waiting_queue]; [user_id] is its key. *)
Record WaitingEntry := { user_id : UserId; w_username : string }.

(** A row of [chat_rooms]; [room_id] is the key the table assigns on insert. *)
Record ChatRoom := {
  room_id : nat;
  user1_id : UserId;
  user2_id : UserId;
  user1_username : string;
  user2_username : string;
  is_active : bool
}.

Record Store := {
  waiting_queue : list WaitingEntry;
  chat_rooms : list ChatRoom
}.

Definition with_queue (q : list WaitingEntry) (s : Store) : Store :=
  {| waiting_queue := q; chat_rooms := chat_rooms s |}.

Definition with_rooms (r : list ChatRoom) (s : Store) : Store :=
  {| waiting_queue := waiting_queue s; chat_rooms := r |}.

(** [from("waiting_queue").upsert(e)].  The declaration of the table is not
    part of the sources; the spec keys it by the participant ("unique per
    participant (re-entry overwrites)"), so [user_id] is taken as the key on
    which the upsert conflicts: the row with the same key is replaced where
    it stands, a new key is appended. *)
Fixpoint upsert (e : WaitingEntry) (q : list WaitingEntry) : list WaitingEntry :=
  match q with
  | [] => [e]
  | x :: q' => if user_id x =? user_id e then e :: q' else x :: upsert e q'
  end.

(** [select("*").neq("user_id", me).limit(1)]: table order stands for the
    order in which the table returns its rows. *)
Definition select_neq_limit1 (me : UserId) (q : list WaitingEntry) : list WaitingEntry :=
  firstn 1 (filter (fun x => negb (user_id x =? me)) q).

(** [delete().in("user_id", ids)] *)
Definition delete_in (ids : list UserId) (q : list WaitingEntry) : list WaitingEntry :=
  filter (fun x => negb (existsb (String.eqb (user_id x)) ids)) q.

(** [delete().eq("user_id", me)] *)
Definition delete_eq (me : UserId) (q : list WaitingEntry) : list WaitingEntry :=
  filter (fun x => negb (user_id x =? me)) q.

(** [from("chat_rooms").insert({...}).select().single()] *)
Definition insert_room (u : User) (m : WaitingEntry) (rooms : list ChatRoom)
  : list ChatRoom * ChatRoom :=
  let room := {| room_id := length rooms;
                 user1_id := id u;
                 user2_id := user_id m;
                 user1_username := username u;
                 user2_username := w_username m;
                 is_active := true |} in
  (rooms ++ [room], room).

(** [select("*").eq("user2_id", me).eq("is_active", true).single()] *)
Definition existing_room (me : UserId) (rooms : list ChatRoom) : option ChatRoom :=
  single (filter (fun r => (user2_id r =? me) && is_active r) rooms).

(** [update({ is_active: false }).eq("id", rid)] *)
Definition deactivate (rid : nat) (rooms : list ChatRoom) : list ChatRoom :=
  map (fun r => if room_id r =? rid
                then {| room_id := room_id r;
                        user1_id := user1_id r; user2_id := user2_id r;
                        user1_username := user1_username r;
                        user2_username := user2_username r;
                        is_active := false |}
                else r)%nat rooms.

(** *** The component *)

(** What a [setTimeout] callback does.  [RetryFindMatch b] is the callback
    [() => { if (isSearching) findMatch() }]: [b] is the value of the
    constant [isSearching] of the render whose [findMatch] created the
    callback, which is what the callback's body reads. *)
Inductive Callback :=
| StartVideoCall
| RetryFindMatch (isSearching_seen : bool).

(** A suspended continuation of the component: a table request that was
    awaited, or a timer that was set.  The [bool] of the first three is the
    [isSearching] of the enclosing [findMatch] closure, carried to the
    retry callback. *)
Inductive Pending :=
| AwaitUpsert (seen : bool)
| AwaitSearch (seen : bool)
| AwaitInsertRoom (matchedUser : WaitingEntry)
| AwaitDeletePair (matchedUser : WaitingEntry)
| AwaitExistingRoom (seen : bool)
| AwaitDeleteSelf
| AwaitStopDelete
| AwaitEndChat (room : ChatRoom)
| Timeout (ms : nat) (cb : Callback).

(** The console lines that mark an attempt, a miss and a caught error. *)
Inductive LogLine :=
| LogAddingToQueue
| LogNoMatchWaiting
| LogErrorFindingMatch.

Record Client := {
  currentUser : User;
  chatRoom : option ChatRoom;
  isSearching : bool;
  isInVideoCall : bool;
  pending : list Pending;
  console : list LogLine
}.

Definition new_client (u : User) : Client :=
  {| currentUser := u; chatRoom := None; isSearching := false;
     isInVideoCall := false; pending := []; console := [] |}.

Definition setChatRoom (r : option ChatRoom) (c : Client) : Client :=
  {| currentUser := currentUser c; chatRoom := r; isSearching := isSearching c;
     isInVideoCall := isInVideoCall c; pending := pending c; console := console c |}.

Definition setIsSearching (b : bool) (c : Client) : Client :=
  {| currentUser := currentUser c; chatRoom := chatRoom c; isSearching := b;
     isInVideoCall := isInVideoCall c; pending := pending c; console := console c |}.

Definition setIsInVideoCall (b : bool) (c : Client) : Client :=
  {| currentUser := currentUser c; chatRoom := chatRoom c; isSearching := isSearching c;
     isInVideoCall := b; pending := pending c; console := console c |}.

Definition with_pending (p : list Pending) (c : Client) : Client :=
  {| currentUser := currentUser c; chatRoom := chatRoom c; isSearching := isSearching c;
     isInVideoCall := isInVideoCall c; pending := p; console := console c |}.

Definition suspend (p : Pending) (c : Client) : Client :=
  with_pending (pending c ++ [p]) c.

Definition log (l : LogLine) (c : Client) : Client :=
  {| currentUser := currentUser c; chatRoom := chatRoom c; isSearching := isSearching c;
     isInVideoCall := isInVideoCall c; pending := pending c; console := console c ++ [l] |}.

Definition own_entry (c : Client) : WaitingEntry :=
  {| user_id := id (currentUser c); w_username := username (currentUser c) |}.

(** [findMatch], up to its first [await]. [seen] is the [isSearching] of the
    closure that is being called. *)
Definition findMatch (seen : bool) (c : Client) : Client :=
  suspend (AwaitUpsert seen) (log LogAddingToQueue (setIsSearching true c)).

(** The [catch] block of [findMatch]. *)
Definition catch_findMatch (c : Client) : Client :=
  setIsSearching false (log LogErrorFindingMatch c).

(** [stopSearching], up to its [await]. *)
Definition stopSearching (c : Client) : Client :=
  suspend AwaitStopDelete (setIsSearching false c).

(** [endChat], up to its [await]. *)
Definition endChat (c : Client) : Client :=
  match chatRoom c with
  | None => c
  | Some r => suspend (AwaitEndChat r) c
  end.

(** One continuation runs: the awaited request is served by the store
    ([ok = false]: it comes back with an error object) and the code after
    the [await] runs to the next [await], or the timer's callback runs. *)
Definition resume (ok : bool) (p : Pending) (s : Store) (c : Client) : Store * Client :=
  let me := id (currentUser c) in
  match p with
  | AwaitUpsert seen =>
      if ok
      then (with_queue (upsert (own_entry c) (waiting_queue s)) s,
            suspend (AwaitSearch seen) c)
      else (s, catch_findMatch c)
  | AwaitSearch seen =>
      if ok
      then match select_neq_limit1 me (waiting_queue s) with
           | matchedUser :: _ => (s, suspend (AwaitInsertRoom matchedUser) c)
           | [] => (s, suspend (AwaitExistingRoom seen) c)
           end
      else (s, catch_findMatch c)
  | AwaitInsertRoom matchedUser =>
      if ok
      then let (rooms, room) := insert_room (currentUser c) matchedUser (chat_rooms s) in
           (with_rooms rooms s,
            suspend (AwaitDeletePair matchedUser)
                    (setIsSearching false (setChatRoom (Some room) c)))
      else (s, catch_findMatch c)
  | AwaitDeletePair matchedUser =>
      ((if ok
        then with_queue (delete_in [me; user_id matchedUser] (waiting_queue s)) s
        else s),
       suspend (Timeout 2000 StartVideoCall) c)
  | AwaitExistingRoom seen =>
      match (if ok then existing_room me (chat_rooms s) else None) with
      | Some room =>
          (s, suspend AwaitDeleteSelf (setIsSearching false (setChatRoom (Some room) c)))
      | None =>
          (s, suspend (Timeout 2000 (RetryFindMatch seen)) (log LogNoMatchWaiting c))
      end
  | AwaitDeleteSelf =>
      ((if ok then with_queue (delete_eq me (waiting_queue s)) s else s),
       suspend (Timeout 1000 StartVideoCall) c)
  | AwaitStopDelete =>
      ((if ok then with_queue (delete_eq me (waiting_queue s)) s else s), c)
  | AwaitEndChat room =>
      ((if ok then with_rooms (deactivate (room_id room) (chat_rooms s)) s else s),
       setIsSearching false (setIsInVideoCall false (setChatRoom None c)))
  | Timeout _ StartVideoCall => (s, setIsInVideoCall true c)
  | Timeout _ (RetryFindMatch seen) => (s, if seen then findMatch seen c else c)
  end.

(** What the user or the scheduler does to one client.  The buttons exist
    only in the renders that show them: "Find Someone to Chat" when
    [!chatRoom && !isSearching], "Cancel Search" when [isSearching],
    "End Chat" when [chatRoom].  The click handler is the [findMatch] of the
    render that showed the button, so the [isSearching] it closes over is
    the one of that render. *)
Inductive Action :=
| ClickFind
| ClickCancel
| ClickEndChat
| Run (k : nat) (ok : bool).

Definition client_step (a : Action) (s : Store) (c : Client) : Store * Client :=
  match a with
  | ClickFind =>
      match chatRoom c, isSearching c with
      | None, false => (s, findMatch (isSearching c) c)
      | _, _ => (s, c)
      end
  | ClickCancel => if isSearching c then (s, stopSearching c) else (s, c)
  | ClickEndChat => (s, endChat c)
  | Run k ok =>
      match nth_error (pending c) k with
      | Some p => resume ok p s (with_pending (remove_nth k (pending c)) c)
      | None => (s, c)
      end
  end.

(** The store and the clients that share it. *)
Record System := { store : Store; clients : list Client }.

Definition sys_step (ia : nat * Action) (sys : System) : System :=
  match nth_error (clients sys) (fst ia) with
  | Some c =>
      let (s', c') := client_step (snd ia) (store sys) c in
      {| store := s'; clients := update_nth (fst ia) c' (clients sys) |}
  | None => sys
  end.

Definition run (sched : list (nat * Action)) (sys : System) : System :=
  fold_left (fun acc ia => sys_step ia acc) sched sys.

Definition empty_store : Store := {| waiting_queue := []; chat_rooms := [] |}.

Definition init (s : Store) (users : list User) : System :=
  {| store := s; clients := map new_client users |}.

(** The participants of the active rooms, room by room. *)
Definition active_participants (rooms : list ChatRoom) : list UserId :=
  flat_map (fun r => [user1_id r; user2_id r]) (filter is_active rooms).

(** The number of [findMatch] calls a client has made. *)
Definition attempts (c : Client) : nat :=
  length (filter (fun l => match l with LogAddingToQueue => true | _ => false end)
                 (console c)).

(** *** Invariants of the clients and of the store *)

(** The [isSearching] that a continuation carries to its retry callback is
    [false], and a retry timer is set to 2000 ms. *)
Definition unseen (p : Pending) : Prop :=
  match p with
  | AwaitUpsert b | AwaitSearch b | AwaitExistingRoom b => b = false
  | Timeout ms (RetryFindMatch b) => b = false /\ ms = 2000
  | _ => True
  end.

Definition quiet (c : Client) : Prop := Forall unseen (pending c).

Definition is_find (a : Action) : bool :=
  match a with ClickFind => true | _ => false end.

Definition distinct_rooms (s : Store) : Prop :=
  forall r, In r (chat_rooms s) -> user1_id r <> user2_id r.

(** The row that an awaited insert is about to pair the client with is not
    the client's own. *)
Definition matched_other (c : Client) : Prop :=
  forall m, In (AwaitInsertRoom m) (pending c) -> user_id m <> id (currentUser c).

Definition client_attempts (i : nat) (sys : System) : nat :=
  match nth_error (clients sys) i with
  | Some c => attempts c
  | None => 0
  end.

Definition is_click_find (i : nat) (ia : nat * Action) : bool :=
  match snd ia with
  | ClickFind => fst ia =? i
  | _ => false
  end%nat.

(** How often client [i] presses "Find Someone to Chat" in a schedule. *)
Definition clicks (i : nat) (sched : list (nat * Action)) : nat :=
  length (filter (is_click_find i) sched).

(** Whether a participant has a row in the waiting queue. *)
Definition waiting (u : UserId) (s : Store) : bool :=
  existsb (fun e => user_id e =? u) (waiting_queue s).

(** The rows a step adds to [chat_rooms]. *)
Definition created (ia : nat * Action) (sys : System) : list ChatRoom :=
  skipn (length (chat_rooms (store sys))) (chat_rooms (store (sys_step ia sys))).

(** No participant is named by two active rooms, nor twice by one. *)
Definition disjoint_pairs (s : Store) : Prop :=
  NoDup (active_participants (chat_rooms s)).

(** No participant of an active room still has a waiting entry. *)
Definition no_stale_entry (s : Store) : Prop :=
  forall e, In e (waiting_queue s) ->
            ~ In (user_id e) (active_participants (chat_rooms s)).

Definition is_request (p : Pending) : bool :=
  match p with
  | Timeout _ _ => false
  | _ => true
  end.

(** One client's requests served back to back, each without error, until
    the client waits for nothing but timers. *)
Fixpoint serve (fuel : nat) (s : Store) (c : Client) : Store * Client :=
  match fuel with
  | O => (s, c)
  | S fuel' =>
      match pending c with
      | p :: _ =>
          if is_request p
          then let (s', c') := client_step (Run 0 true) s c in serve fuel' s' c'
          else (s, c)
      | [] => (s, c)
      end
  end.

(** A whole [findMatch] of a client that has just opened the page, with no
    step of another client in between. *)
Definition findMatch_alone (u : User) (s : Store) : Store * Client :=
  let (s0, c0) := client_step ClickFind s (new_client u) in
  serve 4 s0 c0.

(** *** What the render derives from the room *)

(** The [isInitiator] prop that the chat interface passes to the call:
    [chatRoom.user1_id === currentUser.id]. *)
Definition isInitiator_of (r : ChatRoom) (u : UserId) : bool := user1_id r =? u.

(** The name on the chat panel:
    [chatRoom.user1_id === currentUser.id ? user2_username : user1_username]. *)
Definition otherUser_of (r : ChatRoom) (u : UserId) : string :=
  if user1_id r =? u then user2_username r else user1_username r.

(** *** More invariants of the store and of the clients *)

Definition same_identity (r r' : ChatRoom) : Prop :=
  room_id r' = room_id r
  /\ user1_id r' = user1_id r /\ user2_id r' = user2_id r
  /\ user1_username r' = user1_username r /\ user2_username r' = user2_username r.

(** The table [rooms'] holds every room of [rooms] at its place, with the
    same identity, and no room has become active again. *)
Definition grown (rooms rooms' : list ChatRoom) : Prop :=
  forall i r, nth_error rooms i = Some r ->
              exists r', nth_error rooms' i = Some r'
                         /\ same_identity r r'
                         /\ (is_active r' = true -> is_active r = true).

(** The room a client is in names the client. *)
Definition in_own_room (c : Client) : Prop :=
  forall r, chatRoom c = Some r ->
            user1_id r = id (currentUser c) \/ user2_id r = id (currentUser c).

(** A client in no room that waits for nothing but timers and the delete of
    a cancelled search. *)
Definition at_rest (p : Pending) : Prop :=
  match p with
  | Timeout _ (RetryFindMatch b) => b = false
  | Timeout _ StartVideoCall | AwaitStopDelete => True
  | _ => False
  end.

Definition resting (c : Client) : Prop :=
  chatRoom c = None /\ Forall at_rest (pending c).

Definition client_resting (i : nat) (sys : System) : Prop :=
  match nth_error (clients sys) i with
  | Some c => resting c
  | None => True
  end.

Definition client_room (i : nat) (sys : System) : option ChatRoom :=
  match nth_error (clients sys) i with
  | Some c => chatRoom c
  | None => None
  end.

(** *** A cancelled search *)




End Matchmaker.

Module VideoCall.

(** *** Values exchanged with the browser and with the channel *)

(** [RTCSessionDescriptionInit] and [RTCIceCandidateInit], opaque here. *)
Definition Sdp := string.
Definition Candidate := string.

Inductive TrackKind := AudioTrack | VideoTrack.

(** The browser calls that are awaited inside a [try]: each resolves or
    rejects. *)
Inductive Call :=
| GetUserMedia
| SetRemoteDescription (d : Sdp)
| AddIceCandidate (c : Candidate)
| CreateOffer
| CreateAnswer
| SetLocalDescription (d : Sdp).

(** The [data] of a broadcast, tagged by its event name: ["offer"],
    ["answer"], ["ice-candidate"]. *)
Inductive Data :=
| Offer (offer : Sdp)
| Answer (answer : Sdp)
| IceCandidate (candidate : Candidate).

(** The broadcast payload: [{ ...data, senderId, roomId }]. *)
Record Message := {
  data : Data;
  payload_senderId : string;
  payload_roomId : string
}.

(** Everything the component does that is visible outside it, in order. *)
Inductive Effect :=
| Called (c : Call) (ok : bool)
| PeerCreated
| TrackAdded (k : TrackKind)
| Subscribed (topic : string)
| Sent (topic : string) (m : Message)
| TrackStopped (k : TrackKind)
| PeerClosed
| ChannelRemoved (topic : string)
| EndCallReported
| ErrorLogged.

(** The browser: whether an awaited call resolves, given everything that
    happened before it, and the description [createOffer] or [createAnswer]
    resolves to. *)
Record Browser := {
  resolves : list Effect -> Call -> bool;
  describes : list Effect -> Sdp
}.

Inductive ConnectionStatus := connecting | connected | disconnected.

(** [RTCPeerConnection.connectionState] *)
Inductive PeerConnectionState :=
| pc_new | pc_connecting | pc_connected | pc_disconnected | pc_failed | pc_closed.

(** The part of the [RTCPeerConnection] object that the component reads. *)
Record PeerConnection := {
  remoteDescription : option Sdp;
  localDescription : option Sdp
}.

(** The component instance: its props, refs and state.  [subscribed] is the
    transport's side of the channel: set by [subscribe], cleared by
    [removeChannel].  [offerTimer] is the pending [setTimeout] of the
    initiator.  [trace] collects the effects. *)
Record Component := {
  roomId : string;
  userId : string;
  isInitiator : bool;
  localStreamRef : option (list TrackKind);
  peerConnectionRef : option PeerConnection;
  signalingChannelRef : option string;
  subscribed : bool;
  iceCandidatesQueue : list Candidate;
  connectionStatus : ConnectionStatus;
  remoteStreamReceived : bool;
  offerTimer : bool;
  trace : list Effect
}.

Definition mount (room user : string) (initiator : bool) : Component :=
  {| roomId := room; userId := user; isInitiator := initiator;
     localStreamRef := None; peerConnectionRef := None;
     signalingChannelRef := None; subscribed := false;
     iceCandidatesQueue := []; connectionStatus := connecting;
     remoteStreamReceived := false; offerTimer := false; trace := [] |}.

Definition set_localStreamRef (x : option (list TrackKind)) (e : Component) : Component :=
  {| roomId := roomId e; userId := userId e; isInitiator := isInitiator e;
     localStreamRef := x; peerConnectionRef := peerConnectionRef e;
     signalingChannelRef := signalingChannelRef e; subscribed := subscribed e;
     iceCandidatesQueue := iceCandidatesQueue e; connectionStatus := connectionStatus e;
     remoteStreamReceived := remoteStreamReceived e; offerTimer := offerTimer e;
     trace := trace e |}.

Definition set_peerConnectionRef (x : option PeerConnection) (e : Component) : Component :=
  {| roomId := roomId e; userId := userId e; isInitiator := isInitiator e;
     localStreamRef := localStreamRef e; peerConnectionRef := x;
     signalingChannelRef := signalingChannelRef e; subscribed := subscribed e;
     iceCandidatesQueue := iceCandidatesQueue e; connectionStatus := connectionStatus e;
     remoteStreamReceived := remoteStreamReceived e; offerTimer := offerTimer e;
     trace := trace e |}.

Definition set_channel (x : option string) (live : bool) (e : Component) : Component :=
  {| roomId := roomId e; userId := userId e; isInitiator := isInitiator e;
     localStreamRef := localStreamRef e; peerConnectionRef := peerConnectionRef e;
     signalingChannelRef := x; subscribed := live;
     iceCandidatesQueue := iceCandidatesQueue e; connectionStatus := connectionStatus e;
     remoteStreamReceived := remoteStreamReceived e; offerTimer := offerTimer e;
     trace := trace e |}.

Definition set_iceCandidatesQueue (x : list Candidate) (e : Component) : Component :=
  {| roomId := roomId e; userId := userId e; isInitiator := isInitiator e;
     localStreamRef := localStreamRef e; peerConnectionRef := peerConnectionRef e;
     signalingChannelRef := signalingChannelRef e; subscribed := subscribed e;
     iceCandidatesQueue := x; connectionStatus := connectionStatus e;
     remoteStreamReceived := remoteStreamReceived e; offerTimer := offerTimer e;
     trace := trace e |}.

Definition setConnectionStatus (x : ConnectionStatus) (e : Component) : Component :=
  {| roomId := roomId e; userId := userId e; isInitiator := isInitiator e;
     localStreamRef := localStreamRef e; peerConnectionRef := peerConnectionRef e;
     signalingChannelRef := signalingChannelRef e; subscribed := subscribed e;
     iceCandidatesQueue := iceCandidatesQueue e; connectionStatus := x;
     remoteStreamReceived := remoteStreamReceived e; offerTimer := offerTimer e;
     trace := trace e |}.

Definition setRemoteStreamReceived (x : bool) (e : Component) : Component :=
  {| roomId := roomId e; userId := userId e; isInitiator := isInitiator e;
     localStreamRef := localStreamRef e; peerConnectionRef := peerConnectionRef e;
     signalingChannelRef := signalingChannelRef e; subscribed := subscribed e;
     iceCandidatesQueue := iceCandidatesQueue e; connectionStatus := connectionStatus e;
     remoteStreamReceived := x; offerTimer := offerTimer e;
     trace := trace e |}.

Definition set_offerTimer (x : bool) (e : Component) : Component :=
  {| roomId := roomId e; userId := userId e; isInitiator := isInitiator e;
     localStreamRef := localStreamRef e; peerConnectionRef := peerConnectionRef e;
     signalingChannelRef := signalingChannelRef e; subscribed := subscribed e;
     iceCandidatesQueue := iceCandidatesQueue e; connectionStatus := connectionStatus e;
     remoteStreamReceived := remoteStreamReceived e; offerTimer := x;
     trace := trace e |}.

Definition emit (x : Effect) (e : Component) : Component :=
  {| roomId := roomId e; userId := userId e; isInitiator := isInitiator e;
     localStreamRef := localStreamRef e; peerConnectionRef := peerConnectionRef e;
     signalingChannelRef := signalingChannelRef e; subscribed := subscribed e;
     iceCandidatesQueue := iceCandidatesQueue e; connectionStatus := connectionStatus e;
     remoteStreamReceived := remoteStreamReceived e; offerTimer := offerTimer e;
     trace := trace e ++ [x] |}.

(** *** Code that may throw

    A computation threads the component and either yields a value or has
    thrown ([None]); what it did before throwing stays done. *)
Definition M (A : Type) : Type := Component -> option A * Component.

Definition ret {A : Type} (a : A) : M A := fun e => (Some a, e).

Definition bind {A B : Type} (m : M A) (k : A -> M B) : M B :=
  fun e => match m e with
           | (Some a, e') => k a e'
           | (None, e') => (None, e')
           end.

Definition modify (f : Component -> Component) : M unit := fun e => (Some tt, f e).

(** [try { body } catch (error) { handler }] *)
Definition try_catch (body : M unit) (handler : Component -> Component)
  : Component -> Component :=
  fun e => match body e with
           | (Some _, e') => e'
           | (None, e') => handler e'
           end.

Declare Scope call_scope.
Delimit Scope call_scope with call.
Notation "x <- m ;; k" := (bind m (fun x => k))
  (at level 61, m at next level, right associativity) : call_scope.
Notation "m ;; k" := (bind m (fun _ => k))
  (at level 61, right associativity) : call_scope.

(** What a resolved call leaves in the peer connection object. *)
Definition settle (c : Call) (pc : PeerConnection) : PeerConnection :=
  match c with
  | SetRemoteDescription d =>
      {| remoteDescription := Some d; localDescription := localDescription pc |}
  | SetLocalDescription d =>
      {| remoteDescription := remoteDescription pc; localDescription := Some d |}
  | _ => pc
  end.

(** The component after a call that resolved, and after one that was
    rejected. *)
Definition resolved (c : Call) (e : Component) : Component :=
  let e1 := emit (Called c true) e in
  match c with
  | SetRemoteDescription _ | SetLocalDescription _ =>
      set_peerConnectionRef (option_map (settle c) (peerConnectionRef e1)) e1
  | _ => e1
  end.

Definition rejected (c : Call) (e : Component) : Component :=
  emit (Called c false) e.

Definition hasRemoteDescription (e : Component) : bool :=
  match peerConnectionRef e with
  | Some pc => match remoteDescription pc with Some _ => true | None => false end
  | None => false
  end.

Section WithBrowser.

Variable browser : Browser.

Open Scope call_scope.

(** [await call]: the browser decides; a rejection is a throw. *)
Definition await (c : Call) : M unit :=
  fun e =>
    if resolves browser (trace e) c
    then (Some tt, resolved c e)
    else (None, rejected c e).

(** [await peerConnection.createOffer(...)], [createAnswer()] *)
Definition create (c : Call) : M Sdp :=
  fun e => let d := describes browser (trace e) in bind (await c) (fun _ => ret d) e.

Definition sendSignalingMessage (d : Data) : M unit :=
  modify (fun e =>
            match signalingChannelRef e with
            | Some topic =>
                emit (Sent topic {| data := d;
                                    payload_senderId := userId e;
                                    payload_roomId := roomId e |}) e
            | None => e
            end).

Definition consoleError (e : Component) : Component := emit ErrorLogged e.

(** The loop [while (queue.length > 0) { candidate = queue.shift(); ... }]:
    the head leaves the queue before it is handed to the browser. *)
Fixpoint drain (q : list Candidate) : M unit :=
  match q with
  | [] => ret tt
  | candidate :: rest =>
      modify (set_iceCandidatesQueue rest) ;;
      await (AddIceCandidate candidate) ;;
      drain rest
  end.

Definition processQueued : M unit := fun e => drain (iceCandidatesQueue e) e.

Definition createOffer : Component -> Component :=
  try_catch
    (offer <- create CreateOffer ;;
     await (SetLocalDescription offer) ;;
     sendSignalingMessage (Offer offer))
    consoleError.

Definition handleOffer (offer : Sdp) : Component -> Component :=
  try_catch
    (await (SetRemoteDescription offer) ;;
     processQueued ;;
     answer <- create CreateAnswer ;;
     await (SetLocalDescription answer) ;;
     sendSignalingMessage (Answer answer))
    consoleError.

Definition handleAnswer (answer : Sdp) : Component -> Component :=
  try_catch
    (await (SetRemoteDescription answer) ;;
     processQueued)
    consoleError.

Definition handleIceCandidate (candidate : Candidate) : Component -> Component :=
  try_catch
    (fun e =>
       if hasRemoteDescription e
       then await (AddIceCandidate candidate) e
       else modify (fun e => set_iceCandidatesQueue (iceCandidatesQueue e ++ [candidate]) e) e)
    consoleError.

Definition topic_of (room : string) : string := "webrtc-" ++ room.

Definition setupSignalingChannel : M unit :=
  modify (fun e =>
            let topic := topic_of (roomId e) in
            set_channel (Some topic) true (emit (Subscribed topic) e)).

(** The three [.on("broadcast", ...)] handlers. *)
Definition on_broadcast (m : Message) (e : Component) : Component :=
  if negb (payload_senderId m =? userId e)
  then match data m with
       | Offer offer => handleOffer offer e
       | Answer answer => handleAnswer answer e
       | IceCandidate candidate => handleIceCandidate candidate e
       end
  else e.

(** [getUserMedia({ video, audio: true })] resolves to a stream of two tracks. *)
Definition getUserMedia : M (list TrackKind) :=
  await GetUserMedia ;; ret [AudioTrack; VideoTrack].

Definition initializeCall : Component -> Component :=
  try_catch
    (stream <- getUserMedia ;;
     modify (set_localStreamRef (Some stream)) ;;
     modify (fun e => set_peerConnectionRef
                        (Some {| remoteDescription := None; localDescription := None |})
                        (emit PeerCreated e)) ;;
     modify (fun e => fold_left (fun acc k => emit (TrackAdded k) acc) stream e) ;;
     setupSignalingChannel ;;
     modify (fun e => if isInitiator e then set_offerTimer true e else e))
    (fun e => setConnectionStatus disconnected (consoleError e)).

Definition cleanup (e : Component) : Component :=
  let e1 := match localStreamRef e with
            | Some tracks => fold_left (fun acc k => emit (TrackStopped k) acc) tracks e
            | None => e
            end in
  let e2 := match peerConnectionRef e1 with
            | Some _ => emit PeerClosed e1
            | None => e1
            end in
  match signalingChannelRef e2 with
  | Some topic => set_channel (Some topic) false (emit (ChannelRemoved topic) e2)
  | None => e2
  end.

(** The cleanup function that the mount effect returns; React runs it when
    the component is disposed of. *)
Definition unmount (e : Component) : Component := cleanup e.

(** The [onEndCall] prop is [endVideoCall] of the chat interface: it clears
    [isInVideoCall], the chat interface stops rendering this component and
    React disposes of it. *)
Definition onEndCall (e : Component) : Component := unmount (emit EndCallReported e).

Definition endCall (e : Component) : Component := onEndCall (cleanup e).

(** What can happen to a mounted component. *)
Inductive Event :=
| Broadcast (topic : string) (m : Message)
| OfferTimerFires
| OnTrack (hasStream : bool)
| OnIceCandidate (candidate : option Candidate)
| OnConnectionStateChange (state : PeerConnectionState)
| ClickEndCall
| Disposed.

(** One event with its handler run to the end: every promise the handler
    awaits settles, as the browser decides, before anything else happens.
    The handlers that stop at their [await]s are those of [tick] below. *)
Definition step (ev : Event) (e : Component) : Component :=
  match ev with
  | Broadcast topic m =>
      match signalingChannelRef e with
      | Some mine => if subscribed e && (topic =? mine) then on_broadcast m e else e
      | None => e
      end
  | OfferTimerFires =>
      if offerTimer e then createOffer (set_offerTimer false e) else e
  | OnTrack hasStream =>
      match peerConnectionRef e with
      | Some _ => if hasStream
                  then setConnectionStatus connected (setRemoteStreamReceived true e)
                  else e
      | None => e
      end
  | OnIceCandidate candidate =>
      match peerConnectionRef e, candidate with
      | Some _, Some c => snd (sendSignalingMessage (IceCandidate c) e)
      | _, _ => e
      end
  | OnConnectionStateChange state =>
      match peerConnectionRef e with
      | Some _ =>
          match state with
          | pc_connected => setConnectionStatus connected e
          | pc_disconnected | pc_failed => setConnectionStatus disconnected e
          | _ => e
          end
      | None => e
      end
  | ClickEndCall => endCall e
  | Disposed => unmount e
  end.

(** A run in which no handler is interrupted. *)
Definition run (evs : list Event) (e : Component) : Component :=
  fold_left (fun acc ev => step ev acc) evs e.

End WithBrowser.

(** A browser that resolves every call. *)
Definition willing : Browser :=
  {| resolves := fun _ _ => true; describes := fun _ => "sdp" |}.

(** A browser whose user denies the camera. *)
Definition denying : Browser :=
  {| resolves := fun _ c => match c with GetUserMedia => false | _ => true end;
     describes := fun _ => "sdp" |}.

(** The candidates handed to [addIceCandidate], in call order. *)
Fixpoint applied (t : list Effect) : list Candidate :=
  match t with
  | [] => []
  | Called (AddIceCandidate c) _ :: t' => c :: applied t'
  | _ :: t' => applied t'
  end.

(** Every awaited call resolves. *)
Definition obliging (b : Browser) : Prop :=
  forall t c, resolves b t c = true.

(** What the handlers leave alone: the props, the stream, the channel and
    the existence of the peer connection. *)
Definition wiring (e : Component) :=
  (roomId e, userId e, isInitiator e, localStreamRef e,
   signalingChannelRef e, subscribed e,
   match peerConnectionRef e with Some _ => true | None => false end).

(** A computation keeps an invariant whether it returns or throws. *)
Definition keeps (I : Component -> Prop) {A : Type} (m : M A) : Prop :=
  forall e, I e -> I (snd (m e)).

Definition count (p : Effect -> bool) (t : list Effect) : nat := length (filter p t).

Definition is_sent (x : Effect) : bool :=
  match x with Sent _ _ => true | _ => false end.

Definition is_answer_sent (x : Effect) : bool :=
  match x with Sent _ {| data := Answer _ |} => true | _ => false end.

Definition is_track_stop (k : TrackKind) (x : Effect) : bool :=
  match x, k with
  | TrackStopped AudioTrack, AudioTrack => true
  | TrackStopped VideoTrack, VideoTrack => true
  | _, _ => false
  end.

Definition is_peer_close (x : Effect) : bool :=
  match x with PeerClosed => true | _ => false end.

Definition is_channel_remove (x : Effect) : bool :=
  match x with ChannelRemoved _ => true | _ => false end.

Definition is_capture (x : Effect) : bool :=
  match x with Called GetUserMedia _ => true | _ => false end.

Definition is_set_remote (d : Sdp) (x : Effect) : bool :=
  match x with Called (SetRemoteDescription d') _ => d' =? d | _ => false end.

Definition is_add (x : Effect) : bool :=
  match x with Called (AddIceCandidate _) _ => true | _ => false end.

(** The three refs hold what [initializeCall] put there. *)
Definition wired (room : string) (e : Component) : Prop :=
  localStreamRef e = Some [AudioTrack; VideoTrack]
  /\ peerConnectionRef e <> None
  /\ signalingChannelRef e = Some (topic_of room).

(** The component after a failed capture: nothing was created, nothing was
    sent, the status is [disconnected]. *)
Definition dead (e : Component) : Prop :=
  localStreamRef e = None
  /\ peerConnectionRef e = None
  /\ signalingChannelRef e = None
  /\ offerTimer e = false
  /\ connectionStatus e = disconnected
  /\ count is_sent (trace e) = 0
  /\ count is_capture (trace e) = 1.

(** The calls that hand a queue to a browser that takes every candidate. *)
Definition queued (q : list Candidate) : list Effect :=
  map (fun c => Called (AddIceCandidate c) true) q.

(** How often each resource was released: the audio track, the video track,
    the peer connection, the channel. *)
Definition releases (t : list Effect) : nat * nat * nat * nat :=
  (count (is_track_stop AudioTrack) t, count (is_track_stop VideoTrack) t,
   count is_peer_close t, count is_channel_remove t).

Definition more (n : nat) (r : nat * nat * nat * nat) : nat * nat * nat * nat :=
  match r with
  | (a, v, p, c) => (n + a, n + v, n + p, n + c)
  end.

(** The trace grows from [t0]. *)
Definition extends (t0 : list Effect) (e : Component) : Prop :=
  exists rest, trace e = t0 ++ rest.

Definition is_teardown (ev : Event) : bool :=
  match ev with
  | ClickEndCall | Disposed => true
  | _ => false
  end.

Definition is_offer_sent (x : Effect) : bool :=
  match x with Sent _ {| data := Offer _ |} => true | _ => false end.

(** What is published goes to the topic of [room] and carries [user] and
    [room]. *)
Definition stamped (room user : string) (x : Effect) : Prop :=
  match x with
  | Sent t m => t = topic_of room /\ payload_senderId m = user /\ payload_roomId m = room
  | _ => True
  end.

(** The component of [user] in [room]: its props stand, its channel is the
    one of the room, everything published is stamped, and with the pending
    timer counted no more than one offer goes out, none from a responder. *)
Definition orderly (room user : string) (e : Component) : Prop :=
  userId e = user
  /\ roomId e = room
  /\ (signalingChannelRef e = None \/ signalingChannelRef e = Some (topic_of room))
  /\ Forall (stamped room user) (trace e)
  /\ count is_offer_sent (trace e) + (if offerTimer e then 1 else 0)
     <= (if isInitiator e then 1 else 0).

(** *** Handlers that stop at an [await]

    [step] lets a handler run to its end.  In the code a handler stops at
    every [await] of a browser promise and goes on when the promise has
    settled; whatever happens in between finds the component as the
    handler left it.  A [Session] keeps the handlers that are stopped, and
    a [Tick] is either an event or the settling of one promise. *)

(** Where a handler is stopped: the [await] it waits at. *)
Inductive Suspended :=
| InCapture
| InCreateOffer
| InOfferLocal (offer : Sdp)
| InOfferRemote (offer : Sdp)
| InOfferDrain (candidate : Candidate)
| InCreateAnswer
| InAnswerLocal (answer : Sdp)
| InAnswerRemote (answer : Sdp)
| InAnswerDrain (candidate : Candidate)
| InCandidate (candidate : Candidate).

(** The call whose promise the handler waits for: [getUserMedia] in
    [initializeCall]; [createOffer] and [setLocalDescription] in
    [createOffer]; [setRemoteDescription], [addIceCandidate] of the loop,
    [createAnswer] and [setLocalDescription] in [handleOffer];
    [setRemoteDescription] and [addIceCandidate] of the loop in
    [handleAnswer]; [addIceCandidate] in [handleIceCandidate]. *)
Definition awaited (p : Suspended) : Call :=
  match p with
  | InCapture => GetUserMedia
  | InCreateOffer => CreateOffer
  | InOfferLocal offer => SetLocalDescription offer
  | InOfferRemote offer => SetRemoteDescription offer
  | InOfferDrain candidate => AddIceCandidate candidate
  | InCreateAnswer => CreateAnswer
  | InAnswerLocal answer => SetLocalDescription answer
  | InAnswerRemote answer => SetRemoteDescription answer
  | InAnswerDrain candidate => AddIceCandidate candidate
  | InCandidate candidate => AddIceCandidate candidate
  end.

(** The component, the handlers that are stopped, the calls made to the
    browser in the order in which they were made, and the candidates that
    [handleIceCandidate] was called with, in that order. *)
Record Session := {
  component : Component;
  suspended : list Suspended;
  calls : list Call;
  arrivals : list Candidate
}.

Definition within (f : Component -> Component) (s : Session) : Session :=
  {| component := f (component s); suspended := suspended s;
     calls := calls s; arrivals := arrivals s |}.

(** [await call]: the call is made and the handler stops. *)
Definition call (p : Suspended) (s : Session) : Session :=
  {| component := component s; suspended := suspended s ++ [p];
     calls := calls s ++ [awaited p]; arrivals := arrivals s |}.

Definition arrive (c : Candidate) (s : Session) : Session :=
  {| component := component s; suspended := suspended s;
     calls := calls s; arrivals := arrivals s ++ [c] |}.

Definition unsuspend (k : nat) (s : Session) : Session :=
  {| component := component s; suspended := remove_nth k (suspended s);
     calls := calls s; arrivals := arrivals s |}.

(** The candidates handed to [addIceCandidate], in the order of the calls. *)
Fixpoint handed_of (cs : list Call) : list Candidate :=
  match cs with
  | [] => []
  | AddIceCandidate c :: cs' => c :: handed_of cs'
  | _ :: cs' => handed_of cs'
  end.

Definition handed (s : Session) : list Candidate := handed_of (calls s).

Definition queue (s : Session) : list Candidate := iceCandidatesQueue (component s).

(** [initializeCall] after [getUserMedia] has resolved. *)
Definition wire_up (e : Component) : Component :=
  let e1 := set_localStreamRef (Some [AudioTrack; VideoTrack]) e in
  let e2 := set_peerConnectionRef
              (Some {| remoteDescription := None; localDescription := None |})
              (emit PeerCreated e1) in
  let e3 := emit (TrackAdded VideoTrack) (emit (TrackAdded AudioTrack) e2) in
  let e4 := snd (setupSignalingChannel e3) in
  if isInitiator e4 then set_offerTimer true e4 else e4.

(** The loop [while (queue.length > 0) { candidate = queue.shift(); await
    addIceCandidate(candidate) }] from its test to its next [await]: the
    test reads the queue as it is then; [stop] is where the handler stops,
    [after] what follows the loop. *)
Definition drain_next (stop : Candidate -> Suspended) (after : Session -> Session)
    (s : Session) : Session :=
  match queue s with
  | candidate :: rest => call (stop candidate) (within (set_iceCandidatesQueue rest) s)
  | [] => after s
  end.

(** The handlers up to their first [await]. *)
Definition begin_handleOffer (offer : Sdp) (s : Session) : Session :=
  call (InOfferRemote offer) s.

Definition begin_handleAnswer (answer : Sdp) (s : Session) : Session :=
  call (InAnswerRemote answer) s.

Definition begin_handleIceCandidate (candidate : Candidate) (s : Session) : Session :=
  if hasRemoteDescription (component s)
  then call (InCandidate candidate) (arrive candidate s)
  else within (fun e => set_iceCandidatesQueue (iceCandidatesQueue e ++ [candidate]) e)
              (arrive candidate s).

Definition begin_createOffer (s : Session) : Session := call InCreateOffer s.

(** A handler goes on after its promise has settled: resolved ([ok], with
    the description [d] where the call creates one) or rejected, which
    lands in the handler's [catch]. *)
Definition continue (p : Suspended) (ok : bool) (d : Sdp) (s : Session) : Session :=
  if ok
  then
    let s1 := within (resolved (awaited p)) s in
    match p with
    | InCapture => within wire_up s1
    | InCreateOffer => call (InOfferLocal d) s1
    | InOfferLocal offer => within (fun e => snd (sendSignalingMessage (Offer offer) e)) s1
    | InOfferRemote _ | InOfferDrain _ => drain_next InOfferDrain (call InCreateAnswer) s1
    | InCreateAnswer => call (InAnswerLocal d) s1
    | InAnswerLocal answer => within (fun e => snd (sendSignalingMessage (Answer answer) e)) s1
    | InAnswerRemote _ | InAnswerDrain _ => drain_next InAnswerDrain (fun s => s) s1
    | InCandidate _ => s1
    end
  else
    let s1 := within (rejected (awaited p)) s in
    match p with
    | InCapture => within (fun e => setConnectionStatus disconnected (consoleError e)) s1
    | _ => within consoleError s1
    end.

(** The events that call no promise are handled as in [step]. *)
Definition on_event (ev : Event) (e : Component) : Component :=
  match ev with
  | Broadcast _ _ | OfferTimerFires => e
  | OnTrack hasStream =>
      match peerConnectionRef e with
      | Some _ => if hasStream
                  then setConnectionStatus connected (setRemoteStreamReceived true e)
                  else e
      | None => e
      end
  | OnIceCandidate candidate =>
      match peerConnectionRef e, candidate with
      | Some _, Some c => snd (sendSignalingMessage (IceCandidate c) e)
      | _, _ => e
      end
  | OnConnectionStateChange state =>
      match peerConnectionRef e with
      | Some _ =>
          match state with
          | pc_connected => setConnectionStatus connected e
          | pc_disconnected | pc_failed => setConnectionStatus disconnected e
          | _ => e
          end
      | None => e
      end
  | ClickEndCall => endCall e
  | Disposed => unmount e
  end.

(** Whether a broadcast reaches a handler: the channel is live, the topic
    is its own, and the sender is another. *)
Definition heard (topic : string) (m : Message) (e : Component) : bool :=
  match signalingChannelRef e with
  | Some mine => subscribed e && (topic =? mine) && negb (payload_senderId m =? userId e)
  | None => false
  end.

Inductive Tick :=
| Happens (ev : Event)
| Settles (k : nat) (ok : bool) (d : Sdp).

Definition tick (t : Tick) (s : Session) : Session :=
  match t with
  | Settles k ok d =>
      match nth_error (suspended s) k with
      | Some p => continue p ok d (unsuspend k s)
      | None => s
      end
  | Happens (Broadcast topic m) =>
      if heard topic m (component s)
      then match data m with
           | Offer offer => begin_handleOffer offer s
           | Answer answer => begin_handleAnswer answer s
           | IceCandidate candidate => begin_handleIceCandidate candidate s
           end
      else s
  | Happens OfferTimerFires =>
      if offerTimer (component s)
      then begin_createOffer (within (set_offerTimer false) s)
      else s
  | Happens ev => within (on_event ev) s
  end.

Definition play (ts : list Tick) (s : Session) : Session :=
  fold_left (fun acc t => tick t acc) ts s.

(** The component is mounted and its effect has called [initializeCall],
    which waits for the capture. *)
Definition start (room user : string) (initiator : bool) : Session :=
  call InCapture {| component := mount room user initiator;
                    suspended := []; calls := []; arrivals := [] |}.

(** Every promise of a schedule resolves. *)
Definition resolves_all (t : Tick) : bool :=
  match t with
  | Settles _ ok _ => ok
  | Happens _ => true
  end.

(** A handler is in its loop over the queue. *)
Definition in_drain (p : Suspended) : bool :=
  match p with
  | InOfferDrain _ | InAnswerDrain _ => true
  | _ => false
  end.

(** What the handlers and the events leave of the component, apart from
    the remote description: whether a peer connection exists, the channel,
    the queue; a channel that is not live and a timer that is not set stay
    so. *)
Definition frame (e e' : Component) : Prop :=
  (peerConnectionRef e' = None <-> peerConnectionRef e = None)
  /\ signalingChannelRef e' = signalingChannelRef e
  /\ (subscribed e' = true -> subscribed e = true)
  /\ (offerTimer e' = true -> offerTimer e = true)
  /\ iceCandidatesQueue e' = iceCandidatesQueue e.

Definition kept (e e' : Component) : Prop :=
  frame e e' /\ hasRemoteDescription e' = hasRemoteDescription e.

(** Nothing of the call exists: no peer connection, no channel, no timer,
    no candidate. *)
Definition bare (s : Session) : Prop :=
  peerConnectionRef (component s) = None
  /\ signalingChannelRef (component s) = None
  /\ subscribed (component s) = false
  /\ offerTimer (component s) = false
  /\ queue s = []
  /\ handed s = []
  /\ arrivals s = [].

(** The three phases of a session: the capture is pending; the capture has
    failed; the capture has resolved and the component is wired up.  In the
    last one, a candidate has been handed over only if a remote description
    is set, a handler is in its loop only if one is set, and the candidates
    handed over and those in the queue are together the ones that came. *)
Definition capturing (s : Session) : Prop :=
  suspended s = [InCapture] /\ bare s.

Definition failed (s : Session) : Prop :=
  suspended s = [] /\ bare s.

Definition under_way (s : Session) : Prop :=
  ~ In InCapture (suspended s)
  /\ peerConnectionRef (component s) <> None
  /\ signalingChannelRef (component s) <> None
  /\ (handed s <> [] -> hasRemoteDescription (component s) = true)
  /\ (existsb in_drain (suspended s) = true -> hasRemoteDescription (component s) = true)
  /\ Permutation (handed s ++ queue s) (arrivals s).

Definition sound (s : Session) : Prop :=
  capturing s \/ failed s \/ under_way s.

(** As long as a remote description is set and the queue is not empty, a
    handler is in its loop. *)
Definition draining (s : Session) : Prop :=
  hasRemoteDescription (component s) = true ->
  queue s <> [] ->
  existsb in_drain (suspended s) = true.

(** The capture has settled and the channel is not live. *)
Definition deaf (s : Session) : Prop :=
  ~ In InCapture (suspended s) /\ subscribed (component s) = false.

(** A session with no handler stopped whose component is [e]. *)
Definition settled (e : Component) (s : Session) : Prop :=
  component s = e /\ suspended s = [].

(** *** The mute buttons

    [toggleVideo] and [toggleAudio] work on the tracks of the local stream
    and on two pieces of state.  A track is its kind and its [enabled]
    flag. *)
Record Controls := {
  stream : option (list (TrackKind * bool));
  isVideoEnabled : bool;
  isAudioEnabled : bool
}.

Definition same_kind (k k' : TrackKind) : bool :=
  match k, k' with
  | AudioTrack, AudioTrack | VideoTrack, VideoTrack => true
  | _, _ => false
  end.

(** [getVideoTracks()[0]], [getAudioTracks()[0]]: the flag of the first
    track of the kind. *)
Fixpoint first_track (k : TrackKind) (tracks : list (TrackKind * bool)) : option bool :=
  match tracks with
  | [] => None
  | (k', on) :: rest => if same_kind k k' then Some on else first_track k rest
  end.

(** [track.enabled = !track.enabled] on that track. *)
Fixpoint flip_first (k : TrackKind) (tracks : list (TrackKind * bool))
  : list (TrackKind * bool) :=
  match tracks with
  | [] => []
  | (k', on) :: rest =>
      if same_kind k k' then (k', negb on) :: rest else (k', on) :: flip_first k rest
  end.

Definition toggleVideo (c : Controls) : Controls :=
  match stream c with
  | Some tracks =>
      match first_track VideoTrack tracks with
      | Some on => {| stream := Some (flip_first VideoTrack tracks);
                      isVideoEnabled := negb on;
                      isAudioEnabled := isAudioEnabled c |}
      | None => c
      end
  | None => c
  end.

Definition toggleAudio (c : Controls) : Controls :=
  match stream c with
  | Some tracks =>
      match first_track AudioTrack tracks with
      | Some on => {| stream := Some (flip_first AudioTrack tracks);
                      isVideoEnabled := isVideoEnabled c;
                      isAudioEnabled := negb on |}
      | None => c
      end
  | None => c
  end.

Inductive Button := VideoButton | AudioButton.

Definition press (c : Controls) (b : Button) : Controls :=
  match b with
  | VideoButton => toggleVideo c
  | AudioButton => toggleAudio c
  end.

(** The state says what the first track of each kind says. *)
Definition in_tune (c : Controls) : Prop :=
  match stream c with
  | Some tracks =>
      first_track VideoTrack tracks = Some (isVideoEnabled c)
      /\ first_track AudioTrack tracks = Some (isAudioEnabled c)
  | None => True
  end.

End VideoCall.

Module Login.

(** A row of [users]. *)
Record UserRow := { id : string; username : string; is_online : bool }.

(** The error object of a request. *)
Record DbError := { code : string; message : string }.

(** The page's state. *)
Record Page := {
  currentUser : option UserRow;
  loading : bool;
  error : option string
}.

Definition not_found : DbError :=
  {| code := "PGRST116"; message := "JSON object requested, multiple (or no) rows returned" |}.

Definition unique_violation : DbError :=
  {| code := "23505"; message := "duplicate key value violates unique constraint" |}.

(** A request answers [{ data, error }]; [fault] is an error that reaches
    the client instead of the table's answer. *)
Definition answered {A : Type} (fault : option DbError) (normal : option A * option DbError)
  : option A * option DbError :=
  match fault with
  | Some err => (None, Some err)
  | None => normal
  end.

(** [select("*").eq("username", username).single()] *)
Definition find_by_username (name : string) (users : list UserRow)
  : option UserRow * option DbError :=
  match single (filter (fun u => username u =? name) users) with
  | Some u => (Some u, None)
  | None => (None, Some not_found)
  end.

Definition go_online (u : UserRow) : UserRow :=
  {| id := id u; username := username u; is_online := true |}.

(** [update({ is_online: true }).eq("id", i).select().single()] *)
Definition update_online (i : string) (users : list UserRow)
  : list UserRow * (option UserRow * option DbError) :=
  let users' := map (fun u => if id u =? i then go_online u else u) users in
  (users', match single (filter (fun u => id u =? i) users') with
           | Some u => (Some u, None)
           | None => (None, Some not_found)
           end).

(** Modelled from the spec: the declaration of the [users] table is not part
    of the sources; a display name is unique in the backing store, and an
    insert of a name that is present is refused with code 23505, the code
    [handleLogin] tests for.  [newId] is the key the table gives the row.
    [insert({ username, is_online: true }).select().single()] *)
Definition insert_user (newId name : string) (users : list UserRow)
  : list UserRow * (option UserRow * option DbError) :=
  if existsb (fun u => username u =? name) users
  then (users, (None, Some unique_violation))
  else let u := {| id := newId; username := name; is_online := true |} in
       (users ++ [u], (Some u, None)).

(** The [catch] and [finally] blocks. *)
Definition rejected (err : DbError) : Page :=
  {| currentUser := None;
     loading := false;
     error := Some (if code err =? "23505"
                    then "This username is already taken. Please choose another one."
                    else String.append "Login failed: "
                           (if message err =? "" then "Unknown error" else message err)) |}.

(** [if (error) throw error; user = data; setCurrentUser(user)] and the
    [finally] block. *)
Definition finish (result : option UserRow * option DbError) : Page :=
  match result with
  | (_, Some err) => rejected err
  | (user, None) => {| currentUser := user; loading := false; error := None |}
  end.

(** The page after a login that went through. *)
Definition accepted (u : UserRow) : Page :=
  {| currentUser := Some u; loading := false; error := None |}.

(** A write request: a fault leaves the table as it was. *)
Definition written (fault : option DbError)
    (users : list UserRow) (normal : list UserRow * (option UserRow * option DbError))
  : list UserRow * (option UserRow * option DbError) :=
  match fault with
  | Some err => (users, (None, Some err))
  | None => normal
  end.

(** [handleLogin] from the login screen ([currentUser] is null there).  The
    function awaits two requests: [findFault] and [users] are what the first
    one meets, [writeFault] and [users'] what the second one meets: the
    table as it is by then.  The result is the table after the second
    request and the page. *)
Definition handleLogin (name : string)
    (findFault : option DbError) (users : list UserRow)
    (writeFault : option DbError) (newId : string) (users' : list UserRow)
  : list UserRow * Page :=
  let (existingUser, findError) := answered findFault (find_by_username name users) in
  let thrown := match findError with
                | Some err => if negb (code err =? "PGRST116") then Some err else None
                | None => None
                end in
  match thrown with
  | Some err => (users', rejected err)
  | None =>
      match existingUser with
      | Some existing =>
          let (after, result) :=
            written writeFault users' (update_online (id existing) users') in
          (after, finish result)
      | None =>
          let (after, result) :=
            written writeFault users' (insert_user newId name users') in
          (after, finish result)
      end
  end.






(** *** Presence *)

Definition go_offline (u : UserRow) : UserRow :=
  {| id := id u; username := username u; is_online := false |}.

(** The effect of the home page on load:
    [update({ is_online: false }).eq("is_online", true)] *)
Definition cleanupOfflineUsers (users : list UserRow) : list UserRow :=
  map (fun u => if is_online u then go_offline u else u) users.

(** [handleBeforeUnload], the listener of [beforeunload]:
    [if (currentUser) await update({ is_online: false }).eq("id", currentUser.id)] *)
Definition handleBeforeUnload (p : Page) (users : list UserRow) : list UserRow :=
  match currentUser p with
  | Some me => map (fun u => if id u =? id me then go_offline u else u) users
  | None => users
  end.

(** The cleanup of the same effect removes the listener and, when
    [currentUser] is set, builds the same update but neither awaits it nor
    calls [then] on it.  A request of the table client is sent when it is
    awaited; this one never is, so the table stays as it is. *)
Definition effect_cleanup (p : Page) (users : list UserRow) : list UserRow := users.

(** [getOnlineCount] of the chat interface:
    [select("*", { count: "exact", head: true }).eq("is_online", true)] and
    [setOnlineCount(count || 0)]; on a fault [count] is null. *)
Definition getOnlineCount (fault : option DbError) (users : list UserRow) : nat :=
  match fault with
  | Some _ => 0
  | None => length (filter is_online users)
  end.

Definition names_unique (users : list UserRow) : Prop :=
  NoDup (map username users).

End Login.

Module LoginForm.

(** The form of the login screen.  [trim] is [String.prototype.trim]. *)
Section WithTrim.

Variable trim : string -> string.

(** A string is truthy when it is not empty. *)
Definition truthy (x : string) : bool := negb (x =? "").

(** [handleSubmit]: the name handed to [onLogin], if any. *)
Definition handleSubmit (username : string) (loading : bool) : option string :=
  if truthy (trim username) && negb loading
  then Some (trim username)
  else None.

(** The [disabled] flag of the submit button. *)
Definition submit_disabled (username : string) (loading : bool) : bool :=
  negb (truthy (trim username)) || loading.

End WithTrim.

End LoginForm.

Module Messages.

(** A row of [messages].  [id] and [created_at] are given by the table. *)
Record Message := {
  id : nat;
  content : string;
  sender_id : string;
  sender_username : string;
  created_at : nat;
  room_id : nat
}.





Section WithTrim.

Variable trim : string -> string.


End WithTrim.

End Messages.

(** ** Scenarios *)

Module Scenarios.

Import Matchmaker.

Definition alice : User := {| id := "a"; username := "alice" |}.
Definition bob : User := {| id := "b"; username := "bob" |}.
Definition carol : User := {| id := "c"; username := "carol" |}.

(** Alice and Bob press the button at the same time and their requests
    alternate: upserts, searches, inserts, deletes. *)
Definition racing_pair : list (nat * Action) :=
  [(0, ClickFind); (1, ClickFind);
   (0, Run 0 true); (1, Run 0 true);
   (0, Run 0 true); (1, Run 0 true);
   (0, Run 0 true); (1, Run 0 true);
   (0, Run 0 true); (1, Run 0 true)]%nat.

(** The same race, cut after Alice's delete and before Bob's insert. *)
Definition before_late_insert : list (nat * Action) :=
  [(0, ClickFind); (1, ClickFind);
   (0, Run 0 true); (1, Run 0 true);
   (0, Run 0 true); (1, Run 0 true);
   (0, Run 0 true); (0, Run 0 true)]%nat.

(** Alice searches alone, Bob pairs with her, Alice cancels; the retry timer
    of Alice's search fires afterwards. *)
Definition search_then_cancel : list (nat * Action) :=
  [(0, ClickFind); (0, Run 0 true); (0, Run 0 true); (0, Run 0 true)]%nat.


(** One client alone on the store, and its [findMatch] up to the request
    that inserts the room: the click, the upsert, the search. *)
Definition solo (u : User) (s : Store) : System :=
  {| store := s; clients := [new_client u] |}.

Definition up_to_insert : list (nat * Action) :=
  [(0, ClickFind); (0, Run 0 true); (0, Run 0 true)]%nat.

Definition only_alice_waiting : Store :=
  {| waiting_queue := [{| user_id := "a"; w_username := "alice" |}]; chat_rooms := [] |}.

(** Bob answers in room r1; Alice is the initiator. *)
Definition responder : VideoCall.Component :=
  VideoCall.initializeCall VideoCall.willing (VideoCall.mount "r1" "b" false).

Definition initiator : VideoCall.Component :=
  VideoCall.initializeCall VideoCall.willing (VideoCall.mount "r1" "a" true).

Definition from_alice (d : VideoCall.Data) : VideoCall.Message :=
  {| VideoCall.data := d;
     VideoCall.payload_senderId := "a";
     VideoCall.payload_roomId := "r1" |}.

Definition from_bob (d : VideoCall.Data) : VideoCall.Message :=
  {| VideoCall.data := d;
     VideoCall.payload_senderId := "b";
     VideoCall.payload_roomId := "r1" |}.

(** A message of another room's sender that reaches the channel of r1. *)
Definition stale : VideoCall.Message :=
  {| VideoCall.data := VideoCall.IceCandidate "c1";
     VideoCall.payload_senderId := "z";
     VideoCall.payload_roomId := "r2" |}.

(** Alice has sent her offer and two candidates of Bob have arrived before
    his answer. *)
Definition awaiting_answer : VideoCall.Component :=
  VideoCall.run VideoCall.willing
    [VideoCall.OfferTimerFires;
     VideoCall.Broadcast "webrtc-r1" (from_bob (VideoCall.IceCandidate "c1"));
     VideoCall.Broadcast "webrtc-r1" (from_bob (VideoCall.IceCandidate "c2"))]
    initiator.

(** Alice, the initiator, has captured, and her offer has gone out.  Two
    candidates of Bob arrive and are queued; his answer arrives and is set;
    the loop hands "c1" over and waits.  Then "c3" arrives: it is handed
    over at once, before "c2", which the loop takes when "c1" has
    resolved.  Every promise resolves, in the order of the calls. *)
Definition late_candidate : list VideoCall.Tick :=
  [VideoCall.Settles 0 true "";
   VideoCall.Happens VideoCall.OfferTimerFires;
   VideoCall.Settles 0 true "offer";
   VideoCall.Settles 0 true "";
   VideoCall.Happens (VideoCall.Broadcast "webrtc-r1" (from_bob (VideoCall.IceCandidate "c1")));
   VideoCall.Happens (VideoCall.Broadcast "webrtc-r1" (from_bob (VideoCall.IceCandidate "c2")));
   VideoCall.Happens (VideoCall.Broadcast "webrtc-r1" (from_bob (VideoCall.Answer "answer")));
   VideoCall.Settles 0 true "";
   VideoCall.Happens (VideoCall.Broadcast "webrtc-r1" (from_bob (VideoCall.IceCandidate "c3")));
   VideoCall.Settles 0 true "";
   VideoCall.Settles 0 true "";
   VideoCall.Settles 0 true ""].

(** Bob, the responder, has captured.  Three candidates of Alice arrive and
    are queued; her offer arrives and is set; the loop hands "c1" over.
    The browser rejects "c1": [handleOffer] lands in its [catch] and the
    loop is over, with "c2" and "c3" in the queue.  A fourth candidate
    arrives and is handed over at once. *)
Definition rejected_candidate : list VideoCall.Tick :=
  [VideoCall.Settles 0 true "";
   VideoCall.Happens (VideoCall.Broadcast "webrtc-r1" (from_alice (VideoCall.IceCandidate "c1")));
   VideoCall.Happens (VideoCall.Broadcast "webrtc-r1" (from_alice (VideoCall.IceCandidate "c2")));
   VideoCall.Happens (VideoCall.Broadcast "webrtc-r1" (from_alice (VideoCall.IceCandidate "c3")));
   VideoCall.Happens (VideoCall.Broadcast "webrtc-r1" (from_alice (VideoCall.Offer "offer")));
   VideoCall.Settles 0 true "";
   VideoCall.Settles 0 false "";
   VideoCall.Happens (VideoCall.Broadcast "webrtc-r1" (from_alice (VideoCall.IceCandidate "c4")));
   VideoCall.Settles 0 true ""].

(** Alice's client at the end of the race, in the room she created. *)
Definition room_of_alice : ChatRoom :=
  {| room_id := 0; user1_id := "a"; user2_id := "b";
     user1_username := "alice"; user2_username := "bob"; is_active := true |}.

Definition alice_paired : Client :=
  {| currentUser := alice; chatRoom := Some room_of_alice;
     isSearching := false; isInVideoCall := false;
     pending := [Timeout 2000 StartVideoCall];
     console := [LogAddingToQueue] |}.

Definition only_bob_waiting : Store :=
  {| waiting_queue := [{| user_id := "b"; w_username := "bob" |}]; chat_rooms := [] |}.

(** Two active rooms name Alice as their second participant. *)
Definition twice_named : Store :=
  {| waiting_queue := [];
     chat_rooms := [{| room_id := 0; user1_id := "b"; user2_id := "a";
                       user1_username := "bob"; user2_username := "alice";
                       is_active := true |};
                    {| room_id := 1; user1_id := "c"; user2_id := "a";
                       user1_username := "carol"; user2_username := "alice";
                       is_active := true |}] |}.

(** Bob presses the button and his four requests are served; then the
    retry timer of the first client fires. *)
Definition bob_pairs_with_alice : list (nat * Action) :=
  [(1, ClickFind); (1, Run 0 true); (1, Run 0 true); (1, Run 0 true); (1, Run 0 true);
   (0, Run 0 true)]%nat.

(** Alice presses the button; her upsert, her search and her lookup of a
    room are served.  Nobody waits and no room names her: the search
    misses. *)
Definition search_that_misses : list (nat * Action) :=
  [(0, ClickFind); (0, Run 0 true); (0, Run 0 true); (0, Run 0 true)]%nat.

(** Alice's client after that search, and after its retry timer has fired. *)
Definition alice_missed : Client :=
  {| currentUser := alice; chatRoom := None; isSearching := true;
     isInVideoCall := false; pending := [Timeout 2000 (RetryFindMatch false)];
     console := [LogAddingToQueue; LogNoMatchWaiting] |}.

Definition alice_stuck : Client :=
  {| currentUser := alice; chatRoom := None; isSearching := true;
     isInVideoCall := false; pending := [];
     console := [LogAddingToQueue; LogNoMatchWaiting] |}.

(** The room that Bob creates when he finds Alice's row. *)
Definition room_of_bob : ChatRoom :=
  {| room_id := 0; user1_id := "b"; user2_id := "a";
     user1_username := "bob"; user2_username := "alice"; is_active := true |}.



(** One client presses "Find", "Cancel" and "Find" again before any request
    is served; then the requests of both searches are served in turn. *)
Definition find_cancel_find : list (nat * Action) :=
  [(0, ClickFind); (0, ClickCancel); (0, ClickFind);
   (0, Run 1 true);
   (0, Run 0 true); (0, Run 0 true);
   (0, Run 0 true); (0, Run 0 true);
   (0, Run 0 true); (0, Run 0 true);
   (0, Run 0 true); (0, Run 0 true)]%nat.

(** Bob still has a row in the queue although the active room (c, b) names
    him. *)
Definition stale_row_of_bob : Store :=
  {| waiting_queue := [{| user_id := "b"; w_username := "bob" |}];
     chat_rooms := [{| room_id := 0; user1_id := "c"; user2_id := "b";
                       user1_username := "carol"; user2_username := "bob";
                       is_active := true |}] |}.



(** The [users] table with Alice online, and with nobody. *)
Definition alice_online : list Login.UserRow :=
  [{| Login.id := "u1"; Login.username := "alice"; Login.is_online := true |}].

End Scenarios.

(** ** Facts about lists *)

Lemma nth_error_update_nth_eq {A : Type} (l : list A) (n : nat) (x c : A) :
  nth_error l n = Some c -> nth_error (update_nth n x l) n = Some x.
Proof.
  revert n; induction l as [|h t IH]; intros [|n] H; simpl in *;
    try discriminate; auto.
Qed.

Lemma nth_error_update_nth_neq {A : Type} (l : list A) (n m : nat) (x : A) :
  n <> m -> nth_error (update_nth n x l) m = nth_error l m.
Proof.
  revert n m; induction l as [|h t IH]; intros [|n] [|m] H; simpl; auto.
  - contradiction.
Qed.

Lemma Forall_update_nth {A : Type} (P : A -> Prop) (l : list A) (n : nat) (x : A) :
  Forall P l -> P x -> Forall P (update_nth n x l).
Proof.
  intros Hl Hx; revert n; induction Hl as [|h t Hh Ht IH]; intros [|n]; simpl;
    constructor; auto.
Qed.

Lemma Forall_remove_nth {A : Type} (P : A -> Prop) (l : list A) (n : nat) :
  Forall P l -> Forall P (remove_nth n l).
Proof.
  intros Hl; revert n; induction Hl as [|h t Hh Ht IH]; intros [|n]; simpl;
    try constructor; auto.
Qed.

Lemma Forall_nth_error {A : Type} (P : A -> Prop) (l : list A) (n : nat) (x : A) :
  Forall P l -> nth_error l n = Some x -> P x.
Proof.
  intros Hl Hn; apply nth_error_In in Hn.
  rewrite Forall_forall in Hl; auto.
Qed.

Lemma NoDup_snoc2 {A : Type} (l : list A) (a b : A) :
  NoDup l -> ~ In a l -> ~ In b l -> a <> b -> NoDup (l ++ [a; b]).
Proof.
  intros Hl Ha Hb Hab.
  induction Hl as [|x l Hx Hl IH]; simpl.
  - constructor.
    + simpl; intros [E|[]]; auto.
    + constructor; [simpl; tauto | constructor].
  - constructor.
    + rewrite in_app_iff; simpl. intros [H|[H|[H|[]]]].
      * contradiction.
      * apply Ha; left; auto.
      * apply Hb; left; auto.
    + apply IH; intro H; [apply Ha | apply Hb]; right; auto.
Qed.

Module MatchmakerProofs.

Import Matchmaker.

(** *** Invariants of the shared system *)

Section Invariant.

Variable Q : Store -> Prop.
Variable P : Client -> Prop.

Hypothesis step_ok :
  forall a s c, Q s -> P c ->
                Q (fst (client_step a s c)) /\ P (snd (client_step a s c)).

Lemma sys_step_invariant (ia : nat * Action) (sys : System) :
  Q (store sys) -> Forall P (clients sys) ->
  Q (store (sys_step ia sys)) /\ Forall P (clients (sys_step ia sys)).
Proof.
  intros HQ HP; unfold sys_step.
  destruct (nth_error (clients sys) (fst ia)) as [c|] eqn:Hc; [|auto].
  pose proof (step_ok (snd ia) (store sys) c HQ (Forall_nth_error _ _ _ _ HP Hc)) as [H1 H2].
  destruct (client_step (snd ia) (store sys) c) as [s' c']; simpl in *.
  split; [assumption | apply Forall_update_nth; assumption].
Qed.

Lemma run_invariant (sched : list (nat * Action)) (sys : System) :
  Q (store sys) -> Forall P (clients sys) ->
  Q (store (run sched sys)) /\ Forall P (clients (run sched sys)).
Proof.
  revert sys; induction sched as [|ia sched IH]; intros sys HQ HP; simpl.
  - auto.
  - destruct (sys_step_invariant ia sys HQ HP) as [H1 H2].
    apply IH; assumption.
Qed.

End Invariant.

(** *** The flag a retry callback reads *)

Lemma quiet_suspend (p : Pending) (c : Client) :
  quiet c -> unseen p -> quiet (suspend p c).
Proof.
  unfold quiet, suspend; simpl; intros Hc Hp.
  apply Forall_app; split; [assumption | constructor; [assumption | constructor]].
Qed.

Lemma resume_quiet (ok : bool) (p : Pending) (s : Store) (c : Client) :
  unseen p -> quiet c -> quiet (snd (resume ok p s c)).
Proof.
  intros Hp Hc.
  destruct p as [b|b|m|m|b| | |r|ms [|b]]; simpl in *.
  - destruct ok; simpl; [apply quiet_suspend|]; assumption.
  - destruct ok; simpl; [|assumption].
    destruct (select_neq_limit1 _ _); simpl; apply quiet_suspend; simpl; auto.
  - destruct ok; simpl; [|assumption].
    apply (quiet_suspend (AwaitDeletePair m)); simpl; auto.
  - apply (quiet_suspend (Timeout 2000 StartVideoCall)); simpl; auto.
  - destruct (if ok then existing_room _ _ else None); simpl.
    + apply (quiet_suspend AwaitDeleteSelf); simpl; auto.
    + apply (quiet_suspend (Timeout 2000 (RetryFindMatch b))); simpl; auto.
  - apply (quiet_suspend (Timeout 1000 StartVideoCall)); simpl; auto.
  - assumption.
  - assumption.
  - assumption.
  - destruct Hp as [-> _]; assumption.
Qed.

Lemma client_step_quiet (a : Action) (s : Store) (c : Client) :
  quiet c -> quiet (snd (client_step a s c)).
Proof.
  intros Hc; destruct a as [| | |k ok]; simpl.
  - destruct (chatRoom c); [assumption|].
    destruct (isSearching c) eqn:E; [assumption|]; simpl.
    apply (quiet_suspend (AwaitUpsert false)); simpl; auto.
  - destruct (isSearching c); [|assumption]; simpl.
    apply (quiet_suspend AwaitStopDelete); simpl; auto.
  - unfold endChat; destruct (chatRoom c); simpl; [|assumption].
    apply (quiet_suspend (AwaitEndChat _)); simpl; auto.
  - destruct (nth_error (pending c) k) as [p|] eqn:E; [|assumption].
    apply resume_quiet.
    + exact (Forall_nth_error _ _ _ _ Hc E).
    + unfold quiet; simpl. apply Forall_remove_nth; assumption.
Qed.

Lemma init_quiet (s : Store) (users : list User) :
  Forall quiet (clients (init s users)).
Proof.
  simpl; induction users; simpl; constructor; auto. constructor.
Qed.

Lemma run_quiet (sched : list (nat * Action)) (sys : System) :
  Forall quiet (clients sys) -> Forall quiet (clients (run sched sys)).
Proof.
  intros H.
  apply (run_invariant (fun _ => True) quiet); auto.
  intros a s c _ Hc; split; [exact I | apply client_step_quiet; assumption].
Qed.

Lemma resume_attempts (ok : bool) (p : Pending) (s : Store) (c : Client) :
  unseen p -> attempts (snd (resume ok p s c)) = attempts c.
Proof.
  intros Hp.
  destruct p as [b|b|m|m|b| | |r|ms [|b]]; simpl in *; try reflexivity.
  - destruct ok; simpl; [reflexivity|].
    unfold attempts; simpl. rewrite filter_app, length_app; simpl; lia.
  - destruct ok; simpl.
    + destruct (select_neq_limit1 _ _); reflexivity.
    + unfold attempts; simpl. rewrite filter_app, length_app; simpl; lia.
  - destruct ok; simpl; [reflexivity|].
    unfold attempts; simpl. rewrite filter_app, length_app; simpl; lia.
  - destruct (if ok then existing_room _ _ else None); simpl; [reflexivity|].
    unfold attempts; simpl. rewrite filter_app, length_app; simpl; lia.
  - destruct Hp as [-> _]; reflexivity.
Qed.

Lemma client_step_attempts (a : Action) (s : Store) (c : Client) :
  quiet c ->
  attempts (snd (client_step a s c)) <= attempts c + (if is_find a then 1 else 0)
  /\ (is_find a = false -> attempts (snd (client_step a s c)) = attempts c).
Proof.
  intros Hc; destruct a as [| | |k ok]; simpl.
  - split; [|discriminate].
    destruct (chatRoom c); [simpl; lia|]. destruct (isSearching c); simpl; [lia|].
    unfold attempts; simpl. rewrite filter_app, length_app; simpl; lia.
  - unfold attempts; destruct (isSearching c); simpl; split; auto; lia.
  - unfold attempts, endChat; destruct (chatRoom c); simpl; split; auto; lia.
  - destruct (nth_error (pending c) k) as [p|] eqn:E; simpl; [|split; auto; lia].
    rewrite resume_attempts by exact (Forall_nth_error _ _ _ _ Hc E).
    unfold attempts; simpl; split; auto; lia.
Qed.

Lemma sys_step_attempts (i : nat) (ia : nat * Action) (sys : System) :
  Forall quiet (clients sys) ->
  client_attempts i (sys_step ia sys)
  <= client_attempts i sys + (if is_click_find i ia then 1 else 0)
  /\ (is_click_find i ia = false ->
      client_attempts i (sys_step ia sys) = client_attempts i sys).
Proof.
  intros Hq; unfold sys_step, client_attempts, is_click_find.
  destruct ia as [j a]; simpl.
  destruct (nth_error (clients sys) j) as [c|] eqn:Hc; [|split; auto; lia].
  pose proof (client_step_attempts a (store sys) c (Forall_nth_error _ _ _ _ Hq Hc)) as [H1 H2].
  destruct (client_step a (store sys) c) as [s' c']; simpl in *.
  destruct (Nat.eq_dec j i) as [->|Hne].
  - rewrite (nth_error_update_nth_eq _ _ _ _ Hc), Hc, Nat.eqb_refl.
    destruct a; simpl in *; split; auto; try lia.
  - rewrite (nth_error_update_nth_neq _ _ _ _ Hne).
    split; auto; lia.
Qed.

Lemma run_attempts (i : nat) (sched : list (nat * Action)) (sys : System) :
  Forall quiet (clients sys) ->
  client_attempts i (run sched sys) <= client_attempts i sys + clicks i sched
  /\ (clicks i sched = 0 -> client_attempts i (run sched sys) = client_attempts i sys).
Proof.
  revert sys; induction sched as [|ia sched IH]; intros sys Hq; simpl.
  - split; auto; lia.
  - destruct (sys_step_attempts i ia sys Hq) as [H1 H2].
    assert (Hq' : Forall quiet (clients (sys_step ia sys))).
    { apply (run_quiet [ia]); assumption. }
    destruct (IH _ Hq') as [H3 H4].
    unfold clicks in *; simpl.
    destruct (is_click_find i ia); simpl in *.
    + split; [lia | discriminate].
    + split; [lia|]. intros Hz. rewrite H4, H2; auto.
Qed.

(** *** The table requests *)

Lemma select_neq_limit1_In (me : UserId) (q : list WaitingEntry)
      (m : WaitingEntry) (l : list WaitingEntry) :
  select_neq_limit1 me q = m :: l -> In m q /\ user_id m <> me.
Proof.
  unfold select_neq_limit1; intros H.
  destruct (filter _ q) as [|x r] eqn:E; simpl in H; [discriminate|].
  injection H as -> _.
  assert (Hin : In m (filter (fun x => negb (user_id x =? me)) q)) by (rewrite E; left; auto).
  apply filter_In in Hin; destruct Hin as [Hq Hne]; split; [assumption|].
  apply negb_true_iff, String.eqb_neq in Hne; assumption.
Qed.

Lemma In_upsert (e x : WaitingEntry) (q : list WaitingEntry) :
  In x (upsert e q) -> x = e \/ In x q.
Proof.
  induction q as [|h t IH]; simpl.
  - intros [H|[]]; auto.
  - destruct (user_id h =? user_id e); simpl; intros [H|H]; auto.
    destruct (IH H); auto.
Qed.

Lemma upsert_has_key (e : WaitingEntry) (q : list WaitingEntry) :
  existsb (fun x => user_id x =? user_id e) (upsert e q) = true.
Proof.
  induction q as [|h t IH]; simpl.
  - rewrite String.eqb_refl; reflexivity.
  - destruct (user_id h =? user_id e) eqn:E; simpl.
    + rewrite String.eqb_refl; reflexivity.
    + rewrite E; simpl; assumption.
Qed.

Lemma In_delete_in (ids : list UserId) (x : WaitingEntry) (q : list WaitingEntry) :
  In x (delete_in ids q) -> In x q /\ ~ In (user_id x) ids.
Proof.
  unfold delete_in; intros H; apply filter_In in H; destruct H as [Hq Hn].
  split; [assumption|]. intros Hin.
  apply negb_true_iff in Hn.
  assert (existsb (String.eqb (user_id x)) ids = true).
  { apply existsb_exists; exists (user_id x); split; [assumption | apply String.eqb_refl]. }
  congruence.
Qed.



Lemma active_participants_snoc (rooms : list ChatRoom) (r : ChatRoom) :
  active_participants (rooms ++ [r]) =
  active_participants rooms ++ (if is_active r then [user1_id r; user2_id r] else []).
Proof.
  unfold active_participants.
  rewrite filter_app, flat_map_app; simpl.
  destruct (is_active r); reflexivity.
Qed.

Lemma existing_room_active (me : UserId) (rooms : list ChatRoom) (r : ChatRoom) :
  existing_room me rooms = Some r -> In me (active_participants rooms).
Proof.
  unfold existing_room; intros H.
  destruct (filter _ rooms) as [|x [|y l]] eqn:E; simpl in H; try discriminate.
  injection H as ->.
  assert (Hin : In r (filter (fun r => (user2_id r =? me) && is_active r) rooms))
    by (rewrite E; left; auto).
  apply filter_In in Hin; destruct Hin as [Hr Hf].
  apply andb_true_iff in Hf; destruct Hf as [Hu Ha].
  apply String.eqb_eq in Hu.
  unfold active_participants; apply in_flat_map.
  exists r; split; [apply filter_In; auto | subst me; simpl; auto].
Qed.

Ltac alone_simpl :=
  cbn -[select_neq_limit1 existing_room upsert delete_in delete_eq];
  unfold own_entry;
  cbn -[select_neq_limit1 existing_room upsert delete_in delete_eq].

(** What a [findMatch] that runs alone leaves in the store. *)
Lemma findMatch_alone_store (u : User) (s : Store) :
  let q := upsert {| user_id := id u; w_username := username u |} (waiting_queue s) in
  fst (findMatch_alone u s) =
  match select_neq_limit1 (id u) q with
  | m :: _ =>
      {| waiting_queue := delete_in [id u; user_id m] q;
         chat_rooms := fst (insert_room u m (chat_rooms s)) |}
  | [] =>
      match existing_room (id u) (chat_rooms s) with
      | Some _ => {| waiting_queue := delete_eq (id u) q; chat_rooms := chat_rooms s |}
      | None => {| waiting_queue := q; chat_rooms := chat_rooms s |}
      end
  end.
Proof.
  unfold findMatch_alone; alone_simpl.
  destruct (select_neq_limit1 _ _) as [|m l]; alone_simpl.
  - destruct (existing_room _ _); reflexivity.
  - reflexivity.
Qed.

Lemma findMatch_alone_settled (u : User) (s : Store) :
  Forall (fun p => is_request p = false) (pending (snd (findMatch_alone u s))).
Proof.
  unfold findMatch_alone; alone_simpl.
  destruct (select_neq_limit1 _ _) as [|m l]; alone_simpl.
  - destruct (existing_room _ _); alone_simpl; repeat constructor.
  - repeat constructor.
Qed.

(** *** Rooms name two different participants *)

Lemma In_remove_nth {A : Type} (l : list A) (n : nat) (x : A) :
  In x (remove_nth n l) -> In x l.
Proof.
  revert n; induction l as [|h t IH]; intros [|n]; simpl; auto.
  intros [H|H]; eauto.
Qed.

Lemma matched_other_suspend (p : Pending) (c : Client) :
  matched_other c ->
  (forall m, p = AwaitInsertRoom m -> user_id m <> id (currentUser c)) ->
  matched_other (suspend p c).
Proof.
  unfold matched_other, suspend; simpl; intros Hc Hp m Hin.
  apply in_app_iff in Hin; destruct Hin as [Hin|[Hin|[]]]; auto.
Qed.

Lemma In_deactivate (rid : nat) (rooms : list ChatRoom) (r : ChatRoom) :
  In r (deactivate rid rooms) ->
  exists r0, In r0 rooms /\ user1_id r = user1_id r0 /\ user2_id r = user2_id r0.
Proof.
  unfold deactivate; intros H; apply in_map_iff in H.
  destruct H as [r0 [E Hin]]; exists r0; split; [assumption|].
  destruct (room_id r0 =? rid)%nat; subst r; simpl; auto.
Qed.

Lemma resume_distinct (ok : bool) (p : Pending) (s : Store) (c : Client) :
  (forall m, p = AwaitInsertRoom m -> user_id m <> id (currentUser c)) ->
  distinct_rooms s -> matched_other c ->
  distinct_rooms (fst (resume ok p s c)) /\ matched_other (snd (resume ok p s c)).
Proof.
  intros Hp Hs Hc.
  destruct p as [b|b|m|m|b| | |r|ms [|b]]; simpl.
  - destruct ok; simpl; split; auto.
    apply matched_other_suspend; [assumption | discriminate].
  - destruct ok; simpl; [|split; auto].
    destruct (select_neq_limit1 _ _) as [|m l] eqn:E; simpl; split; auto.
    + apply matched_other_suspend; [assumption | discriminate].
    + apply matched_other_suspend; [assumption|].
      intros m' Hm'; injection Hm' as <-.
      apply (select_neq_limit1_In _ _ _ _ E).
  - destruct ok; simpl; [|split; auto]. split.
    + intros r Hr; simpl in Hr. apply in_app_iff in Hr.
      destruct Hr as [Hr|[<-|[]]]; [auto|]; simpl.
      intro E; apply (Hp m eq_refl); symmetry; exact E.
    + apply (matched_other_suspend (AwaitDeletePair m)); [exact Hc | discriminate].
  - split.
    + destruct ok; simpl; auto.
    + apply (matched_other_suspend (Timeout 2000 StartVideoCall)); [exact Hc | discriminate].
  - destruct (if ok then existing_room _ _ else None); simpl; split; auto.
    + apply (matched_other_suspend AwaitDeleteSelf); [exact Hc | discriminate].
    + apply (matched_other_suspend (Timeout 2000 (RetryFindMatch b))); [exact Hc | discriminate].
  - split.
    + destruct ok; simpl; auto.
    + apply (matched_other_suspend (Timeout 1000 StartVideoCall)); [exact Hc | discriminate].
  - split; [destruct ok; simpl; auto | assumption].
  - split; [|exact Hc].
    destruct ok; simpl; [|assumption].
    intros r' Hr'; simpl in Hr'. apply In_deactivate in Hr'.
    destruct Hr' as [r0 [Hin [E1 E2]]]; rewrite E1, E2; auto.
  - split; assumption.
  - split; [assumption|].
    destruct b; [|assumption]; simpl.
    apply (matched_other_suspend (AwaitUpsert true)); [exact Hc | discriminate].
Qed.

Lemma client_step_distinct (a : Action) (s : Store) (c : Client) :
  distinct_rooms s -> matched_other c ->
  distinct_rooms (fst (client_step a s c)) /\ matched_other (snd (client_step a s c)).
Proof.
  intros Hs Hc; destruct a as [| | |k ok]; simpl.
  - destruct (chatRoom c); [split; assumption|].
    destruct (isSearching c); simpl; split; auto.
    apply (matched_other_suspend (AwaitUpsert false)); [exact Hc | discriminate].
  - destruct (isSearching c); simpl; split; auto.
    apply (matched_other_suspend AwaitStopDelete); [exact Hc | discriminate].
  - unfold endChat; destruct (chatRoom c); simpl; split; auto.
    apply (matched_other_suspend (AwaitEndChat _)); [exact Hc | discriminate].
  - destruct (nth_error (pending c) k) as [p|] eqn:E; [|split; assumption].
    apply resume_distinct; auto.
    + intros m ->; simpl. apply Hc. exact (nth_error_In _ _ E).
    + intros m Hm; simpl in *. apply Hc. exact (In_remove_nth _ _ _ Hm).
Qed.

Lemma init_matched_other (s : Store) (users : list User) :
  Forall matched_other (clients (init s users)).
Proof.
  simpl; induction users; simpl; constructor; auto.
  intros m [].
Qed.

Lemma existsb_key_In (u : UserId) (m : WaitingEntry) (q : list WaitingEntry) :
  In m q -> user_id m = u -> existsb (fun e => user_id e =? u) q = true.
Proof.
  intros Hin <-; apply existsb_exists; exists m; split; [assumption | apply String.eqb_refl].
Qed.

(** *** Pairing *)

Import Scenarios.

(** C1, as stated, fails.  Alice and Bob press the button together and
    their requests alternate.  Each search finds the other's row, each
    insert creates a room, so the table ends with two active rooms, (a, b)
    and (b, a): both participants are named by two active rooms.  The room
    is inserted by one request and the pair is evicted by a later one;
    nothing serializes the two. *)
Lemma C1_racing_pair_creates_two_rooms :
  let final := store (run racing_pair (init empty_store [alice; bob])) in
  map (fun r => (user1_id r, user2_id r, is_active r)) (chat_rooms final)
  = [("a", "b", true); ("b", "a", true)]
  /\ ~ disjoint_pairs final.
Proof.
  split; [reflexivity|].
  unfold disjoint_pairs; cbn. intros H.
  inversion H as [|x l Hin _]; subst. apply Hin; simpl; auto.
Qed.

(** C1, amended.  A client that has just opened the page (no room, no
    request and no timer of its own under way) presses the button, and the
    requests of that [findMatch] are served one after another, without
    error and with no other request in between: none of another client and
    none of its own.  If beforehand the active rooms are disjoint pairs, no
    waiting entry belongs to a participant of an active room, and the
    caller is named by no active room, then afterwards the active rooms are
    disjoint pairs, no participant of an active room has a waiting entry,
    and the call waits for a timer only. *)
Theorem C1_findMatch_alone_keeps_pairs_disjoint :
  forall (u : User) (s : Store),
    disjoint_pairs s ->
    no_stale_entry s ->
    ~ In (id u) (active_participants (chat_rooms s)) ->
    disjoint_pairs (fst (findMatch_alone u s))
    /\ no_stale_entry (fst (findMatch_alone u s))
    /\ Forall (fun p => is_request p = false) (pending (snd (findMatch_alone u s))).
Proof.
  intros u s Hd Hw Hu.
  split; [|split; [|apply findMatch_alone_settled]];
    rewrite findMatch_alone_store;
    set (q := upsert _ (waiting_queue s));
    assert (Hq : forall x, In x q -> user_id x = id u \/ In x (waiting_queue s))
      by (intros x Hx; apply In_upsert in Hx; destruct Hx as [->|Hx]; auto).
  - destruct (select_neq_limit1 (id u) q) as [|m l] eqn:E.
    + destruct (existing_room _ _); exact Hd.
    + destruct (select_neq_limit1_In _ _ _ _ E) as [Hm Hne].
      unfold disjoint_pairs; simpl. rewrite active_participants_snoc; simpl.
      apply NoDup_snoc2; auto.
      destruct (Hq m Hm) as [Heq|Hin]; [contradiction | exact (Hw m Hin)].
  - destruct (select_neq_limit1 (id u) q) as [|m l] eqn:E.
    + destruct (existing_room (id u) (chat_rooms s)) as [r|] eqn:Er.
      * exfalso; apply Hu; exact (existing_room_active _ _ _ Er).
      * intros e He; simpl in *.
        destruct (Hq e He) as [Heq|Hin]; [rewrite Heq; exact Hu | exact (Hw e Hin)].
    + destruct (select_neq_limit1_In _ _ _ _ E) as [Hm Hne].
      intros e He; simpl in *.
      apply In_delete_in in He; destruct He as [He Hids].
      rewrite active_participants_snoc; simpl.
      rewrite in_app_iff; simpl. intros [Hin|[Heq|[Heq|[]]]].
      * destruct (Hq e He) as [Heq|Hin']; [apply Hids; left; auto | exact (Hw e Hin' Hin)].
      * apply Hids; left; assumption.
      * apply Hids; right; left; assumption.
Qed.

Lemma C1_findMatch_alone_witness :
  disjoint_pairs (fst (findMatch_alone bob only_alice_waiting))
  /\ no_stale_entry (fst (findMatch_alone bob only_alice_waiting))
  /\ Forall (fun p => is_request p = false)
            (pending (snd (findMatch_alone bob only_alice_waiting))).
Proof.
  apply (C1_findMatch_alone_keeps_pairs_disjoint bob only_alice_waiting).
  - unfold disjoint_pairs; simpl; constructor.
  - intros e _; simpl; intros [].
  - simpl; intros [].
Defined.

(** The hypothesis on the caller is needed: Alice, already named by the
    active room (b, a), searches again while Carol waits, and is paired a
    second time. *)
Example caller_already_paired :
  let s := {| waiting_queue := [{| user_id := "c"; w_username := "carol" |}];
              chat_rooms := [{| room_id := 0; user1_id := "b"; user2_id := "a";
                                user1_username := "bob"; user2_username := "alice";
                                is_active := true |}] |} in
  active_participants (chat_rooms (fst (findMatch_alone alice s))) = ["b"; "a"; "a"; "c"].
Proof. reflexivity. Qed.

(** The hypothesis on the queue is needed: Bob's row is still in the queue
    while the active room (c, b) names him, and Alice's search pairs him a
    second time. *)
Example stale_row_is_paired_again :
  active_participants (chat_rooms (fst (findMatch_alone alice stale_row_of_bob)))
  = ["c"; "b"; "a"; "b"].
Proof. reflexivity. Qed.

(** So is the condition that the caller has nothing else in flight: one
    client alone that presses "Find", "Cancel" and "Find" while Bob waits
    has two searches under way, and each of them creates the room (a, b). *)
Example own_searches_race :
  map (fun r => (user1_id r, user2_id r, is_active r))
      (chat_rooms (store (run find_cancel_find (init only_bob_waiting [alice]))))
  = [("a", "b", true); ("a", "b", true)].
Proof. reflexivity. Qed.

(** C5, as stated, fails.  In the race of Alice and Bob, Alice's insert and
    delete come first; when Bob's insert creates the room (b, a) the waiting
    queue is empty: neither participant is in it at pairing time. *)
Lemma C5_room_inserted_after_queue_emptied :
  let sys := run before_late_insert (init empty_store [alice; bob]) in
  waiting_queue (store sys) = []
  /\ exists r, In r (created (1, Run 0 true) sys)
               /\ user1_id r = "b" /\ user2_id r = "a"
               /\ waiting (user1_id r) (store sys) = false
               /\ waiting (user2_id r) (store sys) = false.
Proof.
  split; [reflexivity|].
  eexists; split; [left; reflexivity|].
  repeat split; reflexivity.
Qed.

(** C5, amended.  Under every interleaving of the clients' requests, every
    room of the table names two different participants.  When a client
    that has just opened the page presses the button and its upsert and its
    search are served one after the other, with no other request in between
    (none of another client, no cancel of its own), then the room that its
    insert creates next names the caller first, and both participants have
    a waiting entry when the insert is served. *)
Theorem C5_rooms_name_two_different_participants :
  forall (users : list User) (sched : list (nat * Action)),
    (forall r, In r (chat_rooms (store (run sched (init empty_store users)))) ->
               user1_id r <> user2_id r)
    /\ (forall (u : User) (s : Store) (r : ChatRoom),
          In r (created (0, Run 0 true) (run up_to_insert (solo u s))) ->
          user1_id r = id u
          /\ waiting (user1_id r) (store (run up_to_insert (solo u s))) = true
          /\ waiting (user2_id r) (store (run up_to_insert (solo u s))) = true).
Proof.
  intros users sched; split.
  - assert (H : distinct_rooms (store (run sched (init empty_store users)))
                /\ Forall matched_other (clients (run sched (init empty_store users)))).
    { apply run_invariant.
      - intros a s c; apply client_step_distinct.
      - intros r [].
      - apply init_matched_other. }
    exact (proj1 H).
  - intros u s r.
    unfold created, waiting, up_to_insert, solo, run, sys_step. alone_simpl.
    destruct (select_neq_limit1 (id u) _) as [|m l] eqn:E; alone_simpl.
    + destruct (existing_room _ _); alone_simpl;
        rewrite skipn_all; intros [].
    + rewrite skipn_app, skipn_all, Nat.sub_diag; simpl.
      intros [<-|[]]; simpl.
      destruct (select_neq_limit1_In _ _ _ _ E) as [Hm Hne].
      repeat split.
      * exact (upsert_has_key {| user_id := id u; w_username := username u |} _).
      * exact (existsb_key_In _ _ _ Hm eq_refl).
Qed.

Lemma C5_pairing_witness :
  waiting "b" (store (run up_to_insert (solo bob only_alice_waiting))) = true
  /\ waiting "a" (store (run up_to_insert (solo bob only_alice_waiting))) = true.
Proof.
  exact (proj2 (proj2 (C5_rooms_name_two_different_participants [] [])
                      bob only_alice_waiting
                      {| room_id := 0; user1_id := "b"; user2_id := "a";
                         user1_username := "bob"; user2_username := "alice";
                         is_active := true |}
                      (or_introl eq_refl))).
Defined.

End MatchmakerProofs.

Module VideoCallProofs.

Import VideoCall.

(** *** Invariants through code that may throw *)

Section Keeps.

Variable b : Browser.
Variable I : Component -> Prop.

Lemma keeps_ret {A : Type} (a : A) : keeps I (ret a).
Proof. intros e H; exact H. Qed.

Lemma keeps_bind {A B : Type} (m : M A) (k : A -> M B) :
  keeps I m -> (forall a, keeps I (k a)) -> keeps I (bind m k).
Proof.
  intros Hm Hk e He; unfold bind.
  specialize (Hm e He). destruct (m e) as [[a|] e']; simpl in *.
  - apply Hk; assumption.
  - assumption.
Qed.

Lemma keeps_modify (f : Component -> Component) :
  (forall e, I e -> I (f e)) -> keeps I (modify f).
Proof. intros Hf e He; simpl; auto. Qed.

Lemma keeps_await (c : Call) :
  (forall e, I e -> I (resolved c e)) ->
  (forall e, I e -> I (rejected c e)) ->
  keeps I (await b c).
Proof.
  intros H1 H2 e He; unfold await.
  destruct (resolves b (trace e) c); simpl; auto.
Qed.

Lemma keeps_create (c : Call) :
  keeps I (await b c) -> keeps I (create b c).
Proof.
  intros H e He; unfold create.
  apply (keeps_bind (await b c) (fun _ => ret (describes b (trace e)))); auto.
  intros _; apply keeps_ret.
Qed.

Lemma keeps_sendSignalingMessage (d : Data) :
  (forall e t m, I e -> I (emit (Sent t m) e)) -> keeps I (sendSignalingMessage d).
Proof.
  intros H; apply keeps_modify; intros e He.
  destruct (signalingChannelRef e); auto.
Qed.

Lemma keeps_drain (q : list Candidate) :
  (forall e x, I e -> I (set_iceCandidatesQueue x e)) ->
  (forall c, keeps I (await b (AddIceCandidate c))) ->
  keeps I (drain b q).
Proof.
  intros Hq Ha; induction q as [|c rest IH]; simpl.
  - apply keeps_ret.
  - apply keeps_bind; [apply keeps_modify; auto|]; intros _.
    apply keeps_bind; [apply Ha|]; intros _; exact IH.
Qed.

Lemma keeps_try_catch (body : M unit) (handler : Component -> Component) :
  keeps I body -> (forall e, I e -> I (handler e)) ->
  forall e, I e -> I (try_catch body handler e).
Proof.
  intros Hb Hh e He; unfold try_catch.
  specialize (Hb e He). destruct (body e) as [[a|] e']; simpl in *; auto.
Qed.

End Keeps.

(** An invariant that no setter, effect or call outcome can break is kept by
    every handler. *)
Section Sturdy.

Variable b : Browser.
Variable I : Component -> Prop.

Hypothesis I_emit : forall e x, I e -> I (emit x e).
Hypothesis I_queue : forall e x, I e -> I (set_iceCandidatesQueue x e).
Hypothesis I_resolved : forall e c, I e -> I (resolved c e).

Lemma sturdy_await (c : Call) : keeps I (await b c).
Proof. apply keeps_await; intros e He; [apply I_resolved | apply I_emit]; assumption. Qed.

Lemma sturdy_processQueued : keeps I (processQueued b).
Proof.
  intros e He; unfold processQueued.
  apply (keeps_drain b I (iceCandidatesQueue e)); auto.
  intros c; apply sturdy_await.
Qed.

Lemma sturdy_answering :
  keeps I (bind (processQueued b)
             (fun _ => bind (create b CreateAnswer)
                (fun answer => bind (await b (SetLocalDescription answer))
                   (fun _ => sendSignalingMessage (Answer answer))))).
Proof.
  apply keeps_bind; [apply sturdy_processQueued|]; intros _.
  apply keeps_bind; [apply keeps_create, sturdy_await|]; intros answer.
  apply keeps_bind; [apply sturdy_await|]; intros _.
  apply keeps_sendSignalingMessage; auto.
Qed.

Lemma sturdy_handleOffer (offer : Sdp) (e : Component) :
  I e -> I (handleOffer b offer e).
Proof.
  apply keeps_try_catch; [|intros; apply I_emit; assumption].
  apply keeps_bind; [apply sturdy_await|]; intros _.
  apply sturdy_answering.
Qed.

Lemma sturdy_handleAnswer (answer : Sdp) (e : Component) :
  I e -> I (handleAnswer b answer e).
Proof.
  apply keeps_try_catch; [|intros; apply I_emit; assumption].
  apply keeps_bind; [apply sturdy_await|]; intros _.
  apply sturdy_processQueued.
Qed.

Lemma sturdy_handleIceCandidate (candidate : Candidate) (e : Component) :
  I e -> I (handleIceCandidate b candidate e).
Proof.
  apply keeps_try_catch; [|intros; apply I_emit; assumption].
  intros e' He'. destruct (hasRemoteDescription e').
  - apply sturdy_await; assumption.
  - simpl; apply I_queue; assumption.
Qed.

Lemma sturdy_createOffer (e : Component) :
  I e -> I (createOffer b e).
Proof.
  apply keeps_try_catch; [|intros; apply I_emit; assumption].
  apply keeps_bind; [apply keeps_create, sturdy_await|]; intros offer.
  apply keeps_bind; [apply sturdy_await|]; intros _.
  apply keeps_sendSignalingMessage; auto.
Qed.

Lemma sturdy_on_broadcast (m : Message) (e : Component) :
  I e -> I (on_broadcast b m e).
Proof.
  intros He; unfold on_broadcast.
  destruct (negb _); [|assumption].
  destruct (data m);
    [apply sturdy_handleOffer | apply sturdy_handleAnswer | apply sturdy_handleIceCandidate];
    assumption.
Qed.

End Sturdy.

(** *** What the handlers leave alone *)

Lemma wiring_resolved (w : _) (e : Component) (c : Call) :
  wiring e = w -> wiring (resolved c e) = w.
Proof.
  intros <-; unfold wiring, resolved; destruct c; simpl; try reflexivity;
    destruct (peerConnectionRef e); reflexivity.
Qed.

Lemma wiring_on_broadcast (b : Browser) (m : Message) (e : Component) :
  wiring (on_broadcast b m e) = wiring e.
Proof.
  apply (sturdy_on_broadcast b (fun x => wiring x = wiring e)); auto.
  intros; apply wiring_resolved; assumption.
Qed.

Lemma wiring_createOffer (b : Browser) (e : Component) :
  wiring (createOffer b e) = wiring e.
Proof.
  apply (sturdy_createOffer b (fun x => wiring x = wiring e)); auto.
  intros; apply wiring_resolved; assumption.
Qed.

Lemma try_catch_await (b : Browser) (c : Call) (k : unit -> M unit)
      (h : Component -> Component) (e : Component) :
  try_catch (bind (await b c) k) h e =
  if resolves b (trace e) c
  then try_catch (k tt) h (resolved c e)
  else h (rejected c e).
Proof.
  unfold try_catch, bind, await.
  destruct (resolves b (trace e) c); reflexivity.
Qed.

Lemma trace_resolved (c : Call) (e : Component) :
  trace (resolved c e) = trace e ++ [Called c true].
Proof. destruct c; reflexivity. Qed.

Lemma fold_emit (I : Component -> Prop) (f : TrackKind -> Effect) (ks : list TrackKind) :
  (forall e k, I e -> I (emit (f k) e)) ->
  forall e, I e -> I (fold_left (fun acc k => emit (f k) acc) ks e).
Proof.
  intros H; induction ks as [|k ks IH]; simpl; auto.
Qed.

(** [initializeCall] when the capture resolves, and when it is rejected. *)
Lemma initializeCall_resolved (b : Browser) (e : Component) :
  resolves b (trace e) GetUserMedia = true ->
  initializeCall b e =
  let e1 := set_localStreamRef (Some [AudioTrack; VideoTrack]) (resolved GetUserMedia e) in
  let e2 := set_peerConnectionRef
              (Some {| remoteDescription := None; localDescription := None |})
              (emit PeerCreated e1) in
  let e3 := emit (TrackAdded VideoTrack) (emit (TrackAdded AudioTrack) e2) in
  let e4 := set_channel (Some (topic_of (roomId e3))) true
                        (emit (Subscribed (topic_of (roomId e3))) e3) in
  if isInitiator e4 then set_offerTimer true e4 else e4.
Proof.
  intros H.
  unfold initializeCall, try_catch, getUserMedia, setupSignalingChannel,
    bind, await, modify, ret.
  rewrite H; reflexivity.
Qed.

Lemma initializeCall_rejected (b : Browser) (e : Component) :
  resolves b (trace e) GetUserMedia = false ->
  initializeCall b e
  = setConnectionStatus disconnected (consoleError (rejected GetUserMedia e)).
Proof.
  intros H.
  unfold initializeCall, try_catch, getUserMedia, bind, await.
  rewrite H; reflexivity.
Qed.

(** *** With a browser that resolves every call *)

Lemma drain_cons_obliging (b : Browser) (c : Candidate) (rest : list Candidate)
      (e : Component) :
  obliging b ->
  drain b (c :: rest) e
  = drain b rest (emit (Called (AddIceCandidate c) true) (set_iceCandidatesQueue rest e)).
Proof.
  intros Hb; simpl; unfold bind, modify, await; simpl; rewrite Hb; reflexivity.
Qed.

Lemma drain_obliging (b : Browser) (q : list Candidate) (e : Component) :
  obliging b ->
  fst (drain b q e) = Some tt
  /\ trace (snd (drain b q e)) = trace e ++ queued q
  /\ iceCandidatesQueue (snd (drain b q e))
     = match q with [] => iceCandidatesQueue e | _ => [] end
  /\ peerConnectionRef (snd (drain b q e)) = peerConnectionRef e
  /\ wiring (snd (drain b q e)) = wiring e.
Proof.
  intros Hb; revert e; induction q as [|c rest IH]; intros e.
  - simpl; rewrite app_nil_r; repeat split.
  - rewrite (drain_cons_obliging b c rest e Hb).
    destruct (IH (emit (Called (AddIceCandidate c) true) (set_iceCandidatesQueue rest e)))
      as (H1 & H2 & H3 & H4 & H5).
    rewrite H1, H2, H3, H4, H5; simpl.
    rewrite <- app_assoc; simpl. repeat split.
    destruct rest; reflexivity.
Qed.

Lemma try_catch_bind_some {A : Type} (m : M A) (k : A -> M unit)
      (h : Component -> Component) (e e' : Component) (a : A) :
  m e = (Some a, e') -> try_catch (bind m k) h e = try_catch (k a) h e'.
Proof. intros H; unfold try_catch, bind; rewrite H; reflexivity. Qed.

Lemma try_catch_create (b : Browser) (c : Call) (k : Sdp -> M unit)
      (h : Component -> Component) (e : Component) :
  try_catch (bind (create b c) k) h e =
  if resolves b (trace e) c
  then try_catch (k (describes b (trace e))) h (resolved c e)
  else h (rejected c e).
Proof.
  unfold try_catch, bind, create, bind, await, ret.
  destruct (resolves b (trace e) c); reflexivity.
Qed.

Lemma count_app (p : Effect -> bool) (t1 t2 : list Effect) :
  count p (t1 ++ t2) = count p t1 + count p t2.
Proof. unfold count; rewrite filter_app, length_app; reflexivity. Qed.

Lemma count_queued (p : Effect -> bool) (q : list Candidate) :
  (forall c, p (Called (AddIceCandidate c) true) = false) -> count p (queued q) = 0.
Proof.
  intros H; unfold count; induction q as [|c q IH]; simpl; [reflexivity|].
  rewrite H; exact IH.
Qed.

Lemma handleAnswer_obliging (b : Browser) (answer : Sdp) (e : Component) :
  obliging b ->
  trace (handleAnswer b answer e)
  = trace e ++ Called (SetRemoteDescription answer) true :: queued (iceCandidatesQueue e)
  /\ iceCandidatesQueue (handleAnswer b answer e) = []
  /\ (peerConnectionRef e <> None -> hasRemoteDescription (handleAnswer b answer e) = true).
Proof.
  intros Hb; unfold handleAnswer; rewrite try_catch_await, Hb.
  unfold try_catch, processQueued.
  destruct (drain_obliging b (iceCandidatesQueue (resolved (SetRemoteDescription answer) e))
                           (resolved (SetRemoteDescription answer) e) Hb)
    as (H1 & H2 & H3 & H4 & H5).
  destruct (drain b _ _) as [[[]|] e2]; simpl in *; try discriminate.
  rewrite H2, H3; simpl. rewrite <- app_assoc; simpl. repeat split.
  - destruct (iceCandidatesQueue e); reflexivity.
  - intros Hpc; unfold hasRemoteDescription; rewrite H4; simpl.
    destruct (peerConnectionRef e); [reflexivity | contradiction].
Qed.

Lemma handleOffer_obliging (b : Browser) (offer : Sdp) (e : Component) (topic : string) :
  obliging b ->
  signalingChannelRef e = Some topic ->
  (exists answer,
      trace (handleOffer b offer e)
      = trace e ++ Called (SetRemoteDescription offer) true
                :: queued (iceCandidatesQueue e)
                ++ [Called CreateAnswer true;
                    Called (SetLocalDescription answer) true;
                    Sent topic {| data := Answer answer;
                                  payload_senderId := userId e;
                                  payload_roomId := roomId e |}])
  /\ iceCandidatesQueue (handleOffer b offer e) = []
  /\ (peerConnectionRef e <> None -> hasRemoteDescription (handleOffer b offer e) = true).
Proof.
  intros Hb Hch; unfold handleOffer; rewrite try_catch_await, Hb.
  pose proof (drain_obliging b (iceCandidatesQueue (resolved (SetRemoteDescription offer) e))
                             (resolved (SetRemoteDescription offer) e) Hb)
    as (H1 & H2 & H3 & H4 & H5).
  destruct (drain b _ _) as [[[]|] e2] eqn:E; simpl in H1, H2, H3, H4, H5; try discriminate.
  rewrite (try_catch_bind_some (processQueued b) _ _ _ e2 tt E).
  rewrite try_catch_create, Hb, try_catch_await, trace_resolved, Hb.
  assert (Hw : signalingChannelRef e2 = Some topic /\ userId e2 = userId e
               /\ roomId e2 = roomId e).
  { unfold wiring in H5; simpl in H5. injection H5 as -> -> _ _ Ec _ _. rewrite Ec; auto. }
  destruct Hw as (Hc2 & Hu2 & Hr2).
  unfold try_catch, sendSignalingMessage, modify, hasRemoteDescription; simpl.
  rewrite Hc2; simpl. rewrite H2, H3, H4, Hu2, Hr2; simpl.
  repeat split.
  - eexists. rewrite <- !app_assoc; simpl. reflexivity.
  - destruct (iceCandidatesQueue e); reflexivity.
  - intros Hpc. destruct (peerConnectionRef e); [reflexivity | contradiction].
Qed.

Lemma willing_obliging : obliging willing.
Proof. intros t c; reflexivity. Qed.

Import Scenarios.

(** *** Offers and answers that arrive again *)

Lemma extends_emit (t0 : list Effect) (e : Component) (x : Effect) :
  extends t0 e -> extends t0 (emit x e).
Proof.
  intros [rest H]; exists (rest ++ [x]); simpl; rewrite H, app_assoc; reflexivity.
Qed.

Lemma extends_resolved (t0 : list Effect) (e : Component) (c : Call) :
  extends t0 e -> extends t0 (resolved c e).
Proof.
  intros [rest H]; exists (rest ++ [Called c true]).
  rewrite trace_resolved, H, app_assoc; reflexivity.
Qed.

Lemma handleOffer_sets_remote (b : Browser) (offer : Sdp) (e : Component) :
  exists rest,
    trace (handleOffer b offer e)
    = trace e ++ Called (SetRemoteDescription offer)
                        (resolves b (trace e) (SetRemoteDescription offer)) :: rest.
Proof.
  unfold handleOffer; rewrite try_catch_await.
  destruct (resolves b (trace e) (SetRemoteDescription offer)).
  - assert (H : extends (trace e ++ [Called (SetRemoteDescription offer) true])
                        (try_catch
                           ((fun _ : unit =>
                               bind (processQueued b)
                                 (fun _ => bind (create b CreateAnswer)
                                    (fun answer => bind (await b (SetLocalDescription answer))
                                       (fun _ => sendSignalingMessage (Answer answer))))) tt)
                           consoleError (resolved (SetRemoteDescription offer) e))).
    { apply keeps_try_catch.
      - apply sturdy_answering; auto using extends_emit, extends_resolved.
      - intros; apply extends_emit; assumption.
      - exists []; rewrite trace_resolved, app_nil_r; reflexivity. }
    destruct H as [rest H]; exists rest.
    rewrite H, <- app_assoc; reflexivity.
  - exists [ErrorLogged]; simpl; rewrite <- app_assoc; reflexivity.
Qed.

Lemma handleAnswer_sets_remote (b : Browser) (answer : Sdp) (e : Component) :
  exists rest,
    trace (handleAnswer b answer e)
    = trace e ++ Called (SetRemoteDescription answer)
                        (resolves b (trace e) (SetRemoteDescription answer)) :: rest.
Proof.
  unfold handleAnswer; rewrite try_catch_await.
  destruct (resolves b (trace e) (SetRemoteDescription answer)).
  - assert (H : extends (trace e ++ [Called (SetRemoteDescription answer) true])
                        (try_catch ((fun _ : unit => processQueued b) tt)
                           consoleError (resolved (SetRemoteDescription answer) e))).
    { apply keeps_try_catch.
      - apply sturdy_processQueued; auto using extends_emit, extends_resolved.
      - intros; apply extends_emit; assumption.
      - exists []; rewrite trace_resolved, app_nil_r; reflexivity. }
    destruct H as [rest H]; exists rest.
    rewrite H, <- app_assoc; reflexivity.
  - exists [ErrorLogged]; simpl; rewrite <- app_assoc; reflexivity.
Qed.

Lemma delivered (b : Browser) (topic : string) (m : Message) (e : Component) :
  signalingChannelRef e = Some topic ->
  subscribed e = true ->
  payload_senderId m <> userId e ->
  step b (Broadcast topic m) e
  = match data m with
    | Offer offer => handleOffer b offer e
    | Answer answer => handleAnswer b answer e
    | IceCandidate candidate => handleIceCandidate b candidate e
    end.
Proof.
  intros Hc Hs Hne; simpl; rewrite Hc, Hs, String.eqb_refl; simpl.
  unfold on_broadcast. apply String.eqb_neq in Hne; rewrite Hne; reflexivity.
Qed.

Lemma delivered_again (b : Browser) (topic : string) (m : Message) (e : Component) :
  signalingChannelRef e = Some topic ->
  subscribed e = true ->
  payload_senderId m <> userId e ->
  signalingChannelRef (step b (Broadcast topic m) e) = Some topic
  /\ subscribed (step b (Broadcast topic m) e) = true
  /\ payload_senderId m <> userId (step b (Broadcast topic m) e).
Proof.
  intros Hc Hs Hne.
  assert (Hw : wiring (step b (Broadcast topic m) e) = wiring e).
  { simpl; rewrite Hc. destruct (subscribed e && (topic =? topic)); [|reflexivity].
    apply wiring_on_broadcast. }
  set (e1 := step b (Broadcast topic m) e) in *.
  unfold wiring in Hw; injection Hw as _ Hu _ _ Hc' Hs' _.
  rewrite Hc', Hs', Hu; auto.
Qed.

(** C3, as stated, fails.  Bob has answered Alice's offer; the transport
    delivers the offer again.  The handler sets it as the remote
    description again and publishes a second answer: the state changes. *)
Lemma C3_offer_delivered_twice_is_answered_twice :
  let once := step willing (Broadcast "webrtc-r1" (from_alice (Offer "o"))) responder in
  let twice := step willing (Broadcast "webrtc-r1" (from_alice (Offer "o"))) once in
  count is_answer_sent (trace once) = 1
  /\ count is_answer_sent (trace twice) = 2
  /\ count (is_set_remote "o") (trace twice) = 2
  /\ twice <> once.
Proof.
  repeat split; try reflexivity.
  intros H; apply (f_equal (fun e => length (trace e))) in H; discriminate.
Qed.

(** C3, amended.  The handlers keep no phase.  An Offer or Answer that is
    delivered a second time is handled as the first: the handler calls
    [setRemoteDescription] with it again, and with a browser that resolves
    its calls the Offer is answered once more and the Answer is set once
    more.  No error leaves the handler: a rejection by the browser is caught
    and logged. *)
Theorem C3_redelivery_is_handled_again :
  forall (b : Browser) (e : Component) (topic : string) (m : Message),
    signalingChannelRef e = Some topic ->
    subscribed e = true ->
    payload_senderId m <> userId e ->
    let once := step b (Broadcast topic m) e in
    let twice := step b (Broadcast topic m) once in
    match data m with
    | Offer d =>
        (exists rest,
            trace twice
            = trace once ++ Called (SetRemoteDescription d)
                                   (resolves b (trace once) (SetRemoteDescription d)) :: rest)
        /\ (obliging b ->
            count is_answer_sent (trace twice) = S (count is_answer_sent (trace once))
            /\ count (is_set_remote d) (trace twice) = S (count (is_set_remote d) (trace once)))
    | Answer d =>
        (exists rest,
            trace twice
            = trace once ++ Called (SetRemoteDescription d)
                                   (resolves b (trace once) (SetRemoteDescription d)) :: rest)
        /\ (obliging b ->
            trace twice = trace once ++ [Called (SetRemoteDescription d) true])
    | IceCandidate _ => True
    end.
Proof.
  intros b e topic m Hc Hs Hne once twice.
  destruct (delivered_again b topic m e Hc Hs Hne) as (Hc1 & Hs1 & Hne1).
  fold once in Hc1, Hs1, Hne1.
  unfold twice; rewrite (delivered b topic m once Hc1 Hs1 Hne1).
  destruct (data m) as [d|d|c] eqn:Hd; [| |exact I].
  - split; [apply handleOffer_sets_remote|].
    intros Hb.
    destruct (handleOffer_obliging b d once topic Hb Hc1) as ([answer H] & _ & _).
    rewrite H, !count_app.
    change (Called (SetRemoteDescription d) true :: queued (iceCandidatesQueue once) ++ ?l)
      with ([Called (SetRemoteDescription d) true] ++ queued (iceCandidatesQueue once) ++ l).
    rewrite !count_app, !count_queued by reflexivity.
    unfold count; simpl. rewrite String.eqb_refl; simpl. split; lia.
  - split; [apply handleAnswer_sets_remote|].
    intros Hb.
    destruct (handleAnswer_obliging b d once Hb) as (H & _ & _).
    rewrite H.
    assert (Hq : iceCandidatesQueue once = []).
    { unfold once; rewrite (delivered b topic m e Hc Hs Hne), Hd.
      apply (handleAnswer_obliging b d e Hb). }
    rewrite Hq; reflexivity.
Qed.

Lemma C3_redelivery_witness :
  let once := step willing (Broadcast "webrtc-r1" (from_bob (Answer "answer"))) awaiting_answer in
  let twice := step willing (Broadcast "webrtc-r1" (from_bob (Answer "answer"))) once in
  trace twice = trace once ++ [Called (SetRemoteDescription "answer") true].
Proof.
  refine (proj2 (C3_redelivery_is_handled_again willing awaiting_answer "webrtc-r1"
                   (from_bob (Answer "answer")) eq_refl eq_refl _) willing_obliging).
  simpl; discriminate.
Defined.

(** *** A capture that fails *)

Lemma cleanup_dead (e : Component) :
  localStreamRef e = None -> peerConnectionRef e = None -> signalingChannelRef e = None ->
  cleanup e = e.
Proof.
  intros H1 H2 H3; unfold cleanup; rewrite H1, H2, H3; reflexivity.
Qed.

Lemma dead_step (b : Browser) (ev : Event) (e : Component) :
  dead e -> dead (step b ev e).
Proof.
  intros (H1 & H2 & H3 & H4 & H5 & H6 & H7).
  assert (He : dead e) by (repeat split; assumption).
  destruct ev as [topic m| |hasStream|candidate|state| | ];
    [simpl; rewrite ?H2, ?H3, ?H4; exact He ..| |].
  - change (step b ClickEndCall e) with (cleanup (emit EndCallReported (cleanup e))).
    rewrite (cleanup_dead e H1 H2 H3).
    rewrite (cleanup_dead (emit EndCallReported e) H1 H2 H3).
    unfold dead; simpl; rewrite !count_app, H6, H7; repeat split; assumption.
  - change (step b Disposed e) with (cleanup e).
    rewrite (cleanup_dead e H1 H2 H3); exact He.
Qed.

Lemma dead_run (b : Browser) (evs : list Event) (e : Component) :
  dead e -> dead (run b evs e).
Proof.
  revert e; induction evs as [|ev evs IH]; intros e He; simpl; auto.
  apply IH, dead_step; assumption.
Qed.

Lemma dead_initializeCall (b : Browser) (room user : string) (initiator : bool) :
  resolves b [] GetUserMedia = false ->
  dead (initializeCall b (mount room user initiator)).
Proof.
  intros H; rewrite (initializeCall_rejected b (mount room user initiator) H).
  repeat split.
Qed.

(** C4.  When the browser rejects [getUserMedia], [initializeCall] leaves
    the status [disconnected] for the user to see, and whatever happens to
    the component afterwards the status stays [disconnected], nothing is
    ever published on the channel, and the capture is not attempted a
    second time. *)
Theorem C4_capture_failure_disconnects_and_publishes_nothing :
  forall (b : Browser) (room user : string) (initiator : bool) (evs : list Event),
    resolves b [] GetUserMedia = false ->
    connectionStatus (initializeCall b (mount room user initiator)) = disconnected
    /\ connectionStatus (run b evs (initializeCall b (mount room user initiator)))
       = disconnected
    /\ count is_sent (trace (run b evs (initializeCall b (mount room user initiator)))) = 0
    /\ count is_capture (trace (run b evs (initializeCall b (mount room user initiator)))) = 1.
Proof.
  intros b room user initiator evs H.
  pose proof (dead_initializeCall b room user initiator H) as H0.
  pose proof (dead_run b evs _ H0) as H1.
  destruct H0 as (_ & _ & _ & _ & H05 & _).
  destruct H1 as (_ & _ & _ & _ & H15 & H16 & H17).
  repeat split; assumption.
Qed.

Lemma C4_capture_failure_witness :
  connectionStatus
    (run denying [OfferTimerFires; Broadcast "webrtc-r1" (from_bob (Answer "answer"))]
         (initializeCall denying (mount "r1" "a" true))) = disconnected
  /\ count is_sent
       (trace (run denying [OfferTimerFires; Broadcast "webrtc-r1" (from_bob (Answer "answer"))]
                   (initializeCall denying (mount "r1" "a" true)))) = 0.
Proof.
  pose proof (C4_capture_failure_disconnects_and_publishes_nothing
                denying "r1" "a" true
                [OfferTimerFires; Broadcast "webrtc-r1" (from_bob (Answer "answer"))]
                eq_refl) as (_ & H1 & H2 & _).
  split; [exact H1 | exact H2].
Defined.

(** *** Teardown *)

Lemma wired_emit (room : string) (e : Component) (x : Effect) :
  wired room e -> wired room (emit x e).
Proof. intros H; exact H. Qed.

Lemma wired_resolved (room : string) (e : Component) (c : Call) :
  wired room e -> wired room (resolved c e).
Proof.
  intros (H1 & H2 & H3); destruct c; try (repeat split; assumption);
    (repeat split; try assumption); simpl;
    destruct (peerConnectionRef e); simpl; congruence.
Qed.

Lemma cleanup_wired (room : string) (e : Component) :
  wired room e ->
  wired room (cleanup e)
  /\ trace (cleanup e)
     = trace e ++ [TrackStopped AudioTrack; TrackStopped VideoTrack;
                   PeerClosed; ChannelRemoved (topic_of room)].
Proof.
  intros (H1 & H2 & H3); unfold cleanup; rewrite H1; simpl.
  destruct (peerConnectionRef e) eqn:E; [|contradiction]; simpl.
  rewrite H3; simpl. split.
  - repeat split; simpl; auto. rewrite E; discriminate.
  - rewrite <- !app_assoc; reflexivity.
Qed.

Lemma wired_step (b : Browser) (room : string) (ev : Event) (e : Component) :
  wired room e -> wired room (step b ev e).
Proof.
  intros He; destruct ev as [topic m| |hasStream|candidate|state| | ]; simpl.
  - destruct (signalingChannelRef e); [|assumption].
    destruct (subscribed e && (topic =? s)); [|assumption].
    apply sturdy_on_broadcast; auto using wired_emit, wired_resolved.
  - destruct (offerTimer e); [|assumption].
    apply sturdy_createOffer; auto using wired_emit, wired_resolved.
  - destruct (peerConnectionRef e) eqn:E; [|assumption].
    destruct hasStream; assumption.
  - destruct (peerConnectionRef e) eqn:E; [|assumption].
    destruct candidate; [|assumption]; simpl.
    destruct (signalingChannelRef e); assumption.
  - destruct (peerConnectionRef e) eqn:E; [|assumption].
    destruct state; assumption.
  - unfold endCall, onEndCall, unmount.
    apply cleanup_wired, wired_emit, cleanup_wired; assumption.
  - apply cleanup_wired; assumption.
Qed.

Lemma wired_run (b : Browser) (room : string) (evs : list Event) (e : Component) :
  wired room e -> wired room (run b evs e).
Proof.
  revert e; induction evs as [|ev evs IH]; intros e He; simpl; auto.
  apply IH, wired_step; assumption.
Qed.

Lemma wired_initializeCall (b : Browser) (room user : string) (initiator : bool) :
  resolves b [] GetUserMedia = true ->
  wired room (initializeCall b (mount room user initiator)).
Proof.
  intros H; rewrite (initializeCall_resolved b (mount room user initiator) H).
  destruct initiator; repeat split; discriminate.
Qed.

Lemma releases_app (t1 t2 : list Effect) :
  releases (t1 ++ t2)
  = match releases t1, releases t2 with
    | (a1, v1, p1, c1), (a2, v2, p2, c2) => (a1 + a2, v1 + v2, p1 + p2, c1 + c2)
    end.
Proof. unfold releases; rewrite !count_app; reflexivity. Qed.

(** C6, as stated, fails.  The user hangs up a call that was established:
    [endCall] runs [cleanup], reports to the chat interface, which stops
    rendering the component, and the disposal runs [cleanup] again: every
    resource is released twice.  A connection that fails releases nothing;
    the status becomes [disconnected] and the resources stay until the user
    hangs up or the component is disposed of. *)
Lemma C6_hang_up_releases_twice :
  releases (trace initiator) = (0, 0, 0, 0)
  /\ releases (trace (step willing ClickEndCall initiator)) = (2, 2, 2, 2)
  /\ releases (trace (step willing (OnConnectionStateChange pc_failed) initiator))
     = (0, 0, 0, 0).
Proof. repeat split. Qed.

(** C6, amended.  After a capture that succeeded and whatever happened
    since, one [cleanup] stops both tracks of the local stream, closes the
    peer connection and removes the channel, each once.  The disposal of
    the component runs one [cleanup]; a hang-up runs two, its own and the
    one of the disposal it causes.  A failed connection sets the status to
    [disconnected] and runs none. *)
Theorem C6_each_cleanup_releases_every_resource_once :
  forall (b : Browser) (room user : string) (initiator : bool) (evs : list Event),
    resolves b [] GetUserMedia = true ->
    let e := run b evs (initializeCall b (mount room user initiator)) in
    releases (trace (cleanup e)) = more 1 (releases (trace e))
    /\ releases (trace (step b Disposed e)) = more 1 (releases (trace e))
    /\ releases (trace (step b ClickEndCall e)) = more 2 (releases (trace e))
    /\ trace (step b (OnConnectionStateChange pc_failed) e) = trace e
    /\ connectionStatus (step b (OnConnectionStateChange pc_failed) e) = disconnected.
Proof.
  intros b room user initiator evs H e.
  assert (He : wired room e)
    by (apply wired_run, wired_initializeCall; assumption).
  destruct (cleanup_wired room e He) as [Hw1 Ht1].
  assert (H1 : releases (trace (cleanup e)) = more 1 (releases (trace e))).
  { rewrite Ht1, releases_app.
    destruct (releases (trace e)) as [[[a v] p] c]; unfold releases, count; simpl.
    f_equal; [f_equal; [f_equal|]|]; lia. }
  split; [exact H1|]; split; [exact H1|]; split.
  - change (step b ClickEndCall e) with (cleanup (emit EndCallReported (cleanup e))).
    destruct (cleanup_wired room (emit EndCallReported (cleanup e))
                            (wired_emit room _ _ Hw1)) as [_ Ht2].
    rewrite Ht2.
    change (trace (emit EndCallReported (cleanup e)))
      with (trace (cleanup e) ++ [EndCallReported]).
    rewrite Ht1, !releases_app.
    destruct (releases (trace e)) as [[[a v] p] c]; unfold releases, count; simpl.
    f_equal; [f_equal; [f_equal|]|]; lia.
  - destruct He as (_ & Hpc & _); simpl.
    destruct (peerConnectionRef e); [split; reflexivity | contradiction].
Qed.

Lemma C6_cleanup_witness :
  releases (trace (step willing Disposed awaiting_answer)) = (1, 1, 1, 1)
  /\ releases (trace (step willing ClickEndCall awaiting_answer)) = (2, 2, 2, 2).
Proof.
  pose proof (C6_each_cleanup_releases_every_resource_once
                willing "r1" "a" true
                [OfferTimerFires;
                 Broadcast "webrtc-r1" (from_bob (IceCandidate "c1"));
                 Broadcast "webrtc-r1" (from_bob (IceCandidate "c2"))]
                eq_refl) as (_ & H1 & H2 & _).
  split; [exact H1 | exact H2].
Defined.

(** *** Whose messages are handled *)

Lemma topic_of_injective (r1 r2 : string) : topic_of r1 = topic_of r2 -> r1 = r2.
Proof. unfold topic_of; simpl; intros H; injection H; auto. Qed.

(** C7, as stated, fails.  A message whose payload names room r2 reaches
    the channel of room r1 from another sender: the handler takes it and the
    candidate is queued. *)
Lemma C7_other_room_id_is_handled :
  payload_roomId stale <> roomId responder
  /\ iceCandidatesQueue responder = []
  /\ iceCandidatesQueue (step willing (Broadcast "webrtc-r1" stale) responder) = ["c1"].
Proof. repeat split; simpl; discriminate. Qed.

(** C7, amended.  A handler takes a message only if its [senderId] differs
    from the component's [userId]: an echo of its own changes nothing.  The
    [roomId] of the payload is not read: whatever it is, the message is
    handled the same.  Rooms are kept apart by the channel: the component
    subscribes to the topic of its own room, a broadcast on another topic
    does not reach it, different rooms have different topics, and what the
    component publishes goes to its own topic, stamped with its [userId] and
    [roomId]. *)
Theorem C7_only_messages_of_others_on_the_own_channel :
  forall (b : Browser) (e : Component) (topic : string) (m : Message),
    (payload_senderId m = userId e -> step b (Broadcast topic m) e = e)
    /\ (forall mine, signalingChannelRef e = Some mine -> topic <> mine ->
                     step b (Broadcast topic m) e = e)
    /\ (forall room',
           step b (Broadcast topic {| data := data m;
                                      payload_senderId := payload_senderId m;
                                      payload_roomId := room' |}) e
           = step b (Broadcast topic m) e)
    /\ signalingChannelRef (snd (setupSignalingChannel e)) = Some (topic_of (roomId e))
    /\ (forall room', room' <> roomId e -> topic_of room' <> topic_of (roomId e))
    /\ (forall d mine, signalingChannelRef e = Some mine ->
                       trace (snd (sendSignalingMessage d e))
                       = trace e ++ [Sent mine {| data := d;
                                                  payload_senderId := userId e;
                                                  payload_roomId := roomId e |}]).
Proof.
  intros b e topic m; repeat split.
  - intros H; simpl. destruct (signalingChannelRef e); [|reflexivity].
    destruct (subscribed e && (topic =? s)); [|reflexivity].
    unfold on_broadcast; rewrite H, String.eqb_refl; reflexivity.
  - intros mine Hc Hne; simpl; rewrite Hc.
    apply String.eqb_neq in Hne; rewrite Hne, andb_false_r; reflexivity.
  - intros room' Hne E; apply Hne, topic_of_injective; exact E.
  - intros d mine Hc; simpl; rewrite Hc; reflexivity.
Qed.

Lemma C7_own_echo_witness :
  step willing (Broadcast "webrtc-r1" (from_bob (Offer "o"))) responder = responder
  /\ step willing (Broadcast "webrtc-r2" (from_alice (Offer "o"))) responder = responder.
Proof.
  pose proof (C7_only_messages_of_others_on_the_own_channel
                willing responder "webrtc-r1" (from_bob (Offer "o"))) as (H1 & _).
  pose proof (C7_only_messages_of_others_on_the_own_channel
                willing responder "webrtc-r2" (from_alice (Offer "o"))) as (_ & H2 & _).
  split; [exact (H1 eq_refl) | apply (H2 "webrtc-r1" eq_refl); discriminate].
Defined.

(** *** What is published *)

Section Careful.

Variable b : Browser.
Variable I : Component -> Prop.

Hypothesis I_called : forall e c ok, I e -> I (emit (Called c ok) e).
Hypothesis I_resolved : forall e c, I e -> I (resolved c e).
Hypothesis I_queue : forall e x, I e -> I (set_iceCandidatesQueue x e).
Hypothesis I_error : forall e, I e -> I (emit ErrorLogged e).
Hypothesis I_answer :
  forall e topic answer,
    I e -> signalingChannelRef e = Some topic ->
    I (emit (Sent topic {| data := Answer answer;
                           payload_senderId := userId e;
                           payload_roomId := roomId e |}) e).

Lemma careful_await (c : Call) : keeps I (await b c).
Proof. apply keeps_await; intros e He; [apply I_resolved | apply I_called]; assumption. Qed.

Lemma careful_processQueued : keeps I (processQueued b).
Proof.
  intros e He; unfold processQueued.
  apply (keeps_drain b I (iceCandidatesQueue e)); auto.
  intros c; apply careful_await.
Qed.

Lemma careful_on_broadcast (m : Message) (e : Component) :
  I e -> I (on_broadcast b m e).
Proof.
  intros He; unfold on_broadcast.
  destruct (negb _); [|assumption].
  destruct (data m) as [offer|answer|candidate].
  - revert e He; apply keeps_try_catch; [|exact I_error].
    apply keeps_bind; [apply careful_await|]; intros _.
    apply keeps_bind; [apply careful_processQueued|]; intros _.
    apply keeps_bind; [apply keeps_create, careful_await|]; intros answer.
    apply keeps_bind; [apply careful_await|]; intros _.
    intros e He; simpl. destruct (signalingChannelRef e) eqn:E; auto.
  - revert e He; apply keeps_try_catch; [|exact I_error].
    apply keeps_bind; [apply careful_await|]; intros _.
    apply careful_processQueued.
  - revert e He; apply keeps_try_catch; [|exact I_error].
    intros e He. destruct (hasRemoteDescription e).
    + apply careful_await; assumption.
    + simpl; apply I_queue; assumption.
Qed.

End Careful.

Lemma cleanup_keeps (I : Component -> Prop) (e : Component) :
  (forall e x, is_sent x = false -> is_add x = false -> I e -> I (emit x e)) ->
  (forall e t, I e -> signalingChannelRef e = Some t -> I (set_channel (Some t) false e)) ->
  I e -> I (cleanup e).
Proof.
  intros Hemit Hch He; unfold cleanup.
  set (e1 := match localStreamRef e with Some _ => _ | None => e end).
  assert (H1 : I e1).
  { unfold e1; destruct (localStreamRef e) as [tracks|]; [|assumption].
    apply fold_emit; auto. }
  set (e2 := match peerConnectionRef e1 with Some _ => _ | None => e1 end).
  assert (H2 : I e2).
  { unfold e2; destruct (peerConnectionRef e1); auto. }
  destruct (signalingChannelRef e2) as [topic|] eqn:E; [|assumption].
  apply Hch; [apply Hemit; auto | exact E].
Qed.

Lemma createOffer_cases (b : Browser) (e : Component) :
  createOffer b e =
  if resolves b (trace e) CreateOffer
  then if resolves b (trace (resolved CreateOffer e))
                   (SetLocalDescription (describes b (trace e)))
       then snd (sendSignalingMessage
                   (Offer (describes b (trace e)))
                   (resolved (SetLocalDescription (describes b (trace e)))
                             (resolved CreateOffer e)))
       else consoleError (rejected (SetLocalDescription (describes b (trace e)))
                                   (resolved CreateOffer e))
  else consoleError (rejected CreateOffer e).
Proof.
  unfold createOffer; rewrite try_catch_create.
  destruct (resolves b (trace e) CreateOffer); [|reflexivity].
  rewrite try_catch_await.
  destruct (resolves b (trace (resolved CreateOffer e)) _); reflexivity.
Qed.

Lemma count_snoc (p : Effect -> bool) (t : list Effect) (x : Effect) :
  count p (t ++ [x]) = count p t + (if p x then 1 else 0).
Proof. rewrite count_app; unfold count; simpl; destruct (p x); reflexivity. Qed.

Lemma orderly_emit (room user : string) (e : Component) (x : Effect) :
  stamped room user x -> is_offer_sent x = false ->
  orderly room user e -> orderly room user (emit x e).
Proof.
  intros Hx Ho (H1 & H2 & H3 & H4 & H5); repeat split; simpl; try assumption.
  - apply Forall_app; split; [assumption | constructor; [assumption | constructor]].
  - rewrite count_snoc, Ho; lia.
Qed.

Lemma orderly_resolved (room user : string) (e : Component) (c : Call) :
  orderly room user e -> orderly room user (resolved c e).
Proof.
  intros H; pose proof (orderly_emit room user e (Called c true) I eq_refl H) as H'.
  destruct c; exact H'.
Qed.

Lemma orderly_send (room user : string) (e : Component) (d : Data) :
  (forall offer, d <> Offer offer) ->
  orderly room user e -> orderly room user (snd (sendSignalingMessage d e)).
Proof.
  intros Hd He; simpl. destruct (signalingChannelRef e) as [topic|] eqn:E; [|assumption].
  pose proof He as (H1 & H2 & H3 & _).
  apply orderly_emit; [|destruct d; try reflexivity; exfalso; eapply Hd; reflexivity|assumption].
  simpl; repeat split; try assumption.
  destruct H3 as [H3|H3]; congruence.
Qed.

Lemma orderly_offer_sent (room user : string) (e : Component) (d : Sdp) :
  userId e = user -> roomId e = room ->
  (signalingChannelRef e = None \/ signalingChannelRef e = Some (topic_of room)) ->
  Forall (stamped room user) (trace e) ->
  offerTimer e = false ->
  count is_offer_sent (trace e) + 1 <= (if isInitiator e then 1 else 0) ->
  orderly room user (snd (sendSignalingMessage (Offer d) e)).
Proof.
  intros H1 H2 H3 H4 Ht H5; simpl.
  destruct (signalingChannelRef e) as [topic|] eqn:E.
  - repeat split; simpl; try assumption.
    + rewrite E; exact H3.
    + apply Forall_app; split; [assumption|].
      constructor; [|constructor]. simpl; repeat split; try assumption.
      destruct H3 as [H3|H3]; congruence.
    + rewrite count_snoc, Ht; simpl. lia.
  - repeat split; try assumption.
    + rewrite E; exact H3.
    + rewrite Ht; lia.
Qed.

Lemma orderly_createOffer (b : Browser) (room user : string) (e : Component) :
  orderly room user e -> offerTimer e = true ->
  orderly room user (createOffer b (set_offerTimer false e)).
Proof.
  intros (H1 & H2 & H3 & H4 & H5) Ht; rewrite Ht in H5.
  assert (He : orderly room user (set_offerTimer false e))
    by (repeat split; simpl; try assumption; lia).
  rewrite createOffer_cases.
  destruct (resolves b _ CreateOffer).
  - destruct (resolves b _ (SetLocalDescription _)).
    + pose proof (orderly_resolved room user _ (SetLocalDescription
                    (describes b (trace (set_offerTimer false e))))
                    (orderly_resolved room user _ CreateOffer He))
        as (G1 & G2 & G3 & G4 & _).
      apply orderly_offer_sent; try assumption; try reflexivity.
      rewrite !trace_resolved, !count_snoc; simpl.
      change (isInitiator (set_offerTimer false e)) with (isInitiator e). lia.
    + apply orderly_emit; [exact I | reflexivity|].
      apply orderly_emit; [exact I | reflexivity|].
      apply orderly_resolved; exact He.
  - apply orderly_emit; [exact I | reflexivity|].
    apply orderly_emit; [exact I | reflexivity | exact He].
Qed.

Lemma not_sent_stamped (room user : string) (x : Effect) :
  is_sent x = false -> stamped room user x /\ is_offer_sent x = false.
Proof. destruct x; simpl; intros H; try discriminate H; split; auto. Qed.

Lemma orderly_cleanup (room user : string) (e : Component) :
  orderly room user e -> orderly room user (cleanup e).
Proof.
  apply cleanup_keeps.
  - intros x y Hs _ H. destruct (not_sent_stamped room user y Hs).
    apply orderly_emit; assumption.
  - intros x t (H1 & H2 & H3 & H4 & H5) Hc; repeat split; simpl; try assumption.
    rewrite <- Hc; exact H3.
Qed.

Lemma orderly_step (b : Browser) (room user : string) (ev : Event) (e : Component) :
  orderly room user e -> orderly room user (step b ev e).
Proof.
  intros He; destruct ev as [topic m| |hasStream|candidate|state| | ].
  - simpl. destruct (signalingChannelRef e); [|assumption].
    destruct (subscribed e && (topic =? s)); [|assumption].
    apply careful_on_broadcast.
    + intros; apply orderly_emit; [exact I | reflexivity | assumption].
    + intros; apply orderly_resolved; assumption.
    + intros x q (H1 & H2 & H3 & H4 & H5); repeat split; assumption.
    + intros; apply orderly_emit; [exact I | reflexivity | assumption].
    + intros x t answer Hx Hc.
      pose proof (orderly_send room user x (Answer answer)) as Hsend.
      simpl in Hsend; rewrite Hc in Hsend. apply Hsend; [discriminate | exact Hx].
    + exact He.
  - simpl. destruct (offerTimer e) eqn:Ht; [|assumption].
    apply orderly_createOffer; assumption.
  - simpl. destruct (peerConnectionRef e); [|assumption].
    destruct hasStream; [|assumption].
    destruct He as (H1 & H2 & H3 & H4 & H5); repeat split; assumption.
  - simpl. destruct (peerConnectionRef e); [|assumption].
    destruct candidate; [|assumption].
    apply orderly_send; [discriminate | assumption].
  - simpl. destruct (peerConnectionRef e); [|assumption].
    destruct state; try assumption;
      destruct He as (H1 & H2 & H3 & H4 & H5); repeat split; assumption.
  - change (step b ClickEndCall e) with (cleanup (emit EndCallReported (cleanup e))).
    apply orderly_cleanup, orderly_emit; [exact I | reflexivity|].
    apply orderly_cleanup; assumption.
  - change (step b Disposed e) with (cleanup e).
    apply orderly_cleanup; assumption.
Qed.

Lemma orderly_run (b : Browser) (room user : string) (evs : list Event) (e : Component) :
  orderly room user e -> orderly room user (run b evs e).
Proof.
  revert e; induction evs as [|ev evs IH]; intros e He; simpl; auto.
  apply IH, orderly_step; assumption.
Qed.

Lemma orderly_initializeCall (b : Browser) (room user : string) (initiator : bool) :
  orderly room user (initializeCall b (mount room user initiator))
  /\ isInitiator (initializeCall b (mount room user initiator)) = initiator.
Proof.
  destruct (resolves b (trace (mount room user initiator)) GetUserMedia) eqn:H.
  - rewrite (initializeCall_resolved b _ H).
    destruct initiator; (split; [|reflexivity]);
      (repeat split; [right; reflexivity | repeat constructor | simpl; lia]).
  - rewrite (initializeCall_rejected b _ H).
    split; [|reflexivity].
    repeat split; [left; reflexivity | repeat constructor | simpl; lia].
Qed.

Lemma isInitiator_run (b : Browser) (evs : list Event) (e : Component) :
  isInitiator (run b evs e) = isInitiator e.
Proof.
  revert e; induction evs as [|ev evs IH]; intros e; simpl; [reflexivity|].
  rewrite IH.
  destruct ev as [topic m| |hasStream|candidate|state| | ]; simpl.
  - destruct (signalingChannelRef e); [|reflexivity].
    destruct (subscribed e && (topic =? s)); [|reflexivity].
    pose proof (wiring_on_broadcast b m e) as Hw.
    unfold wiring in Hw; injection Hw as _ _ Hi _ _ _ _; exact Hi.
  - destruct (offerTimer e); [|reflexivity].
    pose proof (wiring_createOffer b (set_offerTimer false e)) as Hw.
    unfold wiring in Hw; injection Hw as _ _ Hi _ _ _ _; exact Hi.
  - destruct (peerConnectionRef e); [|reflexivity]. destruct hasStream; reflexivity.
  - destruct (peerConnectionRef e); [|reflexivity].
    destruct candidate; [|reflexivity]; simpl.
    destruct (signalingChannelRef e); reflexivity.
  - destruct (peerConnectionRef e); [|reflexivity]. destruct state; reflexivity.
  - unfold endCall, onEndCall, unmount.
    apply (cleanup_keeps (fun x => isInitiator x = isInitiator e)); auto.
    simpl. apply (cleanup_keeps (fun x => isInitiator x = isInitiator e)); auto.
  - unfold unmount.
    apply (cleanup_keeps (fun x => isInitiator x = isInitiator e)); auto.
Qed.

(** Whatever the browser does and whatever happens to the component, a
    responder never publishes an offer and an initiator publishes at most
    one. *)
Theorem at_most_one_offer_and_none_from_a_responder :
  forall (b : Browser) (room user : string) (initiator : bool) (evs : list Event),
    count is_offer_sent (trace (run b evs (initializeCall b (mount room user initiator))))
    <= (if initiator then 1 else 0).
Proof.
  intros b room user initiator evs.
  destruct (orderly_initializeCall b room user initiator) as [H0 Hi].
  pose proof (orderly_run b room user evs _ H0) as (_ & _ & _ & _ & H5).
  rewrite isInitiator_run, Hi in H5. lia.
Qed.

(** Whatever the browser does and whatever happens to the component,
    everything it publishes goes to the topic of its own room and carries
    its own [userId] and [roomId]. *)
Theorem everything_published_is_stamped :
  forall (b : Browser) (room user : string) (initiator : bool) (evs : list Event)
         (topic : string) (m : Message),
    In (Sent topic m) (trace (run b evs (initializeCall b (mount room user initiator)))) ->
    topic = topic_of room /\ payload_senderId m = user /\ payload_roomId m = room.
Proof.
  intros b room user initiator evs topic m Hin.
  destruct (orderly_initializeCall b room user initiator) as [H0 _].
  pose proof (orderly_run b room user evs _ H0) as (_ & _ & _ & H4 & _).
  rewrite Forall_forall in H4. exact (H4 _ Hin).
Qed.

Lemma everything_published_witness :
  "webrtc-r1" = topic_of "r1" /\ "a" = "a" /\ "r1" = "r1".
Proof.
  refine (everything_published_is_stamped
            willing "r1" "a" true [OfferTimerFires] "webrtc-r1"
            {| data := Offer "sdp"; payload_senderId := "a"; payload_roomId := "r1" |} _).
  simpl; right; right; right; right; right; right; right; left; reflexivity.
Defined.

(** *** The mute buttons *)

Lemma first_track_flip_same (k : TrackKind) (tracks : list (TrackKind * bool)) (on : bool) :
  first_track k tracks = Some on ->
  first_track k (flip_first k tracks) = Some (negb on).
Proof.
  induction tracks as [|[k' on'] rest IH]; simpl; [discriminate|].
  destruct (same_kind k k') eqn:E; simpl; rewrite E.
  - intros H; injection H as ->; reflexivity.
  - exact IH.
Qed.

Lemma first_track_flip_other (k k' : TrackKind) (tracks : list (TrackKind * bool)) :
  same_kind k k' = false ->
  first_track k (flip_first k' tracks) = first_track k tracks.
Proof.
  intros Hk; induction tracks as [|[k0 on0] rest IH]; simpl; [reflexivity|].
  destruct (same_kind k' k0) eqn:E; simpl.
  - destruct (same_kind k k0) eqn:E0; [|reflexivity].
    destruct k, k', k0; discriminate.
  - destruct (same_kind k k0); [reflexivity | exact IH].
Qed.

Lemma flip_first_twice (k : TrackKind) (tracks : list (TrackKind * bool)) :
  flip_first k (flip_first k tracks) = tracks.
Proof.
  induction tracks as [|[k' on'] rest IH]; simpl; [reflexivity|].
  destruct (same_kind k k') eqn:E; simpl; rewrite E.
  - rewrite negb_involutive; reflexivity.
  - rewrite IH; reflexivity.
Qed.

Lemma in_tune_press (c : Controls) (b : Button) : in_tune c -> in_tune (press c b).
Proof.
  unfold in_tune; destruct b; simpl; unfold toggleVideo, toggleAudio;
    destruct (stream c) as [tracks|] eqn:Es; rewrite ?Es; auto; intros [Hv Ha].
  - rewrite Hv; simpl. split.
    + apply first_track_flip_same; assumption.
    + rewrite first_track_flip_other by reflexivity; assumption.
  - rewrite Ha; simpl. split.
    + rewrite first_track_flip_other by reflexivity; assumption.
    + apply first_track_flip_same; assumption.
Qed.

(** Starting from controls whose two flags say what the tracks say, as
    after the capture, the flags go on saying so whatever buttons are
    pressed; pressing a button twice changes nothing; and a button changes
    neither the flag nor the track of the other kind. *)
Theorem mute_flags_follow_the_tracks :
  forall (c : Controls) (buttons : list Button),
    in_tune c ->
    in_tune (fold_left press buttons c)
    /\ (forall b, press (press c b) b = c)
    /\ isAudioEnabled (toggleVideo c) = isAudioEnabled c
    /\ isVideoEnabled (toggleAudio c) = isVideoEnabled c.
Proof.
  intros c buttons Hc; split; [|split; [|split]].
  - revert c Hc; induction buttons as [|b bs IH]; intros c Hc; simpl; auto.
    apply IH, in_tune_press; assumption.
  - intros b; destruct c as [[tracks|] v a]; unfold in_tune in Hc; simpl in Hc;
      [|destruct b; reflexivity].
    destruct Hc as [Hv Ha].
    destruct b; unfold press, toggleVideo, toggleAudio; simpl.
    + rewrite Hv; simpl. rewrite (first_track_flip_same _ _ _ Hv); simpl.
      rewrite flip_first_twice, negb_involutive; reflexivity.
    + rewrite Ha; simpl. rewrite (first_track_flip_same _ _ _ Ha); simpl.
      rewrite flip_first_twice, negb_involutive; reflexivity.
  - unfold toggleVideo; destruct (stream c); [destruct (first_track _ _)|]; reflexivity.
  - unfold toggleAudio; destruct (stream c); [destruct (first_track _ _)|]; reflexivity.
Qed.

Lemma mute_flags_witness :
  in_tune (fold_left press [VideoButton; AudioButton; VideoButton]
                     {| stream := Some [(AudioTrack, true); (VideoTrack, true)];
                        isVideoEnabled := true; isAudioEnabled := true |}).
Proof.
  apply mute_flags_follow_the_tracks.
  split; reflexivity.
Defined.

End VideoCallProofs.

Module InterleavedProofs.

Import VideoCall.
Import Scenarios.

(** *** What the code between two awaits leaves alone *)

Lemma frame_refl (e : Component) : frame e e.
Proof. repeat split; auto. Qed.

Lemma frame_trans (e1 e2 e3 : Component) : frame e1 e2 -> frame e2 e3 -> frame e1 e3.
Proof.
  intros (A1 & A2 & A3 & A4 & A5) (B1 & B2 & B3 & B4 & B5).
  repeat split; try congruence; try tauto.
Qed.

Lemma kept_refl (e : Component) : kept e e.
Proof. split; [apply frame_refl | reflexivity]. Qed.

Lemma kept_trans (e1 e2 e3 : Component) : kept e1 e2 -> kept e2 e3 -> kept e1 e3.
Proof.
  intros [F1 H1] [F2 H2]; split; [exact (frame_trans _ _ _ F1 F2) | congruence].
Qed.

Lemma kept_emit (x : Effect) (e : Component) : kept e (emit x e).
Proof. repeat split; auto. Qed.

Lemma kept_fold_emit (f : TrackKind -> Effect) (ks : list TrackKind) (e : Component) :
  kept e (fold_left (fun acc k => emit (f k) acc) ks e).
Proof.
  revert e; induction ks as [|k ks IH]; intros e; simpl; [apply kept_refl|].
  exact (kept_trans _ _ _ (kept_emit (f k) e) (IH _)).
Qed.

Lemma kept_rejected (c : Call) (e : Component) : kept e (rejected c e).
Proof. apply kept_emit. Qed.

Lemma kept_consoleError (e : Component) : kept e (consoleError e).
Proof. apply kept_emit. Qed.

Lemma kept_send (d : Data) (e : Component) : kept e (snd (sendSignalingMessage d e)).
Proof.
  unfold sendSignalingMessage, modify; simpl.
  destruct (signalingChannelRef e); [apply kept_emit | apply kept_refl].
Qed.

Lemma kept_timer_off (e : Component) : kept e (set_offerTimer false e).
Proof. repeat split; auto; simpl; discriminate. Qed.

Lemma kept_status (x : ConnectionStatus) (e : Component) : kept e (setConnectionStatus x e).
Proof. repeat split; auto. Qed.

Lemma kept_stream (x : bool) (e : Component) : kept e (setRemoteStreamReceived x e).
Proof. repeat split; auto. Qed.

Lemma kept_cleanup (e : Component) : kept e (cleanup e).
Proof.
  unfold cleanup.
  set (e1 := match localStreamRef e with
             | Some tracks => fold_left (fun acc k => emit (TrackStopped k) acc) tracks e
             | None => e
             end).
  assert (K1 : kept e e1).
  { unfold e1; destruct (localStreamRef e); [apply kept_fold_emit | apply kept_refl]. }
  set (e2 := match peerConnectionRef e1 with Some _ => emit PeerClosed e1 | None => e1 end).
  assert (K2 : kept e1 e2).
  { unfold e2; destruct (peerConnectionRef e1); [apply kept_emit | apply kept_refl]. }
  apply (kept_trans _ e2); [exact (kept_trans _ _ _ K1 K2)|].
  destruct (signalingChannelRef e2) as [topic|] eqn:E; [|apply kept_refl].
  apply (kept_trans _ (emit (ChannelRemoved topic) e2)); [apply kept_emit|].
  split; [|reflexivity].
  split; [simpl; tauto|]. split; [simpl; symmetry; exact E|].
  split; [simpl; discriminate|]. split; [auto | reflexivity].
Qed.

Lemma kept_on_event (ev : Event) (e : Component) : kept e (on_event ev e).
Proof.
  destruct ev as [topic m| |hasStream|candidate|state| |]; simpl;
    try apply kept_refl.
  - destruct (peerConnectionRef e); [|apply kept_refl].
    destruct hasStream; [|apply kept_refl].
    exact (kept_trans _ _ _ (kept_stream true e) (kept_status connected _)).
  - destruct (peerConnectionRef e); [|apply kept_refl].
    destruct candidate; [apply kept_send | apply kept_refl].
  - destruct (peerConnectionRef e); [|apply kept_refl].
    destruct state; try apply kept_refl; apply kept_status.
  - unfold endCall, onEndCall, unmount.
    apply (kept_trans _ (cleanup e)); [apply kept_cleanup|].
    apply (kept_trans _ (emit EndCallReported (cleanup e))); [apply kept_emit|].
    apply kept_cleanup.
  - apply kept_cleanup.
Qed.

Lemma frame_resolved (c : Call) (e : Component) : frame e (resolved c e).
Proof.
  unfold resolved; destruct c; repeat split; auto; simpl;
    destruct (peerConnectionRef e); simpl; auto; discriminate.
Qed.

Lemma remote_resolved (c : Call) (e : Component) :
  hasRemoteDescription (resolved c e)
  = match c, peerConnectionRef e with
    | SetRemoteDescription _, Some _ => true
    | _, _ => hasRemoteDescription e
    end.
Proof.
  unfold resolved, hasRemoteDescription; destruct c; simpl;
    destruct (peerConnectionRef e); reflexivity.
Qed.


Lemma kept_resolved (c : Call) (e : Component) :
  (forall d, c <> SetRemoteDescription d) -> kept e (resolved c e).
Proof.
  intros H; split; [apply frame_resolved|].
  rewrite remote_resolved. destruct c; try reflexivity.
  exfalso; exact (H d eq_refl).
Qed.

Lemma remote_grows (c : Call) (e : Component) :
  hasRemoteDescription e = true -> hasRemoteDescription (resolved c e) = true.
Proof.
  intros H; rewrite remote_resolved.
  destruct c; try exact H. destruct (peerConnectionRef e); [reflexivity | exact H].
Qed.

(** *** The calls and the handlers that are stopped *)

Lemma handed_of_app (cs cs' : list Call) :
  handed_of (cs ++ cs') = handed_of cs ++ handed_of cs'.
Proof.
  induction cs as [|c cs IH]; simpl; [reflexivity|].
  destruct c; simpl; rewrite IH; reflexivity.
Qed.

Lemma existsb_remove_nth {A : Type} (f : A -> bool) (l : list A) (k : nat) :
  existsb f (remove_nth k l) = true -> existsb f l = true.
Proof.
  revert k; induction l as [|h t IH]; intros [|k]; simpl; auto.
  - intros H; rewrite H; apply orb_true_r.
  - intros H; apply orb_true_iff in H; apply orb_true_iff.
    destruct H as [H|H]; [left; exact H | right; exact (IH k H)].
Qed.

Lemma existsb_remove_other {A : Type} (f : A -> bool) (l : list A) (k : nat) (x : A) :
  nth_error l k = Some x -> f x = false ->
  existsb f l = true -> existsb f (remove_nth k l) = true.
Proof.
  revert k; induction l as [|h t IH]; intros [|k] Hk Hx; simpl in *; try discriminate.
  - injection Hk as ->; rewrite Hx; auto.
  - intros H; apply orb_true_iff in H; apply orb_true_iff.
    destruct H as [H|H]; [left; exact H | right; exact (IH k Hk Hx H)].
Qed.

Lemma not_in_remove_nth {A : Type} (l : list A) (k : nat) (x : A) :
  ~ In x l -> ~ In x (remove_nth k l).
Proof.
  revert k; induction l as [|h t IH]; intros [|k] H; simpl in *; auto.
  intros [E|Hin]; [apply H; left; exact E | apply (IH k); [|exact Hin]].
  intros Hx; apply H; right; exact Hx.
Qed.

(** *** The phases are kept *)

Lemma under_way_within (f : Component -> Component) (s : Session) :
  frame (component s) (f (component s)) ->
  (hasRemoteDescription (component s) = true ->
   hasRemoteDescription (f (component s)) = true) ->
  under_way s -> under_way (within f s).
Proof.
  intros (F1 & F2 & F3 & F4 & F5) Hr (U1 & U2 & U3 & U4 & U5 & U6).
  unfold under_way, handed, queue in *; simpl.
  split; [exact U1|]. split; [intros H; apply U2, F1; exact H|].
  split; [rewrite F2; exact U3|]. split; [intros H; exact (Hr (U4 H))|].
  split; [intros H; exact (Hr (U5 H))|]. rewrite F5; exact U6.
Qed.

Lemma under_way_kept (f : Component -> Component) (s : Session) :
  kept (component s) (f (component s)) -> under_way s -> under_way (within f s).
Proof.
  intros [F H]; apply under_way_within; [exact F | intros Hr; rewrite H; exact Hr].
Qed.

Lemma under_way_resolved (c : Call) (s : Session) :
  under_way s -> under_way (within (resolved c) s).
Proof.
  apply under_way_within; [apply frame_resolved | apply remote_grows].
Qed.

Lemma under_way_unsuspend (k : nat) (s : Session) :
  under_way s -> under_way (unsuspend k s).
Proof.
  intros (U1 & U2 & U3 & U4 & U5 & U6); unfold under_way, handed, queue in *; simpl.
  split; [apply not_in_remove_nth; exact U1|].
  split; [exact U2|]. split; [exact U3|]. split; [exact U4|].
  split; [intros H; exact (U5 (existsb_remove_nth _ _ _ H)) | exact U6].
Qed.

Lemma under_way_call (p : Suspended) (s : Session) :
  p <> InCapture -> in_drain p = false -> handed_of [awaited p] = [] ->
  under_way s -> under_way (call p s).
Proof.
  intros Hp Hd Hh (U1 & U2 & U3 & U4 & U5 & U6); unfold under_way, handed, queue in *; simpl.
  rewrite handed_of_app, Hh, app_nil_r.
  split; [intros H; apply in_app_iff in H; destruct H as [H|[H|[]]]; [exact (U1 H) | congruence]|].
  split; [exact U2|]. split; [exact U3|]. split; [exact U4|].
  split; [|exact U6].
  rewrite existsb_app; simpl; rewrite Hd; simpl. rewrite orb_false_r; exact U5.
Qed.

Lemma under_way_hand (stop : Candidate -> Suspended) (c : Candidate)
      (rest : list Candidate) (s : Session) :
  stop c <> InCapture -> awaited (stop c) = AddIceCandidate c ->
  hasRemoteDescription (component s) = true ->
  queue s = c :: rest ->
  under_way s ->
  under_way (call (stop c) (within (set_iceCandidatesQueue rest) s)).
Proof.
  intros Hp Ha Hr Hq (U1 & U2 & U3 & U4 & U5 & U6); unfold under_way, handed, queue in *; simpl.
  rewrite handed_of_app, Ha; simpl.
  split; [intros H; apply in_app_iff in H; destruct H as [H|[H|[]]]; [exact (U1 H) | congruence]|].
  split; [exact U2|]. split; [exact U3|]. split; [intros _; exact Hr|].
  split; [intros _; exact Hr|].
  rewrite Hq in U6. rewrite <- app_assoc; exact U6.
Qed.

Lemma under_way_drain_next (stop : Candidate -> Suspended) (after : Session -> Session)
      (s : Session) :
  (forall c, stop c <> InCapture /\ awaited (stop c) = AddIceCandidate c) ->
  hasRemoteDescription (component s) = true ->
  under_way (after s) ->
  under_way s ->
  under_way (drain_next stop after s).
Proof.
  intros Hstop Hr Hafter U; unfold drain_next.
  destruct (queue s) as [|c rest] eqn:E; [exact Hafter|].
  destruct (Hstop c) as [H1 H2]. exact (under_way_hand stop c rest s H1 H2 Hr E U).
Qed.

Lemma under_way_candidate (c : Candidate) (s : Session) :
  under_way s -> under_way (begin_handleIceCandidate c s).
Proof.
  intros (U1 & U2 & U3 & U4 & U5 & U6); unfold begin_handleIceCandidate.
  destruct (hasRemoteDescription (component s)) eqn:Hr;
    unfold under_way, handed, queue in *; simpl.
  - rewrite handed_of_app; simpl.
    split; [intros H; apply in_app_iff in H; destruct H as [H|[H|[]]];
            [exact (U1 H) | discriminate]|].
    split; [exact U2|]. split; [exact U3|]. split; [intros _; exact Hr|].
    split; [intros _; exact Hr|].
    rewrite <- app_assoc; simpl.
    apply Permutation_trans with (c :: handed_of (calls s) ++ iceCandidatesQueue (component s)).
    + symmetry; apply Permutation_middle.
    + apply Permutation_trans with (c :: arrivals s);
        [constructor; exact U6 | apply Permutation_cons_append].
  - split; [exact U1|]. split; [exact U2|]. split; [exact U3|].
    split; [intros H; discriminate (U4 H)|]. split; [intros H; discriminate (U5 H)|].
    rewrite app_assoc; apply Permutation_app_tail; exact U6.
Qed.

Lemma bare_within (f : Component -> Component) (s : Session) :
  kept (component s) (f (component s)) -> bare s -> bare (within f s).
Proof.
  intros [(F1 & F2 & F3 & F4 & F5) _] (B1 & B2 & B3 & B4 & B5 & B6 & B7).
  unfold bare, queue, handed in *; simpl.
  split; [apply F1; exact B1|]. split; [rewrite F2; exact B2|].
  split; [destruct (subscribed (f (component s))) eqn:E;
          [rewrite <- B3; symmetry; apply F3; reflexivity | reflexivity]|].
  split; [destruct (offerTimer (f (component s))) eqn:E;
          [rewrite <- B4; symmetry; apply F4; reflexivity | reflexivity]|].
  split; [rewrite F5; exact B5|]. split; assumption.
Qed.

Lemma wire_up_fields (e : Component) :
  peerConnectionRef (wire_up e)
  = Some {| remoteDescription := None; localDescription := None |}
  /\ signalingChannelRef (wire_up e) = Some (topic_of (roomId e))
  /\ subscribed (wire_up e) = true
  /\ iceCandidatesQueue (wire_up e) = iceCandidatesQueue e
  /\ offerTimer (wire_up e) = (isInitiator e || offerTimer e).
Proof.
  unfold wire_up; simpl. destruct (isInitiator e); repeat split.
Qed.

Lemma under_way_wire_up (s : Session) :
  suspended s = [] -> bare s ->
  under_way (within wire_up (within (resolved GetUserMedia) s)).
Proof.
  intros Hs (B1 & B2 & B3 & B4 & B5 & B6 & B7).
  destruct (wire_up_fields (resolved GetUserMedia (component s)))
    as (W1 & W2 & W3 & W4 & W5).
  unfold under_way, handed, queue in *; cbn [within component suspended calls arrivals].
  rewrite Hs, B6, B7, W1, W2, W4.
  change (iceCandidatesQueue (resolved GetUserMedia (component s)))
    with (iceCandidatesQueue (component s)).
  rewrite B5.
  split; [intros []|]. split; [discriminate|]. split; [discriminate|].
  split; [intros H; contradiction H; reflexivity|].
  split; [discriminate | constructor].
Qed.

Lemma stops_in_loop :
  (forall c, InOfferDrain c <> InCapture /\ awaited (InOfferDrain c) = AddIceCandidate c)
  /\ (forall c, InAnswerDrain c <> InCapture /\ awaited (InAnswerDrain c) = AddIceCandidate c).
Proof. split; intros c; split; (discriminate || reflexivity). Qed.

Lemma under_way_continue (p : Suspended) (ok : bool) (d : Sdp) (s : Session) :
  p <> InCapture ->
  (in_drain p = true -> hasRemoteDescription (component s) = true) ->
  under_way s -> under_way (continue p ok d s).
Proof.
  intros Hp Hd U; unfold continue.
  destruct ok.
  - pose proof (under_way_resolved (awaited p) s U) as U1.
    assert (Hr : (exists x, awaited p = SetRemoteDescription x) \/ in_drain p = true ->
                 hasRemoteDescription (component (within (resolved (awaited p)) s)) = true).
    { intros [[x Hx]|H]; simpl.
      - rewrite remote_resolved, Hx.
        destruct U as (_ & U2 & _).
        destruct (peerConnectionRef (component s)); [reflexivity | contradiction U2; reflexivity].
      - apply remote_grows; exact (Hd H). }
    destruct p; [exfalso; apply Hp; reflexivity | | | | | | | | |].
    + apply under_way_call; [discriminate | reflexivity | reflexivity | exact U1].
    + apply under_way_kept; [apply kept_send | exact U1].
    + apply under_way_drain_next;
        [exact (proj1 stops_in_loop) | apply Hr; left; eexists; reflexivity | | exact U1].
      apply under_way_call; [discriminate | reflexivity | reflexivity | exact U1].
    + apply under_way_drain_next;
        [exact (proj1 stops_in_loop) | apply Hr; right; reflexivity | | exact U1].
      apply under_way_call; [discriminate | reflexivity | reflexivity | exact U1].
    + apply under_way_call; [discriminate | reflexivity | reflexivity | exact U1].
    + apply under_way_kept; [apply kept_send | exact U1].
    + apply under_way_drain_next;
        [exact (proj2 stops_in_loop) | apply Hr; left; eexists; reflexivity | exact U1 | exact U1].
    + apply under_way_drain_next;
        [exact (proj2 stops_in_loop) | apply Hr; right; reflexivity | exact U1 | exact U1].
    + exact U1.
  - assert (U1 : under_way (within (rejected (awaited p)) s))
      by (apply under_way_kept; [apply kept_rejected | exact U]).
    destruct p; [exfalso; apply Hp; reflexivity | | | | | | | | |];
      (apply under_way_kept; [apply kept_consoleError | exact U1]).
Qed.

Lemma nth_error_singleton {A : Type} (x y : A) (k : nat) :
  nth_error [x] k = Some y -> k = 0 /\ y = x.
Proof.
  destruct k as [|k]; simpl; [intros H; injection H as <-; auto|].
  destruct k; discriminate.
Qed.

Lemma in_drain_nth (l : list Suspended) (k : nat) (p : Suspended) :
  nth_error l k = Some p -> in_drain p = true -> existsb in_drain l = true.
Proof.
  intros Hk Hp; apply existsb_exists; exists p; split; [exact (nth_error_In _ _ Hk) | exact Hp].
Qed.

Lemma sound_tick (t : Tick) (s : Session) : sound s -> sound (tick t s).
Proof.
  intros [[Hs B]|[[Hs B]|U]].
  - (* the capture is pending *)
    destruct t as [ev|k ok d]; cbn [tick].
    + destruct B as (B1 & B2 & B3 & B4 & B5 & B6 & B7).
      assert (Hh : forall topic m, heard topic m (component s) = false)
        by (intros topic m; unfold heard; rewrite B2; reflexivity).
      destruct ev as [topic m| |hasStream|candidate|state| |];
        try (left; split; [exact Hs|]; apply bare_within;
             [apply kept_on_event | repeat split; assumption]).
      * rewrite Hh; left; split; [exact Hs | repeat split; assumption].
      * rewrite B4; left; split; [exact Hs | repeat split; assumption].
    + rewrite Hs. destruct (nth_error [InCapture] k) as [p|] eqn:E;
        [|left; split; assumption].
      destruct (nth_error_singleton _ _ _ E) as [-> ->].
      assert (B' : bare (unsuspend 0 s)) by exact B.
      assert (Hs' : suspended (unsuspend 0 s) = []) by (simpl; rewrite Hs; reflexivity).
      destruct ok; unfold continue; cbn [awaited].
      * right; right. exact (under_way_wire_up _ Hs' B').
      * right; left. split; [exact Hs'|].
        apply bare_within; [|apply bare_within; [apply kept_rejected | exact B']].
        exact (kept_trans _ _ _ (kept_consoleError _) (kept_status disconnected _)).
  - (* the capture has failed *)
    right; left.
    destruct t as [ev|k ok d]; cbn [tick].
    + destruct B as (B1 & B2 & B3 & B4 & B5 & B6 & B7).
      assert (Hh : forall topic m, heard topic m (component s) = false)
        by (intros topic m; unfold heard; rewrite B2; reflexivity).
      destruct ev as [topic m| |hasStream|candidate|state| |];
        try (split; [exact Hs|]; apply bare_within;
             [apply kept_on_event | repeat split; assumption]).
      * rewrite Hh; split; [exact Hs | repeat split; assumption].
      * rewrite B4; split; [exact Hs | repeat split; assumption].
    + rewrite Hs; destruct k; simpl; split; assumption.
  - (* the component is wired up *)
    right; right.
    destruct t as [ev|k ok d]; cbn [tick].
    + destruct ev as [topic m| |hasStream|candidate|state| |];
        try (apply under_way_kept; [apply kept_on_event | exact U]).
      * destruct (heard topic m (component s)); [|exact U].
        destruct (data m).
        -- apply under_way_call; [discriminate | reflexivity | reflexivity | exact U].
        -- apply under_way_call; [discriminate | reflexivity | reflexivity | exact U].
        -- apply under_way_candidate; exact U.
      * destruct (offerTimer (component s)); [|exact U].
        apply under_way_call; [discriminate | reflexivity | reflexivity|].
        apply under_way_kept; [apply kept_timer_off | exact U].
    + destruct (nth_error (suspended s) k) as [p|] eqn:E; [|exact U].
      apply under_way_continue.
      * intros ->. destruct U as (U1 & _). apply U1; exact (nth_error_In _ _ E).
      * intros Hp; simpl. destruct U as (_ & _ & _ & _ & U5 & _).
        apply U5; exact (in_drain_nth _ _ _ E Hp).
      * apply under_way_unsuspend; exact U.
Qed.


Lemma sound_start (room user : string) (initiator : bool) :
  sound (start room user initiator).
Proof. left; repeat split. Qed.

Lemma sound_play (ts : list Tick) (s : Session) : sound s -> sound (play ts s).
Proof.
  revert s; induction ts as [|t ts IH]; intros s H; simpl; [exact H|].
  apply IH, sound_tick; exact H.
Qed.

(** *** The loop goes on while the promises resolve *)

Lemma draining_kept (f : Component -> Component) (s : Session) :
  kept (component s) (f (component s)) -> draining s -> draining (within f s).
Proof.
  intros [(_ & _ & _ & _ & F5) Hr] D; unfold draining, queue in *; simpl.
  rewrite Hr, F5; exact D.
Qed.

Lemma draining_call (p : Suspended) (s : Session) : draining s -> draining (call p s).
Proof.
  intros D Hr Hq; simpl. rewrite existsb_app, (D Hr Hq); reflexivity.
Qed.

Lemma draining_unsuspend (k : nat) (p : Suspended) (s : Session) :
  nth_error (suspended s) k = Some p -> in_drain p = false ->
  draining s -> draining (unsuspend k s).
Proof.
  intros Hk Hp D Hr Hq; simpl.
  exact (existsb_remove_other _ _ _ _ Hk Hp (D Hr Hq)).
Qed.

Lemma draining_drain_next (stop : Candidate -> Suspended) (after : Session -> Session)
      (s : Session) :
  (forall c, in_drain (stop c) = true) ->
  (queue s = [] -> queue (after s) = []) ->
  draining (drain_next stop after s).
Proof.
  intros Hstop Hafter; unfold drain_next.
  destruct (queue s) as [|c rest] eqn:E.
  - intros _ Hq; exfalso; apply Hq, Hafter; reflexivity.
  - intros _ _; simpl. rewrite existsb_app; simpl.
    rewrite (Hstop c); apply orb_true_r.
Qed.

Lemma draining_continue (k : nat) (p : Suspended) (d : Sdp) (s : Session) :
  nth_error (suspended s) k = Some p ->
  draining s -> draining (continue p true d (unsuspend k s)).
Proof.
  intros Hk D; unfold continue.
  assert (Hplain : in_drain p = false -> (forall x, awaited p <> SetRemoteDescription x) ->
                   draining (within (resolved (awaited p)) (unsuspend k s))).
  { intros Hp Ha. apply draining_kept; [apply kept_resolved; exact Ha|].
    exact (draining_unsuspend k p s Hk Hp D). }
  destruct p.
  - intros Hr _; exfalso; revert Hr; cbn [awaited within component].
    destruct (wire_up_fields (resolved GetUserMedia (component (unsuspend k s))))
      as (W1 & _).
    unfold hasRemoteDescription; rewrite W1; discriminate.
  - apply draining_call, Hplain; [reflexivity | discriminate].
  - apply draining_kept; [apply kept_send|]. apply Hplain; [reflexivity | discriminate].
  - apply draining_drain_next; [reflexivity | auto].
  - apply draining_drain_next; [reflexivity | auto].
  - apply draining_call, Hplain; [reflexivity | discriminate].
  - apply draining_kept; [apply kept_send|]. apply Hplain; [reflexivity | discriminate].
  - apply draining_drain_next; [reflexivity | auto].
  - apply draining_drain_next; [reflexivity | auto].
  - apply Hplain; [reflexivity | discriminate].
Qed.

Lemma draining_tick (t : Tick) (s : Session) :
  resolves_all t = true -> draining s -> draining (tick t s).
Proof.
  intros Ht D; destruct t as [ev|k ok d]; cbn [tick].
  - destruct ev as [topic m| |hasStream|candidate|state| |];
      try (apply draining_kept; [apply kept_on_event | exact D]).
    + destruct (heard topic m (component s)); [|exact D].
      destruct (data m).
      * apply draining_call; exact D.
      * apply draining_call; exact D.
      * unfold begin_handleIceCandidate.
        destruct (hasRemoteDescription (component s)) eqn:Hr.
        -- apply draining_call. exact D.
        -- intros Hr'; simpl in Hr'.
           unfold hasRemoteDescription in *; simpl in Hr'. congruence.
    + destruct (offerTimer (component s)); [|exact D].
      apply draining_call, draining_kept; [apply kept_timer_off | exact D].
  - simpl in Ht; subst ok.
    destruct (nth_error (suspended s) k) as [p|] eqn:E; [|exact D].
    exact (draining_continue k p d s E D).
Qed.

Lemma draining_play (ts : list Tick) (s : Session) :
  forallb resolves_all ts = true -> draining s -> draining (play ts s).
Proof.
  revert s; induction ts as [|t ts IH]; intros s Ht D; simpl; [exact D|].
  simpl in Ht; apply andb_true_iff in Ht; destruct Ht as [H1 H2].
  apply IH; [exact H2 | apply draining_tick; assumption].
Qed.

(** *** After the teardown *)

Lemma continue_deaf (p : Suspended) (ok : bool) (d : Sdp) (s : Session) :
  p <> InCapture ->
  ~ In InCapture (suspended s) ->
  ~ In InCapture (suspended (continue p ok d s))
  /\ (subscribed (component (continue p ok d s)) = true -> subscribed (component s) = true)
  /\ arrivals (continue p ok d s) = arrivals s.
Proof.
  intros Hp Hs.
  assert (Hin : forall q, q <> InCapture -> ~ In InCapture (suspended s ++ [q])).
  { intros q Hq H; apply in_app_iff in H; destruct H as [H|[H|[]]]; [exact (Hs H) | congruence]. }
  assert (Hsend : forall x e, subscribed (snd (sendSignalingMessage x e)) = subscribed e).
  { intros x e; unfold sendSignalingMessage, modify; simpl.
    destruct (signalingChannelRef e); reflexivity. }
  unfold continue; destruct ok.
  - destruct p; [exfalso; apply Hp; reflexivity | | | | | | | | |];
      unfold drain_next, queue; cbn [within component];
      try (destruct (iceCandidatesQueue _));
      cbn [call within component suspended arrivals];
      rewrite ?Hsend;
      (split; [first [exact Hs | apply Hin; discriminate]|]; split; [|reflexivity]);
      unfold resolved; cbn [awaited emit subscribed set_peerConnectionRef
                            set_iceCandidatesQueue]; auto.
  - destruct p; [exfalso; apply Hp; reflexivity | | | | | | | | |];
      (split; [exact Hs|]; split; [|reflexivity]); simpl; auto.
Qed.

Lemma deaf_tick (t : Tick) (s : Session) :
  deaf s ->
  deaf (tick t s) /\ arrivals (tick t s) = arrivals s.
Proof.
  intros [Hs Hsub]; destruct t as [ev|k ok d]; cbn [tick].
  - assert (Hh : forall topic m, heard topic m (component s) = false).
    { intros topic m; unfold heard; rewrite Hsub.
      destruct (signalingChannelRef (component s)); reflexivity. }
    assert (Hk : forall ev', subscribed (on_event ev' (component s)) = false).
    { intros ev'. destruct (kept_on_event ev' (component s)) as [(_ & _ & F3 & _) _].
      destruct (subscribed (on_event ev' (component s)));
        [rewrite <- Hsub; symmetry; apply F3; reflexivity | reflexivity]. }
    destruct ev as [topic m| |hasStream|candidate|state| |];
      try (split; [split; [exact Hs | apply Hk] | reflexivity]).
    + rewrite Hh; split; [split; assumption | reflexivity].
    + destruct (offerTimer (component s)); [|split; [split; assumption | reflexivity]].
      split; [|reflexivity]. split; [|exact Hsub].
      simpl; intros H; apply in_app_iff in H; destruct H as [H|[H|[]]];
        [exact (Hs H) | discriminate].
  - destruct (nth_error (suspended s) k) as [p|] eqn:E;
      [|split; [split; assumption | reflexivity]].
    assert (Hp : p <> InCapture) by (intros ->; apply Hs; exact (nth_error_In _ _ E)).
    assert (Hs' : ~ In InCapture (suspended (unsuspend k s)))
      by (apply not_in_remove_nth; exact Hs).
    destruct (continue_deaf p ok d (unsuspend k s) Hp Hs') as (C1 & C2 & C3).
    split; [|exact C3]. split; [exact C1|].
    destruct (subscribed (component (continue p ok d (unsuspend k s)))) eqn:Es;
      [|reflexivity].
    rewrite <- Hsub; symmetry; exact (C2 eq_refl).
Qed.

Lemma deaf_play (ts : list Tick) (s : Session) :
  deaf s -> deaf (play ts s) /\ arrivals (play ts s) = arrivals s.
Proof.
  revert s; induction ts as [|t ts IH]; intros s H; simpl; [split; [exact H | reflexivity]|].
  destruct (deaf_tick t s H) as [H1 H2].
  destruct (IH _ H1) as [H3 H4]. split; [exact H3 | congruence].
Qed.


(** *** Candidates *)

(** C2, as stated, fails on both counts of its third part.  With every
    promise resolving, in the order of the calls: "c1" and "c2" are in the
    queue when the answer is set; while the loop waits for "c1", "c3"
    arrives and is handed over at once; "c2" follows.  The candidates came
    as c1, c2, c3 and were handed over as c1, c3, c2.  And when the browser
    rejects "c1" in the loop of [handleOffer], the loop is over: "c2" and
    "c3" stay in the queue, although a remote description is set, no
    handler is under way, and "c4", which came later, has been handed
    over. *)
Lemma C2_the_queue_is_overtaken_and_can_be_left_behind :
  (let s := play late_candidate (start "r1" "a" true) in
   arrivals s = ["c1"; "c2"; "c3"]
   /\ handed s = ["c1"; "c3"; "c2"]
   /\ queue s = []
   /\ suspended s = []
   /\ forallb resolves_all late_candidate = true)
  /\ (let s := play rejected_candidate (start "r1" "b" false) in
      arrivals s = ["c1"; "c2"; "c3"; "c4"]
      /\ handed s = ["c1"; "c4"]
      /\ queue s = ["c2"; "c3"]
      /\ suspended s = []
      /\ hasRemoteDescription (component s) = true).
Proof. vm_compute. repeat split. Qed.

(** C2, amended.  Over every run of the component, with handlers stopping
    at their awaits, events coming in between, and promises settling in any
    order, resolved or rejected:
    - a candidate has been handed to [addIceCandidate] only if a remote
      description is set;
    - a candidate that arrives when a remote description is set is handed
      over at once and the queue is untouched; one that arrives before is
      appended to the queue and nothing is called;
    - when the [setRemoteDescription] of an Offer or of an Answer resolves,
      and whenever an [addIceCandidate] of the loop resolves, the handler
      takes the head of the queue next and hands it over;
    - no candidate is lost and none is handed over twice: those handed over
      and those in the queue are together those that came;
    - when every promise of the run has resolved, a remote description is
      set and no handler is in its loop, the queue is empty and the
      candidates handed over are those that came. *)
Theorem C2_candidates_wait_for_the_remote_description :
  forall (room user : string) (initiator : bool) (ts : list Tick),
    let s := play ts (start room user initiator) in
    (handed s <> [] -> hasRemoteDescription (component s) = true)
    /\ (forall (topic : string) (m : Message) (c : Candidate),
          heard topic m (component s) = true ->
          data m = IceCandidate c ->
          arrivals (tick (Happens (Broadcast topic m)) s) = arrivals s ++ [c]
          /\ (if hasRemoteDescription (component s)
              then handed (tick (Happens (Broadcast topic m)) s) = handed s ++ [c]
                   /\ queue (tick (Happens (Broadcast topic m)) s) = queue s
              else handed (tick (Happens (Broadcast topic m)) s) = handed s
                   /\ queue (tick (Happens (Broadcast topic m)) s) = queue s ++ [c]))
    /\ (forall (k : nat) (p : Suspended) (d : Sdp) (c : Candidate) (rest : list Candidate),
          nth_error (suspended s) k = Some p ->
          (exists x, p = InOfferRemote x \/ p = InAnswerRemote x) \/ in_drain p = true ->
          queue s = c :: rest ->
          handed (tick (Settles k true d) s) = handed s ++ [c]
          /\ queue (tick (Settles k true d) s) = rest
          /\ hasRemoteDescription (component (tick (Settles k true d) s)) = true)
    /\ Permutation (handed s ++ queue s) (arrivals s)
    /\ (forallb resolves_all ts = true ->
        hasRemoteDescription (component s) = true ->
        existsb in_drain (suspended s) = false ->
        queue s = [] /\ Permutation (handed s) (arrivals s)).
Proof.
  intros room user initiator ts s.
  assert (Hsound : sound s) by (apply sound_play, sound_start).
  assert (Hperm : Permutation (handed s ++ queue s) (arrivals s)).
  { destruct Hsound as [[_ B]|[[_ B]|U]].
    - destruct B as (_ & _ & _ & _ & B5 & B6 & B7); rewrite B5, B6, B7; constructor.
    - destruct B as (_ & _ & _ & _ & B5 & B6 & B7); rewrite B5, B6, B7; constructor.
    - apply U. }
  split; [|split; [|split; [|split; [exact Hperm|]]]].
  - destruct Hsound as [[_ B]|[[_ B]|U]].
    + destruct B as (_ & _ & _ & _ & _ & B6 & _); intros H; contradiction.
    + destruct B as (_ & _ & _ & _ & _ & B6 & _); intros H; contradiction.
    + apply U.
  - intros topic m c Hh Hm; cbn [tick]; rewrite Hh, Hm.
    unfold begin_handleIceCandidate.
    destruct (hasRemoteDescription (component s)); unfold handed, queue; simpl.
    + rewrite handed_of_app; repeat split.
    + repeat split.
  - intros k p d c rest Hk Hp Hq; cbn [tick]; rewrite Hk.
    assert (U : under_way s).
    { destruct Hsound as [[Hs _]|[[Hs _]|U]]; [| |exact U]; rewrite Hs in Hk.
      - destruct (nth_error_singleton _ _ _ Hk) as [_ ->].
        destruct Hp as [[x [H|H]]|H]; discriminate H.
      - destruct k; discriminate Hk. }
    assert (Hr : hasRemoteDescription
                   (resolved (awaited p) (component s)) = true).
    { rewrite remote_resolved. destruct U as (_ & U2 & _ & _ & U5 & _).
      destruct Hp as [[x [->| ->]]|Hp]; cbn [awaited].
      - destruct (peerConnectionRef (component s)); [reflexivity | contradiction U2; reflexivity].
      - destruct (peerConnectionRef (component s)); [reflexivity | contradiction U2; reflexivity].
      - pose proof (U5 (in_drain_nth _ _ _ Hk Hp)) as H.
        destruct (awaited p); try exact H.
        destruct (peerConnectionRef (component s)); [reflexivity | exact H]. }
    assert (Hq' : queue (within (resolved (awaited p)) (unsuspend k s)) = c :: rest).
    { unfold queue in *; simpl.
      destruct (frame_resolved (awaited p) (component s)) as (_ & _ & _ & _ & F5).
      rewrite F5; exact Hq. }
    assert (Hgoal : forall stop after,
               (forall x, awaited (stop x) = AddIceCandidate x) ->
               handed (drain_next stop after (within (resolved (awaited p)) (unsuspend k s)))
               = handed s ++ [c]
               /\ queue (drain_next stop after
                                    (within (resolved (awaited p)) (unsuspend k s))) = rest
               /\ hasRemoteDescription
                    (component (drain_next stop after
                                           (within (resolved (awaited p)) (unsuspend k s))))
                  = true).
    { intros stop after Hstop; unfold drain_next; rewrite Hq'.
      unfold handed, queue; simpl. rewrite handed_of_app, Hstop; simpl.
      repeat split. exact Hr. }
    unfold continue.
    destruct Hp as [[x [->| ->]]|Hp].
    + apply Hgoal; reflexivity.
    + apply Hgoal; reflexivity.
    + destruct p; try discriminate Hp; apply Hgoal; reflexivity.
  - intros Hall Hr Hd.
    assert (D : draining s).
    { apply draining_play; [exact Hall|]. intros H; discriminate H. }
    assert (Hq : queue s = []).
    { destruct (queue s) as [|c rest] eqn:E; [reflexivity|].
      assert (H : existsb in_drain (suspended s) = true)
        by (apply D; [exact Hr | rewrite E; discriminate]).
      congruence. }
    split; [exact Hq|]. rewrite Hq, app_nil_r in Hperm; exact Hperm.
Qed.

Lemma C2_every_candidate_is_handed_over_witness :
  queue (play late_candidate (start "r1" "a" true)) = []
  /\ Permutation (handed (play late_candidate (start "r1" "a" true)))
                 (arrivals (play late_candidate (start "r1" "a" true))).
Proof.
  exact (proj2 (proj2 (proj2 (proj2
           (C2_candidates_wait_for_the_remote_description "r1" "a" true late_candidate))))
           eq_refl eq_refl eq_refl).
Defined.

(** *** After the teardown *)

Lemma cleanup_unsubscribes (e : Component) :
  signalingChannelRef e <> None -> subscribed (cleanup e) = false.
Proof.
  intros H; unfold cleanup.
  set (e1 := match localStreamRef e with
             | Some tracks => fold_left (fun acc k => emit (TrackStopped k) acc) tracks e
             | None => e
             end).
  assert (K1 : signalingChannelRef e1 = signalingChannelRef e).
  { unfold e1; destruct (localStreamRef e); [|reflexivity].
    destruct (kept_fold_emit TrackStopped l e) as [(_ & F2 & _) _]; exact F2. }
  set (e2 := match peerConnectionRef e1 with Some _ => emit PeerClosed e1 | None => e1 end).
  assert (K2 : signalingChannelRef e2 = signalingChannelRef e).
  { unfold e2; destruct (peerConnectionRef e1); simpl; exact K1. }
  destruct (signalingChannelRef e2) as [topic|] eqn:E; [reflexivity|].
  exfalso; apply H; symmetry; exact K2.
Qed.

Lemma teardown_unsubscribes (ev : Event) (e : Component) :
  is_teardown ev = true -> signalingChannelRef e <> None ->
  subscribed (on_event ev e) = false.
Proof.
  intros Hev H; destruct ev; try discriminate Hev; simpl.
  - unfold endCall, onEndCall, unmount. apply cleanup_unsubscribes.
    destruct (kept_cleanup e) as [(_ & F2 & _) _]; simpl; rewrite F2; exact H.
  - apply cleanup_unsubscribes; exact H.
Qed.

(** When the component is torn down (hung up or disposed of) after its
    capture has settled, its channel is not live from then on: whatever
    happens later, and whatever the handlers that were stopped at the
    teardown still do, a broadcast starts no handler and no candidate
    arrives.  A teardown that comes while the capture is still pending finds
    nothing to release; when the capture then resolves, the component
    takes the stream, opens its peer connection and subscribes, and
    nothing has been released. *)
Theorem a_teardown_after_the_capture_silences_the_channel :
  forall (room user : string) (initiator : bool) (ts later : list Tick) (ev : Event),
    is_teardown ev = true ->
    (~ In InCapture (suspended (play ts (start room user initiator))) ->
     let torn := play later (tick (Happens ev) (play ts (start room user initiator))) in
     subscribed (component torn) = false
     /\ (forall topic m, tick (Happens (Broadcast topic m)) torn = torn)
     /\ arrivals torn = arrivals (play ts (start room user initiator)))
    /\ (forall d,
          let late := play [Happens ev; Settles 0 true d] (start room user initiator) in
          subscribed (component late) = true
          /\ localStreamRef (component late) = Some [AudioTrack; VideoTrack]
          /\ peerConnectionRef (component late) <> None
          /\ releases (trace (component late)) = (0, 0, 0, 0)).
Proof.
  intros room user initiator ts later ev Hev; split.
  - intros Hcap torn.
    set (s := play ts (start room user initiator)) in *.
    assert (Hsound : sound s) by (apply sound_play, sound_start).
    assert (Hd : deaf (tick (Happens ev) s)).
    { assert (Ht : tick (Happens ev) s = within (on_event ev) s)
        by (destruct ev; try discriminate Hev; reflexivity).
      rewrite Ht; split; [exact Hcap|]. simpl.
      destruct Hsound as [[Hs _]|[[_ B]|U]].
      - exfalso; apply Hcap; rewrite Hs; left; reflexivity.
      - destruct B as (_ & _ & B3 & _).
        destruct (kept_on_event ev (component s)) as [(_ & _ & F3 & _) _].
        destruct (subscribed (on_event ev (component s)));
          [rewrite <- B3; symmetry; apply F3; reflexivity | reflexivity].
      - apply teardown_unsubscribes; [exact Hev | apply U]. }
    destruct (deaf_play later _ Hd) as [[H1 H2] H3].
    split; [exact H2|]. split.
    + intros topic m; cbn [tick]. unfold heard; fold torn in H2 |- *. rewrite H2.
      destruct (signalingChannelRef (component torn)); reflexivity.
    + fold torn in H3; rewrite H3.
      destruct ev; try discriminate Hev; reflexivity.
  - intros d late; unfold late.
    destruct ev; try discriminate Hev; destruct initiator; vm_compute;
      (split; [reflexivity|]; split; [reflexivity|]; split; [discriminate | reflexivity]).
Qed.

Lemma a_teardown_witness :
  subscribed (component (play [Happens (Broadcast "webrtc-r1"
                                                  (from_alice (IceCandidate "c1")))]
                              (tick (Happens Disposed)
                                    (play [Settles 0 true EmptyString]
                                          (start "r1" "b" false)))))
  = false.
Proof.
  assert (H : ~ In InCapture
                (suspended (play [Settles 0 true EmptyString] (start "r1" "b" false))))
    by (intros []).
  exact (proj1 (proj1 (a_teardown_after_the_capture_silences_the_channel
                         "r1" "b" false [Settles 0 true EmptyString]
                         [Happens (Broadcast "webrtc-r1" (from_alice (IceCandidate "c1")))]
                         Disposed eq_refl) H)).
Defined.

End InterleavedProofs.

Module SessionRefinement.

Import VideoCall.
Import VideoCallProofs.

(** *** Handlers that are not interrupted *)

Lemma play_cons (t : Tick) (ts : list Tick) (s : Session) :
  play (t :: ts) s = play ts (tick t s).
Proof. reflexivity. Qed.

Lemma play_app (ts1 ts2 : list Tick) (s : Session) :
  play (ts1 ++ ts2) s = play ts2 (play ts1 s).
Proof. unfold play; apply fold_left_app. Qed.

Lemma settle_last (p : Suspended) (ok : bool) (d : Sdp) (s : Session) :
  suspended s = [] ->
  tick (Settles 0 ok d) (call p s)
  = continue p ok d {| component := component s; suspended := [];
                       calls := calls s ++ [awaited p]; arrivals := arrivals s |}.
Proof.
  intros Hs; cbn [tick call suspended]; rewrite Hs; cbn [app nth_error].
  unfold unsuspend, call; cbn [component suspended calls arrivals].
  rewrite Hs; reflexivity.
Qed.

Lemma try_catch_bind_none {A : Type} (m : M A) (k : A -> M unit)
      (h : Component -> Component) (e e' : Component) :
  m e = (None, e') -> try_catch (bind m k) h e = h e'.
Proof. intros H; unfold try_catch, bind; rewrite H; reflexivity. Qed.

(** The loop over the queue, with each promise settling as the browser
    answers before anything else happens, is the loop of [drain]. *)
Lemma drain_played (b : Browser) (stop : Candidate -> Suspended)
      (after : Session -> Session) :
  (forall c ok d s,
      continue (stop c) ok d s
      = if ok
        then drain_next stop after (within (resolved (AddIceCandidate c)) s)
        else within consoleError (within (rejected (AddIceCandidate c)) s)) ->
  forall (q : list Candidate) (s : Session),
    suspended s = [] ->
    iceCandidatesQueue (component s) = q ->
    exists ts,
      match drain b q (component s) with
      | (Some _, e') =>
          exists s', play ts (drain_next stop after s) = after s' /\ settled e' s'
      | (None, e') => settled (consoleError e') (play ts (drain_next stop after s))
      end.
Proof.
  intros Hstop q; induction q as [|c rest IH]; intros s Hs Hq.
  - exists []; simpl. exists s; split; [|split; [reflexivity | exact Hs]].
    unfold drain_next, queue; rewrite Hq; reflexivity.
  - set (e := component s) in *.
    set (ok := resolves b (trace (set_iceCandidatesQueue rest e)) (AddIceCandidate c)).
    assert (Hd : drain b (c :: rest) e
                 = if ok
                   then drain b rest (resolved (AddIceCandidate c) (set_iceCandidatesQueue rest e))
                   else (None, rejected (AddIceCandidate c) (set_iceCandidatesQueue rest e))).
    { cbn [drain]; unfold bind, modify, await; fold ok; cbn [fst snd].
      destruct ok; reflexivity. }
    assert (Hn : drain_next stop after s
                 = call (stop c) (within (set_iceCandidatesQueue rest) s)).
    { unfold drain_next, queue; fold e; rewrite Hq; reflexivity. }
    assert (Ht : forall d,
               tick (Settles 0 ok d) (drain_next stop after s)
               = continue (stop c) ok d
                   {| component := set_iceCandidatesQueue rest e; suspended := [];
                      calls := calls s ++ [awaited (stop c)]; arrivals := arrivals s |}).
    { intros d; rewrite Hn. rewrite settle_last by exact Hs. reflexivity. }
    rewrite Hd. destruct ok eqn:Eok.
    + set (s1 := {| component := resolved (AddIceCandidate c) (set_iceCandidatesQueue rest e);
                    suspended := []; calls := calls s ++ [awaited (stop c)];
                    arrivals := arrivals s |}).
      destruct (IH s1 eq_refl) as [ts Hts]; [reflexivity|].
      exists (Settles 0 true EmptyString :: ts).
      rewrite play_cons, Ht, Hstop. exact Hts.
    + exists [Settles 0 false EmptyString].
      rewrite play_cons, Ht, Hstop. split; reflexivity.
Qed.

(** The end of [handleOffer], from [createAnswer] on. *)
Lemma answer_played (b : Browser) (s : Session) :
  suspended s = [] ->
  exists ts,
    settled (if resolves b (trace (component s)) CreateAnswer
             then if resolves b (trace (resolved CreateAnswer (component s)))
                              (SetLocalDescription (describes b (trace (component s))))
                  then snd (sendSignalingMessage
                              (Answer (describes b (trace (component s))))
                              (resolved (SetLocalDescription (describes b (trace (component s))))
                                        (resolved CreateAnswer (component s))))
                  else consoleError
                         (rejected (SetLocalDescription (describes b (trace (component s))))
                                   (resolved CreateAnswer (component s)))
             else consoleError (rejected CreateAnswer (component s)))
            (play ts (call InCreateAnswer s)).
Proof.
  intros Hs.
  set (e := component s).
  set (d := describes b (trace e)).
  destruct (resolves b (trace e) CreateAnswer) eqn:E1.
  - destruct (resolves b (trace (resolved CreateAnswer e)) (SetLocalDescription d)) eqn:E2.
    + exists [Settles 0 true d; Settles 0 true EmptyString].
      rewrite play_cons, settle_last by exact Hs.
      unfold continue at 1; cbn [awaited within component suspended calls arrivals].
      rewrite play_cons, settle_last by reflexivity.
      split; reflexivity.
    + exists [Settles 0 true d; Settles 0 false EmptyString].
      rewrite play_cons, settle_last by exact Hs.
      unfold continue at 1; cbn [awaited within component suspended calls arrivals].
      rewrite play_cons, settle_last by reflexivity.
      split; reflexivity.
  - exists [Settles 0 false EmptyString].
    rewrite play_cons, settle_last by exact Hs.
    split; reflexivity.
Qed.

(** [createOffer] *)
Lemma offer_played (b : Browser) (s : Session) :
  suspended s = [] ->
  exists ts, settled (createOffer b (component s)) (play ts (call InCreateOffer s)).
Proof.
  intros Hs; rewrite createOffer_cases.
  set (e := component s).
  set (d := describes b (trace e)).
  destruct (resolves b (trace e) CreateOffer) eqn:E1.
  - destruct (resolves b (trace (resolved CreateOffer e)) (SetLocalDescription d)) eqn:E2.
    + exists [Settles 0 true d; Settles 0 true EmptyString].
      rewrite play_cons, settle_last by exact Hs.
      unfold continue at 1; cbn [awaited within component suspended calls arrivals].
      rewrite play_cons, settle_last by reflexivity.
      split; reflexivity.
    + exists [Settles 0 true d; Settles 0 false EmptyString].
      rewrite play_cons, settle_last by exact Hs.
      unfold continue at 1; cbn [awaited within component suspended calls arrivals].
      rewrite play_cons, settle_last by reflexivity.
      split; reflexivity.
  - exists [Settles 0 false EmptyString].
    rewrite play_cons, settle_last by exact Hs.
    split; reflexivity.
Qed.


Lemma answer_cases (b : Browser) (e : Component) :
  try_catch
    (bind (create b CreateAnswer)
          (fun answer => bind (await b (SetLocalDescription answer))
                              (fun _ => sendSignalingMessage (Answer answer))))
    consoleError e
  = if resolves b (trace e) CreateAnswer
    then if resolves b (trace (resolved CreateAnswer e))
                     (SetLocalDescription (describes b (trace e)))
         then snd (sendSignalingMessage
                     (Answer (describes b (trace e)))
                     (resolved (SetLocalDescription (describes b (trace e)))
                               (resolved CreateAnswer e)))
         else consoleError (rejected (SetLocalDescription (describes b (trace e)))
                                     (resolved CreateAnswer e))
    else consoleError (rejected CreateAnswer e).
Proof.
  rewrite try_catch_create.
  destruct (resolves b (trace e) CreateAnswer); [|reflexivity].
  rewrite try_catch_await.
  destruct (resolves b (trace (resolved CreateAnswer e)) _); reflexivity.
Qed.

Lemma stops_in_offer_loop (c : Candidate) (ok : bool) (d : Sdp) (s : Session) :
  continue (InOfferDrain c) ok d s
  = if ok
    then drain_next InOfferDrain (call InCreateAnswer)
                    (within (resolved (AddIceCandidate c)) s)
    else within consoleError (within (rejected (AddIceCandidate c)) s).
Proof. destruct ok; reflexivity. Qed.

Lemma stops_in_answer_loop (c : Candidate) (ok : bool) (d : Sdp) (s : Session) :
  continue (InAnswerDrain c) ok d s
  = if ok
    then drain_next InAnswerDrain (fun s => s)
                    (within (resolved (AddIceCandidate c)) s)
    else within consoleError (within (rejected (AddIceCandidate c)) s).
Proof. destruct ok; reflexivity. Qed.

Lemma handleOffer_played (b : Browser) (offer : Sdp) (s : Session) :
  suspended s = [] ->
  exists ts, settled (handleOffer b offer (component s))
                     (play ts (begin_handleOffer offer s)).
Proof.
  intros Hs. unfold handleOffer, begin_handleOffer; rewrite try_catch_await.
  set (e := component s).
  destruct (resolves b (trace e) (SetRemoteDescription offer)) eqn:E1.
  - set (s1 := {| component := resolved (SetRemoteDescription offer) e; suspended := [];
                  calls := calls s ++ [SetRemoteDescription offer];
                  arrivals := arrivals s |}).
    destruct (drain_played b InOfferDrain (call InCreateAnswer) stops_in_offer_loop
                (iceCandidatesQueue (component s1)) s1 eq_refl eq_refl) as [ts Hts].
    change (component s1) with (resolved (SetRemoteDescription offer) e) in *.
    destruct (drain b (iceCandidatesQueue (resolved (SetRemoteDescription offer) e))
                    (resolved (SetRemoteDescription offer) e)) as [[[]|] e2] eqn:Ed.
    + destruct Hts as (s2 & Hp & He & Hs2).
      destruct (answer_played b s2 Hs2) as [ts2 H2].
      exists (Settles 0 true EmptyString :: ts ++ ts2).
      rewrite play_cons, settle_last by exact Hs.
      rewrite play_app.
      change (continue (InOfferRemote offer) true EmptyString _)
        with (drain_next InOfferDrain (call InCreateAnswer) s1).
      rewrite Hp.
      rewrite (try_catch_bind_some (processQueued b) _ _ _ e2 tt) by exact Ed.
      rewrite answer_cases, <- He. exact H2.
    + exists (Settles 0 true EmptyString :: ts).
      rewrite play_cons, settle_last by exact Hs.
      change (continue (InOfferRemote offer) true EmptyString _)
        with (drain_next InOfferDrain (call InCreateAnswer) s1).
      rewrite (try_catch_bind_none (processQueued b) _ _ _ e2) by exact Ed.
      exact Hts.
  - exists [Settles 0 false EmptyString].
    rewrite play_cons, settle_last by exact Hs. split; reflexivity.
Qed.

Lemma handleAnswer_played (b : Browser) (answer : Sdp) (s : Session) :
  suspended s = [] ->
  exists ts, settled (handleAnswer b answer (component s))
                     (play ts (begin_handleAnswer answer s)).
Proof.
  intros Hs. unfold handleAnswer, begin_handleAnswer; rewrite try_catch_await.
  set (e := component s).
  destruct (resolves b (trace e) (SetRemoteDescription answer)) eqn:E1.
  - set (s1 := {| component := resolved (SetRemoteDescription answer) e; suspended := [];
                  calls := calls s ++ [SetRemoteDescription answer];
                  arrivals := arrivals s |}).
    destruct (drain_played b InAnswerDrain (fun s => s) stops_in_answer_loop
                (iceCandidatesQueue (component s1)) s1 eq_refl eq_refl) as [ts Hts].
    change (component s1) with (resolved (SetRemoteDescription answer) e) in *.
    exists (Settles 0 true EmptyString :: ts).
    rewrite play_cons, settle_last by exact Hs.
    change (continue (InAnswerRemote answer) true EmptyString _)
      with (drain_next InAnswerDrain (fun s => s) s1).
    unfold try_catch, processQueued.
    destruct (drain b (iceCandidatesQueue (resolved (SetRemoteDescription answer) e))
                    (resolved (SetRemoteDescription answer) e)) as [[[]|] e2] eqn:Ed.
    + destruct Hts as (s2 & Hp & H2). rewrite Hp; exact H2.
    + exact Hts.
  - exists [Settles 0 false EmptyString].
    rewrite play_cons, settle_last by exact Hs. split; reflexivity.
Qed.

Lemma handleIceCandidate_played (b : Browser) (candidate : Candidate) (s : Session) :
  suspended s = [] ->
  exists ts, settled (handleIceCandidate b candidate (component s))
                     (play ts (begin_handleIceCandidate candidate s)).
Proof.
  intros Hs. unfold handleIceCandidate, begin_handleIceCandidate, try_catch.
  cbn [arrive component].
  destruct (hasRemoteDescription (component s)).
  - unfold await.
    destruct (resolves b (trace (component s)) (AddIceCandidate candidate)) eqn:E.
    + exists [Settles 0 true EmptyString].
      rewrite play_cons, settle_last by exact Hs. split; reflexivity.
    + exists [Settles 0 false EmptyString].
      rewrite play_cons, settle_last by exact Hs. split; reflexivity.
  - exists []. split; [reflexivity | exact Hs].
Qed.

(** One event, handled without interruption. *)
Lemma step_played (b : Browser) (ev : Event) (s : Session) :
  suspended s = [] ->
  exists ts, settled (step b ev (component s)) (play ts s).
Proof.
  intros Hs.
  assert (Hsync : forall ev', step b ev' (component s) = on_event ev' (component s) ->
                              tick (Happens ev') s = within (on_event ev') s ->
                              exists ts, settled (step b ev' (component s)) (play ts s)).
  { intros ev' H1 H2. exists [Happens ev']. rewrite play_cons, H2, H1.
    split; [reflexivity | exact Hs]. }
  destruct ev as [topic m | | hasStream | candidate | state | |];
    try (apply Hsync; reflexivity).
  - cbn [step]. unfold on_broadcast.
    assert (Hh : heard topic m (component s) = false ->
                 exists ts, settled (component s) (play ts s)).
    { intros Hh. exists [Happens (Broadcast topic m)].
      rewrite play_cons; cbn [tick]; rewrite Hh. split; [reflexivity | exact Hs]. }
    unfold heard in Hh.
    destruct (signalingChannelRef (component s)) as [mine|] eqn:Ech;
      [|apply Hh; reflexivity].
    destruct (subscribed (component s) && (topic =? mine)) eqn:Esub;
      [|apply Hh; reflexivity].
    destruct (negb (payload_senderId m =? userId (component s))) eqn:Esend;
      [|apply Hh; reflexivity].
    assert (Hd : heard topic m (component s) = true).
    { unfold heard; rewrite Ech, Esub, Esend; reflexivity. }
    destruct (data m) as [offer | answer | candidate] eqn:Edata.
    + destruct (handleOffer_played b offer s Hs) as [ts Hts].
      exists (Happens (Broadcast topic m) :: ts).
      rewrite play_cons; cbn [tick]; rewrite Hd, Edata; exact Hts.
    + destruct (handleAnswer_played b answer s Hs) as [ts Hts].
      exists (Happens (Broadcast topic m) :: ts).
      rewrite play_cons; cbn [tick]; rewrite Hd, Edata; exact Hts.
    + destruct (handleIceCandidate_played b candidate s Hs) as [ts Hts].
      exists (Happens (Broadcast topic m) :: ts).
      rewrite play_cons; cbn [tick]; rewrite Hd, Edata; exact Hts.
  - cbn [step]. destruct (offerTimer (component s)) eqn:Et.
    + destruct (offer_played b (within (set_offerTimer false) s) Hs) as [ts Hts].
      exists (Happens OfferTimerFires :: ts).
      rewrite play_cons; cbn [tick]; rewrite Et; exact Hts.
    + exists [Happens OfferTimerFires].
      rewrite play_cons; cbn [tick]; rewrite Et. split; [reflexivity | exact Hs].
Qed.

Lemma run_played (b : Browser) (evs : list Event) (s : Session) :
  suspended s = [] ->
  exists ts, settled (run b evs (component s)) (play ts s).
Proof.
  revert s; induction evs as [|ev evs IH]; intros s Hs.
  - exists []. split; [reflexivity | exact Hs].
  - destruct (step_played b ev s Hs) as [ts1 [H1 H2]].
    destruct (IH (play ts1 s) H2) as [ts2 H3].
    exists (ts1 ++ ts2). rewrite play_app.
    change (run b (ev :: evs) (component s)) with (run b evs (step b ev (component s))).
    rewrite <- H1. exact H3.
Qed.

Lemma initializeCall_played (b : Browser) (room user : string) (initiator : bool) :
  exists ts, settled (initializeCall b (mount room user initiator))
                     (play ts (start room user initiator)).
Proof.
  unfold start.
  destruct (resolves b (trace (mount room user initiator)) GetUserMedia) eqn:E.
  - exists [Settles 0 true EmptyString].
    rewrite play_cons, settle_last by reflexivity.
    rewrite (initializeCall_resolved b _ E). split; reflexivity.
  - exists [Settles 0 false EmptyString].
    rewrite play_cons, settle_last by reflexivity.
    rewrite (initializeCall_rejected b _ E). split; reflexivity.
Qed.

(** Whatever the browser answers, the component that [run] gives is one
    that the session reaches: the schedule in which every promise settles,
    as the browser decides, before the next event. *)
Theorem every_run_is_a_play_of_the_session
        (b : Browser) (room user : string) (initiator : bool) (evs : list Event) :
  exists ts,
    component (play ts (start room user initiator))
    = run b evs (initializeCall b (mount room user initiator))
    /\ suspended (play ts (start room user initiator)) = [].
Proof.
  destruct (initializeCall_played b room user initiator) as [ts1 [H1 H2]].
  destruct (run_played b evs (play ts1 (start room user initiator)) H2) as [ts2 [H3 H4]].
  exists (ts1 ++ ts2). rewrite play_app, H3, H1. split; [reflexivity | exact H4].
Qed.

End SessionRefinement.

Module LoginProofs.

Import Login.
Import Scenarios.

Lemma find_by_username_In (name : string) (users : list UserRow) (u : UserRow) :
  find_by_username name users = (Some u, None) -> In u users /\ username u = name.
Proof.
  unfold find_by_username; intros H.
  destruct (filter _ users) as [|x [|y l]] eqn:E; simpl in H; try discriminate.
  injection H as ->.
  assert (Hin : In u (filter (fun r => username r =? name) users)) by (rewrite E; left; auto).
  apply filter_In in Hin; destruct Hin as [Hin Hn].
  apply String.eqb_eq in Hn; auto.
Qed.

Lemma update_misses (i : string) (users : list UserRow) :
  ~ In i (map id users) ->
  filter (fun r => id r =? i) (map (fun r => if id r =? i then go_online r else r) users) = [].
Proof.
  induction users as [|h t IH]; simpl; [reflexivity|]. intros Hn.
  destruct (id h =? i) eqn:E.
  - apply String.eqb_eq in E; exfalso; apply Hn; left; assumption.
  - rewrite E; apply IH; intros H; apply Hn; right; assumption.
Qed.

Lemma update_hits_once (u : UserRow) (users : list UserRow) :
  NoDup (map id users) -> In u users ->
  filter (fun r => id r =? id u)
         (map (fun r => if id r =? id u then go_online r else r) users)
  = [go_online u].
Proof.
  induction users as [|h t IH]; simpl; [intros _ []|].
  intros Hnd Hin; inversion Hnd as [|x l Hh Ht]; subst.
  destruct (id h =? id u) eqn:E.
  - apply String.eqb_eq in E.
    assert (h = u).
    { destruct Hin as [|Hin]; [assumption|].
      exfalso; apply Hh; rewrite E; apply in_map; assumption. }
    subst h; simpl; rewrite String.eqb_refl.
    rewrite update_misses by assumption; reflexivity.
  - rewrite E. destruct Hin as [->|Hin]; [rewrite String.eqb_refl in E; discriminate|].
    apply IH; assumption.
Qed.









End LoginProofs.

Module MatchmakerMore.

Import Matchmaker.
Import MatchmakerProofs.
Import Scenarios.

(** *** The rooms table *)

Lemma grown_refl (rooms : list ChatRoom) : grown rooms rooms.
Proof.
  intros i r H; exists r; repeat split; auto.
Qed.

Lemma grown_trans (r1 r2 r3 : list ChatRoom) :
  grown r1 r2 -> grown r2 r3 -> grown r1 r3.
Proof.
  intros H12 H23 i r H.
  destruct (H12 i r H) as [r' [H' [(A1 & A2 & A3 & A4 & A5) A6]]].
  destruct (H23 i r' H') as [r'' [H'' [(B1 & B2 & B3 & B4 & B5) B6]]].
  exists r''; repeat split; try congruence. auto.
Qed.

Lemma grown_insert (u : User) (m : WaitingEntry) (rooms : list ChatRoom) :
  grown rooms (fst (insert_room u m rooms)).
Proof.
  intros i r H; simpl. exists r; repeat split; auto.
  rewrite nth_error_app1; [assumption|].
  apply nth_error_Some; congruence.
Qed.

Lemma grown_deactivate (rid : nat) (rooms : list ChatRoom) :
  grown rooms (deactivate rid rooms).
Proof.
  intros i r H; unfold deactivate.
  rewrite nth_error_map, H; simpl.
  eexists; split; [reflexivity|].
  destruct (room_id r =? rid)%nat; simpl; repeat split; auto; discriminate.
Qed.

Lemma client_step_grown (a : Action) (s : Store) (c : Client) :
  grown (chat_rooms s) (chat_rooms (fst (client_step a s c))).
Proof.
  destruct a as [| | |k ok]; simpl.
  - destruct (chatRoom c); [|destruct (isSearching c)]; apply grown_refl.
  - destruct (isSearching c); apply grown_refl.
  - apply grown_refl.
  - destruct (nth_error (pending c) k) as [p|]; [|apply grown_refl].
    destruct p as [b|b|m|m|b| | |r|ms [|b]]; simpl.
    + destruct ok; apply grown_refl.
    + destruct ok; simpl; [destruct (select_neq_limit1 _ _)|]; apply grown_refl.
    + destruct ok; simpl; [|apply grown_refl].
      apply (grown_insert (currentUser c) m).
    + destruct ok; apply grown_refl.
    + destruct (if ok then existing_room _ _ else None); apply grown_refl.
    + destruct ok; apply grown_refl.
    + destruct ok; apply grown_refl.
    + destruct ok; simpl; [apply grown_deactivate | apply grown_refl].
    + apply grown_refl.
    + destruct b; apply grown_refl.
Qed.

(** Under every interleaving a room, once created, stays in the table at
    its place with the same key, participants and names; the only change
    it can undergo is from active to inactive. *)
Theorem rooms_are_kept_and_never_reactivated :
  forall (sys : System) (sched : list (nat * Action)),
    grown (chat_rooms (store sys)) (chat_rooms (store (run sched sys))).
Proof.
  intros sys sched; revert sys; induction sched as [|ia sched IH]; intros sys; simpl.
  - apply grown_refl.
  - apply (grown_trans _ (chat_rooms (store (sys_step ia sys)))); [|apply IH].
    unfold sys_step. destruct (nth_error (clients sys) (fst ia)) as [c|]; [|apply grown_refl].
    pose proof (client_step_grown (snd ia) (store sys) c) as H.
    destruct (client_step (snd ia) (store sys) c); exact H.
Qed.

(** *** The room of a client *)

Lemma existing_room_user2 (me : UserId) (rooms : list ChatRoom) (r : ChatRoom) :
  existing_room me rooms = Some r ->
  In r rooms /\ user2_id r = me /\ is_active r = true.
Proof.
  unfold existing_room; intros H.
  destruct (filter _ rooms) as [|x [|y l]] eqn:E; simpl in H; try discriminate.
  injection H as ->.
  assert (Hin : In r (filter (fun r => (user2_id r =? me) && is_active r) rooms))
    by (rewrite E; left; auto).
  apply filter_In in Hin; destruct Hin as [Hr Hf].
  apply andb_true_iff in Hf; destruct Hf as [Hu Ha].
  apply String.eqb_eq in Hu; auto.
Qed.

Lemma client_step_in_own_room (a : Action) (s : Store) (c : Client) :
  in_own_room c -> in_own_room (snd (client_step a s c)).
Proof.
  intros Hc; destruct a as [| | |k ok]; simpl.
  - destruct (chatRoom c) eqn:E; [assumption|].
    destruct (isSearching c); [assumption|].
    intros r Hr; simpl in Hr; congruence.
  - destruct (isSearching c); [|assumption]. exact Hc.
  - unfold endChat; destruct (chatRoom c) eqn:E; [|assumption]. exact Hc.
  - destruct (nth_error (pending c) k) as [p|]; [|assumption].
    destruct p as [b|b|m|m|b| | |r|ms [|b]]; simpl.
    + destruct ok; exact Hc.
    + destruct ok; simpl; [destruct (select_neq_limit1 _ _)|]; exact Hc.
    + destruct ok; simpl; [|exact Hc].
      intros r Hr; simpl in Hr; injection Hr as <-; left; reflexivity.
    + exact Hc.
    + destruct ok; simpl; [|exact Hc].
      destruct (existing_room _ _) as [r0|] eqn:E; simpl; [|exact Hc].
      intros r Hr; simpl in Hr; injection Hr as <-; right.
      apply (existing_room_user2 _ _ _ E).
    + exact Hc.
    + exact Hc.
    + intros r' Hr; simpl in Hr; discriminate.
    + exact Hc.
    + destruct b; exact Hc.
Qed.

(** Under every interleaving, from any store, the room a client is put in
    names that client: as the first participant when the client created
    the room, as the second when it adopted it. *)
Theorem a_client_is_only_put_in_a_room_that_names_it :
  forall (s0 : Store) (users : list User) (sched : list (nat * Action))
         (i : nat) (c : Client) (r : ChatRoom),
    nth_error (clients (run sched (init s0 users))) i = Some c ->
    chatRoom c = Some r ->
    user1_id r = id (currentUser c) \/ user2_id r = id (currentUser c).
Proof.
  intros s0 users sched i c r Hc Hr.
  assert (H : Forall in_own_room (clients (run sched (init s0 users)))).
  { apply (run_invariant (fun _ => True) in_own_room).
    - intros a s c' _ Hc'; split; [exact I | apply client_step_in_own_room; assumption].
    - exact I.
    - simpl; apply Forall_forall; intros x Hx.
      apply in_map_iff in Hx; destruct Hx as [u [<- _]]. intros r' Hr'; discriminate. }
  exact (Forall_nth_error _ _ _ _ H Hc r Hr).
Qed.

Lemma a_client_in_its_room_witness :
  user1_id room_of_alice = id (currentUser alice_paired)
  \/ user2_id room_of_alice = id (currentUser alice_paired).
Proof.
  exact (a_client_is_only_put_in_a_room_that_names_it
           empty_store [alice; bob] racing_pair 0 alice_paired room_of_alice
           eq_refl eq_refl).
Defined.

(** *** Two participants meet *)

Lemma findMatch_alone_client (u : User) (s : Store) :
  let q := upsert {| user_id := id u; w_username := username u |} (waiting_queue s) in
  (forall m l, select_neq_limit1 (id u) q = m :: l ->
               chatRoom (snd (findMatch_alone u s))
               = Some (snd (insert_room u m (chat_rooms s)))
               /\ isSearching (snd (findMatch_alone u s)) = false)
  /\ (select_neq_limit1 (id u) q = [] ->
      chatRoom (snd (findMatch_alone u s)) = existing_room (id u) (chat_rooms s)
      /\ isSearching (snd (findMatch_alone u s))
         = match existing_room (id u) (chat_rooms s) with
           | Some _ => false
           | None => true
           end).
Proof.
  split.
  - intros m l E; unfold findMatch_alone; alone_simpl; rewrite E; alone_simpl.
    split; reflexivity.
  - intros E; unfold findMatch_alone; alone_simpl; rewrite E; alone_simpl.
    destruct (existing_room _ _); split; reflexivity.
Qed.

(** Bob waits and Alice searches: she finds his row, creates the room and
    both rows leave the queue.  When Bob then searches again, with nobody
    else waiting, he finds no row, finds the room that names him second,
    and adopts it: both are in the same room, Alice as the initiator of the
    call and Bob not, and each is shown the name of the other. *)
Theorem the_second_participant_adopts_the_room_of_the_first :
  forall (a b : User) (rooms : list ChatRoom),
    id a <> id b ->
    filter (fun r => (user2_id r =? id b) && is_active r) rooms = [] ->
    let s := {| waiting_queue := [{| user_id := id b; w_username := username b |}];
                chat_rooms := rooms |} in
    let first := findMatch_alone a s in
    let second := findMatch_alone b (fst first) in
    exists r,
      chatRoom (snd first) = Some r
      /\ chatRoom (snd second) = Some r
      /\ chat_rooms (fst second) = rooms ++ [r]
      /\ waiting_queue (fst first) = []
      /\ waiting_queue (fst second) = []
      /\ isInitiator_of r (id a) = true
      /\ isInitiator_of r (id b) = false
      /\ otherUser_of r (id a) = username b
      /\ otherUser_of r (id b) = username a.
Proof.
  intros a b rooms Hne Hf s first second.
  assert (Hab : (id a =? id b) = false) by (apply String.eqb_neq; exact Hne).
  assert (Hba : (id b =? id a) = false) by (apply String.eqb_neq; congruence).
  set (r := snd (insert_room a {| user_id := id b; w_username := username b |} rooms)).
  assert (Hq : upsert {| user_id := id a; w_username := username a |} (waiting_queue s)
               = [{| user_id := id b; w_username := username b |};
                  {| user_id := id a; w_username := username a |}])
    by (simpl; rewrite Hba; reflexivity).
  assert (Hsel : select_neq_limit1 (id a)
                   (upsert {| user_id := id a; w_username := username a |} (waiting_queue s))
                 = [{| user_id := id b; w_username := username b |}]).
  { rewrite Hq; unfold select_neq_limit1; simpl. rewrite Hba, String.eqb_refl; reflexivity. }
  assert (H1 : fst first = {| waiting_queue := []; chat_rooms := rooms ++ [r] |}).
  { unfold first; rewrite findMatch_alone_store, Hsel, Hq.
    unfold delete_in; simpl. rewrite Hba, !String.eqb_refl; simpl.
    reflexivity. }
  assert (H1c : chatRoom (snd first) = Some r).
  { unfold first. apply (proj1 (findMatch_alone_client a s) _ _ Hsel). }
  assert (Hsel2 : select_neq_limit1 (id b)
                    (upsert {| user_id := id b; w_username := username b |}
                            (waiting_queue (fst first))) = []).
  { rewrite H1; unfold select_neq_limit1; simpl. rewrite String.eqb_refl; reflexivity. }
  assert (Hex : existing_room (id b) (chat_rooms (fst first)) = Some r).
  { rewrite H1; unfold existing_room; simpl.
    rewrite filter_app, Hf; simpl. rewrite String.eqb_refl; reflexivity. }
  exists r; repeat split.
  - exact H1c.
  - unfold second. rewrite (proj1 (proj2 (findMatch_alone_client b (fst first)) Hsel2)).
    exact Hex.
  - unfold second; rewrite findMatch_alone_store, Hsel2, Hex, H1; reflexivity.
  - rewrite H1; reflexivity.
  - unfold second; rewrite findMatch_alone_store, Hsel2, Hex, H1; simpl.
    unfold delete_eq; simpl. rewrite String.eqb_refl; reflexivity.
  - unfold isInitiator_of; simpl; apply String.eqb_refl.
  - unfold isInitiator_of; simpl; exact Hab.
  - unfold otherUser_of; simpl; rewrite String.eqb_refl; reflexivity.
  - unfold otherUser_of; simpl; rewrite Hab; reflexivity.
Qed.

Lemma the_second_participant_witness :
  exists r,
    chatRoom (snd (findMatch_alone alice only_bob_waiting)) = Some r
    /\ chatRoom (snd (findMatch_alone bob (fst (findMatch_alone alice only_bob_waiting))))
       = Some r.
Proof.
  destruct (the_second_participant_adopts_the_room_of_the_first alice bob [])
    as [r (H1 & H2 & _)].
  - discriminate.
  - reflexivity.
  - exists r; split; [exact H1 | exact H2].
Defined.

(** A participant whom two active rooms name second cannot adopt either:
    the lookup asks for a single row and gets none.  With nobody else
    waiting such a search misses: the client stays without a room, goes on
    searching, and keeps its row in the queue. *)
Theorem a_participant_named_by_two_rooms_adopts_none :
  forall (u : User) (s : Store),
    select_neq_limit1 (id u)
      (upsert {| user_id := id u; w_username := username u |} (waiting_queue s)) = [] ->
    2 <= length (filter (fun r => (user2_id r =? id u) && is_active r) (chat_rooms s)) ->
    chatRoom (snd (findMatch_alone u s)) = None
    /\ isSearching (snd (findMatch_alone u s)) = true
    /\ chat_rooms (fst (findMatch_alone u s)) = chat_rooms s
    /\ waiting (id u) (fst (findMatch_alone u s)) = true.
Proof.
  intros u s Hsel Hlen.
  assert (Hex : existing_room (id u) (chat_rooms s) = None).
  { unfold existing_room.
    destruct (filter _ (chat_rooms s)) as [|x [|y l]]; simpl in *; try reflexivity; lia. }
  destruct (proj2 (findMatch_alone_client u s) Hsel) as [H1 H2].
  rewrite Hex in H1, H2.
  pose proof (findMatch_alone_store u s) as Hst; cbv zeta in Hst.
  rewrite Hsel, Hex in Hst.
  repeat split; try assumption; rewrite Hst; [reflexivity|].
  unfold waiting; simpl.
  exact (upsert_has_key {| user_id := id u; w_username := username u |} (waiting_queue s)).
Qed.

Lemma named_by_two_rooms_witness :
  chatRoom (snd (findMatch_alone alice twice_named)) = None
  /\ isSearching (snd (findMatch_alone alice twice_named)) = true
  /\ chat_rooms (fst (findMatch_alone alice twice_named)) = chat_rooms twice_named
  /\ waiting (id alice) (fst (findMatch_alone alice twice_named)) = true.
Proof.
  apply a_participant_named_by_two_rooms_adopts_none.
  - reflexivity.
  - simpl; lia.
Defined.

(** *** A search that has missed *)

Lemma client_step_resting (a : Action) (s : Store) (c : Client) :
  is_find a = false -> resting c -> resting (snd (client_step a s c)).
Proof.
  intros Ha [Hr Hp]; destruct a as [| | |k ok]; simpl; try discriminate.
  - destruct (isSearching c); [|split; assumption].
    split; [exact Hr|]. simpl. apply Forall_app; split; [exact Hp | repeat constructor].
  - unfold endChat; rewrite Hr; split; assumption.
  - destruct (nth_error (pending c) k) as [p|] eqn:E; [|split; assumption].
    pose proof (Forall_nth_error _ _ _ _ Hp E) as Hat.
    pose proof (Forall_remove_nth _ _ k Hp) as Hrest.
    destruct p as [b|b|m|m|b| | |r|ms [|b]]; simpl in Hat; try contradiction; simpl.
    + split; assumption.
    + split; assumption.
    + subst b; split; assumption.
Qed.

Lemma sys_step_resting (i : nat) (ia : nat * Action) (sys : System) :
  is_click_find i ia = false -> client_resting i sys -> client_resting i (sys_step ia sys).
Proof.
  unfold client_resting, sys_step, is_click_find; destruct ia as [j a]; simpl.
  intros Hc Hi.
  destruct (nth_error (clients sys) j) as [c|] eqn:Ej; [|exact Hi].
  pose proof (client_step_resting a (store sys) c) as Hstep.
  destruct (client_step a (store sys) c) as [s' c']; simpl in *.
  destruct (Nat.eq_dec j i) as [->|Hne].
  - rewrite (nth_error_update_nth_eq _ _ _ _ Ej). rewrite Ej in Hi.
    apply Hstep; [|exact Hi].
    destruct a; try reflexivity. rewrite Nat.eqb_refl in Hc; discriminate.
  - rewrite (nth_error_update_nth_neq _ _ _ _ Hne); exact Hi.
Qed.

Lemma run_resting (i : nat) (sched : list (nat * Action)) (sys : System) :
  clicks i sched = 0 -> client_resting i sys -> client_resting i (run sched sys).
Proof.
  revert sys; induction sched as [|ia sched IH]; intros sys Hz Hi; simpl; [exact Hi|].
  unfold clicks in Hz; simpl in Hz.
  destruct (is_click_find i ia) eqn:E; [discriminate|].
  apply IH; [exact Hz | apply sys_step_resting; assumption].
Qed.

(** A client whose search has missed and who waits for nothing but timers
    stays without a room, whatever the other clients do and whenever its
    timers fire, until its user presses the button again: the retry
    callback does not search, so a room that another client creates for it
    in the meantime is not found. *)
Theorem a_search_that_missed_finds_no_room_without_a_new_click :
  forall (s0 : Store) (users : list User) (sched later : list (nat * Action))
         (i : nat) (c : Client),
    nth_error (clients (run sched (init s0 users))) i = Some c ->
    chatRoom c = None ->
    Forall (fun p => is_request p = false) (pending c) ->
    clicks i later = 0 ->
    client_room i (run later (run sched (init s0 users))) = None.
Proof.
  intros s0 users sched later i c Hc Hr Hp Hz.
  assert (Hq : Forall quiet (clients (run sched (init s0 users))))
    by (apply run_quiet, init_quiet).
  pose proof (Forall_nth_error _ _ _ _ Hq Hc) as Hcq.
  assert (Hrest : client_resting i (run sched (init s0 users))).
  { unfold client_resting; rewrite Hc; split; [exact Hr|].
    unfold quiet in Hcq. rewrite Forall_forall in *.
    intros p Hin. specialize (Hp p Hin); specialize (Hcq p Hin).
    destruct p as [b|b|m|m|b| | |r|ms [|b]]; simpl in *; try discriminate; auto.
    destruct Hcq; assumption. }
  pose proof (run_resting i later _ Hz Hrest) as H.
  unfold client_resting, client_room in *.
  destruct (nth_error (clients (run later (run sched (init s0 users)))) i);
    [apply H | reflexivity].
Qed.

Lemma a_search_that_missed_witness :
  client_room 0 (run bob_pairs_with_alice
                     (run search_then_cancel (init empty_store [alice; bob])))
  = None
  /\ map (fun r => (user1_id r, user2_id r, is_active r))
         (chat_rooms (store (run bob_pairs_with_alice
                                 (run search_then_cancel (init empty_store [alice; bob])))))
     = [("b", "a", true)].
Proof.
  split; [|reflexivity].
  apply (a_search_that_missed_finds_no_room_without_a_new_click
           empty_store [alice; bob] search_then_cancel bob_pairs_with_alice 0 _ eq_refl).
  - reflexivity.
  - repeat constructor.
  - reflexivity.
Defined.

End MatchmakerMore.

Module CancelAndRetry.

Import Matchmaker.
Import MatchmakerProofs.
Import MatchmakerMore.
Import Scenarios.

(** *** What a step does to the rows of a participant *)







(** *** A cancel that finds nothing in flight *)







(** *** The retry after a miss *)

(** C9 on a concrete run.  Alice searches while nobody waits: her search
    misses, a timer of 2000 ms is set and she is shown as searching.  Bob
    then searches, finds her row and creates the room (b, a).  Alice's
    timer fires: its callback reads the [isSearching] of the render that
    showed the button, which is [false], and does not call [findMatch].
    From then on, whatever the clients and the timers do, Alice makes no
    second attempt and is in no room until she presses the button again,
    although the active room (b, a) names her.  A delete of the pair, a
    lookup of a room and a delete of the own row that fail are not
    reported: the code goes on as after a delete that was served and a
    lookup that found nothing. *)
Theorem C9_a_search_that_missed_is_never_retried :
  let missed := run search_that_misses (init empty_store [alice; bob]) in
  let sys := run bob_pairs_with_alice missed in
  nth_error (clients missed) 0 = Some alice_missed
  /\ waiting "a" (store missed) = true
  /\ nth_error (clients sys) 0 = Some alice_stuck
  /\ chat_rooms (store sys) = [room_of_bob]
  /\ client_room 1 sys = Some room_of_bob
  /\ (forall later : list (nat * Action),
        clicks 0 later = 0 ->
        client_attempts 0 (run later sys) = 1
        /\ client_room 0 (run later sys) = None)
  /\ (forall (s : Store) (c : Client) (m : WaitingEntry) (b : bool),
        resume false (AwaitDeletePair m) s c = (s, suspend (Timeout 2000 StartVideoCall) c)
        /\ resume false (AwaitExistingRoom b) s c
           = (s, suspend (Timeout 2000 (RetryFindMatch b)) (log LogNoMatchWaiting c))
        /\ resume false AwaitDeleteSelf s c = (s, suspend (Timeout 1000 StartVideoCall) c)).
Proof.
  intros missed sys.
  assert (Hc : nth_error (clients sys) 0 = Some alice_stuck) by (vm_compute; reflexivity).
  split; [vm_compute; reflexivity|]. split; [vm_compute; reflexivity|].
  split; [exact Hc|]. split; [vm_compute; reflexivity|]. split; [vm_compute; reflexivity|].
  split; [|intros s c m b; repeat split].
  intros later Hz; split.
  - assert (Hq : Forall quiet (clients sys))
      by (unfold sys, missed; apply run_quiet, run_quiet, init_quiet).
    rewrite (proj2 (run_attempts 0 later sys Hq) Hz).
    unfold client_attempts; rewrite Hc; reflexivity.
  - assert (Hr : client_resting 0 sys)
      by (unfold client_resting; rewrite Hc; split; [reflexivity | constructor]).
    pose proof (run_resting 0 later sys Hz Hr) as H.
    unfold client_resting, client_room in *.
    destruct (nth_error (clients (run later sys)) 0); [apply H | reflexivity].
Qed.

Lemma C9_no_retry_witness :
  client_attempts 0
    (run [(0, Run 0 true); (1, Run 0 true)]%nat
         (run bob_pairs_with_alice (run search_that_misses (init empty_store [alice; bob]))))
  = 1.
Proof.
  exact (proj1 (proj1 (proj2 (proj2 (proj2 (proj2 (proj2
           C9_a_search_that_missed_is_never_retried)))))
           [(0, Run 0 true); (1, Run 0 true)]%nat eq_refl)).
Defined.

End CancelAndRetry.

Module LoginMore.

Import Login.
Import LoginProofs.
Import Scenarios.

Lemma usernames_update (i : string) (users : list UserRow) :
  map username (map (fun r => if id r =? i then go_online r else r) users)
  = map username users.
Proof.
  induction users as [|h t IH]; simpl; [reflexivity|].
  rewrite IH; destruct (id h =? i); reflexivity.
Qed.

Lemma existsb_username_In (name : string) (users : list UserRow) :
  existsb (fun u => username u =? name) users = false -> ~ In name (map username users).
Proof.
  intros H Hin. apply in_map_iff in Hin; destruct Hin as [u [E Hu]].
  assert (existsb (fun u => username u =? name) users = true).
  { apply existsb_exists; exists u; split; [assumption | apply String.eqb_eq; exact E]. }
  congruence.
Qed.

(** Whatever faults occur and whatever the table is by the time of the
    second request, [handleLogin] leaves the names of the table as they
    were, or adds the one name it was called with, which the table did not
    hold; so it never makes two rows of one name. *)
Theorem login_adds_at_most_its_own_name :
  forall (name : string) (findFault writeFault : option DbError) (newId : string)
         (users users' : list UserRow),
    (map username (fst (handleLogin name findFault users writeFault newId users'))
     = map username users'
     \/ (map username (fst (handleLogin name findFault users writeFault newId users'))
         = map username users' ++ [name]
         /\ ~ In name (map username users')))
    /\ (names_unique users' ->
        names_unique (fst (handleLogin name findFault users writeFault newId users'))).
Proof.
  intros name ff wf newId users users'.
  assert (H : map username (fst (handleLogin name ff users wf newId users'))
              = map username users'
              \/ (map username (fst (handleLogin name ff users wf newId users'))
                  = map username users' ++ [name]
                  /\ ~ In name (map username users'))).
  { unfold handleLogin.
    destruct (answered ff (find_by_username name users)) as [existing ferr].
    destruct (match ferr with
              | Some err => if negb (code err =? "PGRST116") then Some err else None
              | None => None
              end); [left; reflexivity|].
    destruct existing as [ex|]; unfold written; destruct wf; simpl; try (left; reflexivity).
    - left; apply usernames_update.
    - unfold insert_user.
      destruct (existsb (fun u => username u =? name) users') eqn:E; simpl.
      + left; reflexivity.
      + right; split; [rewrite map_app; reflexivity | apply existsb_username_In; exact E]. }
  split; [exact H|].
  unfold names_unique; intros Hu.
  destruct H as [->|[-> Hn]]; [assumption|].
  apply NoDup_app; repeat split; auto.
  - constructor; [intros [] | constructor].
  - intros x Hx [<-|[]]; contradiction.
Qed.

Lemma login_adds_witness :
  names_unique (fst (handleLogin "alice" None alice_online None "u2" alice_online)).
Proof.
  apply (proj2 (login_adds_at_most_its_own_name
                  "alice" None None "u2" alice_online alice_online)).
  unfold names_unique; simpl. constructor; [intros [] | constructor].
Defined.

Lemma find_absent (name : string) (users : list UserRow) :
  existsb (fun u => username u =? name) users = false ->
  filter (fun u => username u =? name) users = [].
Proof.
  induction users as [|h t IH]; simpl; [reflexivity|].
  destruct (username h =? name); simpl; [discriminate | exact IH].
Qed.

Lemma login_new (name newId : string) (users : list UserRow) :
  existsb (fun u => username u =? name) users = false ->
  handleLogin name None users None newId users
  = (users ++ [{| id := newId; username := name; is_online := true |}],
     accepted {| id := newId; username := name; is_online := true |}).
Proof.
  intros H. unfold handleLogin, answered, find_by_username, written, insert_user.
  rewrite (find_absent name users H); simpl. rewrite H; reflexivity.
Qed.

(** A login with a name that the table does not hold creates the row,
    online, under the key the table gives it, and makes it the current
    user; a lookup of the name then finds that row. *)
Theorem a_new_name_is_registered_and_logged_in :
  forall (name newId : string) (users : list UserRow),
    existsb (fun u => username u =? name) users = false ->
    handleLogin name None users None newId users
    = (users ++ [{| id := newId; username := name; is_online := true |}],
       accepted {| id := newId; username := name; is_online := true |})
    /\ find_by_username name (fst (handleLogin name None users None newId users))
       = (Some {| id := newId; username := name; is_online := true |}, None).
Proof.
  intros name newId users H.
  pose proof (login_new name newId users H) as E.
  split; [exact E|].
  rewrite E; unfold find_by_username; simpl.
  rewrite filter_app, (find_absent name users H); simpl.
  rewrite String.eqb_refl; reflexivity.
Qed.

Lemma a_new_name_witness :
  handleLogin "bob" None alice_online None "u2" alice_online
  = (alice_online ++ [{| id := "u2"; username := "bob"; is_online := true |}],
     accepted {| id := "u2"; username := "bob"; is_online := true |}).
Proof.
  apply (a_new_name_is_registered_and_logged_in "bob" "u2" alice_online).
  reflexivity.
Defined.

(** A fault of either request is reported and nothing else happens: the
    table is as the request found it, no current user is set, and the
    message is the one for a taken name when the code is 23505 and
    otherwise "Login failed: " with the error's message, or with "Unknown
    error" when it has none.  A fault of the lookup with code PGRST116 is
    not reported: it is taken for "no such user". *)
Theorem a_fault_is_reported_and_changes_nothing :
  forall (name newId : string) (findFault writeFault : option DbError)
         (users users' : list UserRow) (err : DbError),
    (findFault = Some err -> code err <> "PGRST116" ->
     handleLogin name findFault users writeFault newId users' = (users', rejected err))
    /\ (findFault = None -> writeFault = Some err ->
        handleLogin name findFault users writeFault newId users' = (users', rejected err))
    /\ currentUser (rejected err) = None
    /\ error (rejected err)
       = Some (if code err =? "23505"
               then "This username is already taken. Please choose another one."
               else if message err =? ""
                    then "Login failed: Unknown error"
                    else String.append "Login failed: " (message err))
    /\ (findFault = Some err -> code err = "PGRST116" ->
        handleLogin name findFault users writeFault newId users'
        = handleLogin name None [] writeFault newId users').
Proof.
  intros name newId ff wf users users' err; repeat split.
  - intros -> Hc. unfold handleLogin, answered.
    apply String.eqb_neq in Hc; rewrite Hc; reflexivity.
  - intros -> ->. unfold handleLogin, answered, written.
    destruct (find_by_username name users) as [[ex|] [e|]] eqn:E;
      unfold find_by_username in E;
      destruct (single _); try discriminate; injection E as <-; try reflexivity.
  - simpl. destruct (code err =? "23505"); [reflexivity|].
    destruct (message err =? ""); reflexivity.
  - intros -> Hc. unfold handleLogin, answered; simpl.
    rewrite Hc; reflexivity.
Qed.

Lemma a_fault_witness :
  handleLogin "alice" (Some {| code := "500"; message := "" |}) alice_online None
              "u2" alice_online
  = (alice_online, rejected {| code := "500"; message := "" |}).
Proof.
  apply (proj1 (a_fault_is_reported_and_changes_nothing
                  "alice" "u2" (Some {| code := "500"; message := "" |}) None
                  alice_online alice_online {| code := "500"; message := "" |})).
  - reflexivity.
  - discriminate.
Defined.

Lemma login_existing (name newId : string) (users : list UserRow) (u : UserRow) :
  NoDup (map id users) ->
  find_by_username name users = (Some u, None) ->
  handleLogin name None users None newId users
  = (map (fun r => if id r =? id u then go_online r else r) users, accepted (go_online u)).
Proof.
  intros Hnd Hf.
  destruct (find_by_username_In _ _ _ Hf) as [Hin _].
  unfold handleLogin, answered, written, update_online; rewrite Hf.
  rewrite (update_hits_once u users Hnd Hin); reflexivity.
Qed.

Lemma offline_hits_once (u : UserRow) (users : list UserRow) :
  ~ In (id u) (map id users) ->
  map (fun r => if id r =? id u then go_offline r else r) (users ++ [u])
  = users ++ [go_offline u].
Proof.
  intros H; rewrite map_app; simpl; rewrite String.eqb_refl. f_equal.
  induction users as [|h t IH]; simpl; [reflexivity|].
  destruct (id h =? id u) eqn:E.
  - apply String.eqb_eq in E; exfalso; apply H; left; assumption.
  - rewrite IH; [reflexivity|]. intros Hin; apply H; right; assumption.
Qed.

Lemma online_misses (i : string) (users : list UserRow) :
  ~ In i (map id users) ->
  map (fun r => if id r =? i then go_online r else r) users = users.
Proof.
  intros H; induction users as [|h t IH]; simpl; [reflexivity|].
  destruct (id h =? i) eqn:E.
  - apply String.eqb_eq in E; exfalso; apply H; left; assumption.
  - rewrite IH; [reflexivity|]. intros Hin; apply H; right; assumption.
Qed.

Lemma login_again (name newId otherId : string) (users : list UserRow) (on : bool) :
  NoDup (map id users) ->
  ~ In newId (map id users) ->
  existsb (fun u => username u =? name) users = false ->
  handleLogin name None (users ++ [{| id := newId; username := name; is_online := on |}])
              None otherId
              (users ++ [{| id := newId; username := name; is_online := on |}])
  = (users ++ [{| id := newId; username := name; is_online := true |}],
     accepted {| id := newId; username := name; is_online := true |}).
Proof.
  intros Hnd Hnew Habs.
  set (row := {| id := newId; username := name; is_online := on |}).
  assert (Hf : find_by_username name (users ++ [row]) = (Some row, None)).
  { unfold find_by_username; rewrite filter_app, (find_absent name users Habs); simpl.
    rewrite String.eqb_refl; reflexivity. }
  assert (Hnd' : NoDup (map id (users ++ [row]))).
  { rewrite map_app; simpl. apply NoDup_app; repeat split; auto.
    - constructor; [intros [] | constructor].
    - intros x Hx [<-|[]]; contradiction. }
  rewrite (login_existing name otherId (users ++ [row]) row Hnd' Hf).
  rewrite map_app; simpl. rewrite String.eqb_refl.
  rewrite (online_misses newId users Hnew); reflexivity.
Qed.

(** A participant who registers a new name, leaves the page and logs in
    with the name again is the same user: the second login finds the row
    that the first created, sets it online and returns it under the same
    key; no second row is made.  This is so when the [beforeunload]
    listener has set the row offline in between, and also when only the
    cleanup of the effect has run, which leaves the row online. *)
Theorem logging_in_again_gives_the_same_user :
  forall (name newId otherId : string) (users : list UserRow),
    NoDup (map id users) ->
    ~ In newId (map id users) ->
    existsb (fun u => username u =? name) users = false ->
    let first := handleLogin name None users None newId users in
    let left := handleBeforeUnload (snd first) (fst first) in
    let stayed := effect_cleanup (snd first) (fst first) in
    left = users ++ [{| id := newId; username := name; is_online := false |}]
    /\ handleLogin name None left None otherId left = first
    /\ stayed = users ++ [{| id := newId; username := name; is_online := true |}]
    /\ handleLogin name None stayed None otherId stayed = first.
Proof.
  intros name newId otherId users Hnd Hnew Habs first left stayed.
  set (row := {| id := newId; username := name; is_online := true |}).
  assert (E1 : first = (users ++ [row], accepted row))
    by (apply login_new; assumption).
  assert (E2 : left = users ++ [go_offline row]).
  { unfold left; rewrite E1; unfold handleBeforeUnload; simpl.
    apply (offline_hits_once row users); exact Hnew. }
  assert (E3 : stayed = users ++ [row])
    by (unfold stayed, effect_cleanup; rewrite E1; reflexivity).
  split; [exact E2|]. split; [|split; [exact E3|]].
  - rewrite E2, E1. exact (login_again name newId otherId users false Hnd Hnew Habs).
  - rewrite E3, E1. exact (login_again name newId otherId users true Hnd Hnew Habs).
Qed.

Lemma logging_in_again_witness :
  handleLogin "bob" None
              (handleBeforeUnload
                 (snd (handleLogin "bob" None alice_online None "u2" alice_online))
                 (fst (handleLogin "bob" None alice_online None "u2" alice_online)))
              None "u3"
              (handleBeforeUnload
                 (snd (handleLogin "bob" None alice_online None "u2" alice_online))
                 (fst (handleLogin "bob" None alice_online None "u2" alice_online)))
  = handleLogin "bob" None alice_online None "u2" alice_online.
Proof.
  assert (Hnd : NoDup (map id alice_online))
    by (simpl; constructor; [intros [] | constructor]).
  assert (Hnew : ~ In "u2" (map id alice_online))
    by (simpl; intros [H|[]]; discriminate).
  exact (proj1 (proj2 (logging_in_again_gives_the_same_user
                         "bob" "u2" "u3" alice_online Hnd Hnew eq_refl))).
Defined.

(** *** Presence *)

Lemma online_after_cleanup (users : list UserRow) :
  filter is_online (cleanupOfflineUsers users) = [].
Proof.
  unfold cleanupOfflineUsers; induction users as [|h t IH]; simpl; [reflexivity|].
  destruct (is_online h) eqn:E; simpl; [|rewrite E]; exact IH.
Qed.

Lemma update_online_result (i : string) (users : list UserRow) (u : UserRow) :
  snd (update_online i users) = (Some u, None) ->
  In u (fst (update_online i users)) /\ is_online u = true.
Proof.
  unfold update_online; simpl.
  destruct (filter _ _) as [|x [|y l]] eqn:E; simpl; try discriminate.
  intros H; injection H as ->.
  assert (Hin : In u (filter (fun r => id r =? i)
                             (map (fun r => if id r =? i then go_online r else r) users)))
    by (rewrite E; left; reflexivity).
  apply filter_In in Hin; destruct Hin as [Hin Hid]. split; [exact Hin|].
  apply in_map_iff in Hin; destruct Hin as [r [Hr _]].
  destruct (id r =? i) eqn:Er; [subst u; reflexivity|].
  subst u; congruence.
Qed.

(** The load of the home page sets every user offline, whoever they are:
    the count of online users drops to 0 while every row keeps its key and
    name.  Whenever a login goes through, the current user is a row of the
    table and is online, so the count is at least 1 afterwards.  When the
    count cannot be read it is shown as 0. *)
Theorem presence_is_reset_by_a_page_load_and_set_by_a_login :
  forall (name newId : string) (findFault writeFault : option DbError)
         (users users' : list UserRow) (u : UserRow) (err : DbError),
    getOnlineCount None (cleanupOfflineUsers users) = 0
    /\ map id (cleanupOfflineUsers users) = map id users
    /\ map username (cleanupOfflineUsers users) = map username users
    /\ getOnlineCount (Some err) users = 0
    /\ (currentUser (snd (handleLogin name findFault users writeFault newId users')) = Some u ->
        In u (fst (handleLogin name findFault users writeFault newId users'))
        /\ is_online u = true
        /\ 1 <= getOnlineCount None
                  (fst (handleLogin name findFault users writeFault newId users'))).
Proof.
  intros name newId ff wf users users' u err.
  split; [unfold getOnlineCount; rewrite online_after_cleanup; reflexivity|].
  split; [unfold cleanupOfflineUsers; rewrite map_map; apply map_ext;
          intros a; destruct (is_online a); reflexivity|].
  split; [unfold cleanupOfflineUsers; rewrite map_map; apply map_ext;
          intros a; destruct (is_online a); reflexivity|].
  split; [reflexivity|].
  intros Hu.
  assert (Hall : In u (fst (handleLogin name ff users wf newId users'))
                 /\ is_online u = true).
  { revert Hu; unfold handleLogin.
    destruct (answered ff (find_by_username name users)) as [existing ferr].
    destruct (match ferr with
              | Some e => if negb (code e =? "PGRST116") then Some e else None
              | None => None
              end); [discriminate|].
    destruct existing as [ex|]; unfold written; destruct wf; simpl; try discriminate.
    - pose proof (update_online_result (id ex) users' u) as Hup.
      unfold update_online in Hup; simpl in Hup.
      destruct (single _) as [r|]; simpl; [|discriminate].
      intros E; injection E as ->. apply Hup; reflexivity.
    - unfold insert_user.
      destruct (existsb (fun x => username x =? name) users'); simpl; [discriminate|].
      intros E; injection E as <-. split; [|reflexivity].
      apply in_or_app; right; left; reflexivity. }
  destruct Hall as [Hin Hon]. split; [exact Hin|]. split; [exact Hon|].
  unfold getOnlineCount.
  assert (Hf : In u (filter is_online
                            (fst (handleLogin name ff users wf newId users'))))
    by (apply filter_In; split; assumption).
  destruct (filter is_online _); [destruct Hf | simpl; lia].
Qed.

Lemma presence_witness :
  1 <= getOnlineCount None
         (fst (handleLogin "bob" None (cleanupOfflineUsers alice_online) None "u2"
                           (cleanupOfflineUsers alice_online))).
Proof.
  exact (proj2 (proj2 (proj2 (proj2 (proj2 (proj2
           (presence_is_reset_by_a_page_load_and_set_by_a_login
              "bob" "u2" None None
              (cleanupOfflineUsers alice_online) (cleanupOfflineUsers alice_online)
              {| id := "u2"; username := "bob"; is_online := true |}
              not_found)))) eq_refl))).
Defined.

End LoginMore.

Module LoginFormProofs.

Import LoginForm.

(** Whatever [trim] does: the form hands a name to [onLogin] exactly when
    its submit button is enabled, so a submit by the keyboard cannot do what
    the button forbids; the name it hands over is the trimmed input, and it
    is never empty and never handed over while a login is under way. *)
Theorem the_form_submits_only_what_the_button_allows :
  forall (trim : string -> string) (username : string) (loading : bool),
    (handleSubmit trim username loading = None <-> submit_disabled trim username loading = true)
    /\ (forall name, handleSubmit trim username loading = Some name ->
                     name = trim username /\ name <> "" /\ loading = false).
Proof.
  intros trim username loading; unfold handleSubmit, submit_disabled, truthy.
  destruct (trim username =? "") eqn:E; destruct loading; simpl; split;
    try (split; intros H; (reflexivity || discriminate H));
    try (intros name H; discriminate H).
  intros name H; injection H as <-.
  split; [reflexivity|]. split; [apply String.eqb_neq; exact E | reflexivity].
Qed.

Lemma the_form_submits_witness :
  "bob" = (fun x : string => x) "bob" /\ "bob" <> "" /\ false = false.
Proof.
  exact (proj2 (the_form_submits_only_what_the_button_allows
                  (fun x => x) "bob" false) "bob" eq_refl).
Defined.

End LoginFormProofs.

Module MessagesProofs.

Import Messages.





End MessagesProofs.
